(** * Quantum-kernel SVM notebooks (Covalent Q-SITE 2022): a shallow embedding

    The notebooks [tutorial/covalent_qsvm_tutorial.ipynb] and
    [exercise/covalent_qsvm_challenge_solution.ipynb] (with the challenge
    prompt it solves) are thin glue around numpy, scikit-learn and
    PennyLane.  The glue is embedded function by function, under the names
    it has in the notebooks, in the modules [Tutorial] and [Challenge].  The
    library calls it makes are embedded from the libraries' documented
    behaviour, in the modules [Np], [MinMaxScaler], [Sklearn] and [Qml];
    what a library decides by drawing random numbers or by numerical
    optimisation (the indices of a stratified split, the fitted classifier,
    the shots of a device) is a parameter, with the library's contract
    stated as a predicate on it.

    Conventions:
    - Python floats are idealised as real numbers ([R]); [PI] is the
      constant imported as [from math import pi as PI].  Where rounding
      matters, the scaler and the loaders are also given over an
      arithmetic ([Fp]) whose every result is rounded, and over IEEE 754
      binary64.
    - numpy integer labels are [Z]; lengths and indices are [nat].
    - a Python exception is a [Raise] in the [result] monad.
    - a sample set (a rank-2 array that is only iterated over and indexed by
      row) is the list of its rows. *)

From Stdlib Require Import List Arith ZArith Lia Bool Permutation Sorted.
From Stdlib Require Import Reals Lra Psatz QArith Qround.
From Stdlib Require PrimFloat.
Import ListNotations.

Close Scope Q_scope.
Close Scope R_scope.
Open Scope nat_scope.

(** ** Exceptions *)

Inductive exn : Set :=
| ValueError
| IndexError
| ZeroDivisionError.

Inductive result (A : Type) : Type :=
| Ok (a : A)
| Raise (e : exn).

Arguments Ok {A} a.
Arguments Raise {A} e.

Definition bind {A B : Type} (r : result A) (f : A -> result B) : result B :=
  match r with
  | Ok a => f a
  | Raise e => Raise e
  end.

Declare Scope result_scope.
Delimit Scope result_scope with result.
Notation "x <- r ;; k" := (bind r (fun x => k))
  (at level 61, r at next level, right associativity) : result_scope.
Notation "' p <- r ;; k" := (bind r (fun x => let p := x in k))
  (at level 61, p pattern, r at next level, right associativity) : result_scope.
Open Scope result_scope.

(** [for i in range(n): s = body(i, s)], stopping at the first exception. *)
Definition for_range {S : Type} (n : nat) (body : nat -> S -> result S)
    (s : S) : result S :=
  fold_left (fun r i => bind r (body i)) (seq 0 n) (Ok s).

(** [l[i]] for a non-negative index. *)
Definition getitem {A : Type} (l : list A) (i : nat) : result A :=
  match nth_error l i with
  | Some a => Ok a
  | None => Raise IndexError
  end.

(** ** numpy arrays of rank one and two *)

Module Np.

(** A rank-2 array carries its column count: the shapes (n, 0) and (0, m)
    hold no entry from which it could be read back. *)
Inductive ndarray (A : Type) : Type :=
| Arr1 (data : list A)
| Arr2 (ncols : nat) (rows : list (list A)).

Arguments Arr1 {A} data.
Arguments Arr2 {A} ncols rows.

Definition shape {A} (a : ndarray A) : list nat :=
  match a with
  | Arr1 d => [length d]
  | Arr2 c rows => [length rows; c]
  end.

(** Every row of a rank-2 array has [ncols] entries. *)
Definition wf {A} (a : ndarray A) : Prop :=
  match a with
  | Arr1 _ => True
  | Arr2 c rows => Forall (fun r => length r = c) rows
  end.

(** C-order buffer. *)
Definition ravel {A} (a : ndarray A) : list A :=
  match a with
  | Arr1 d => d
  | Arr2 _ rows => concat rows
  end.

(** [n1] successive rows of [n2] entries cut from a C-order buffer. *)
Fixpoint chunks {A} (n1 n2 : nat) (l : list A) : list (list A) :=
  match n1 with
  | O => []
  | S k => firstn n2 l :: chunks k n2 (skipn n2 l)
  end.

(** [a.reshape((n1, n2))]: "cannot reshape array of size ... into shape ..."
    is a ValueError. *)
Definition reshape {A} (a : ndarray A) (n1 n2 : nat) : result (ndarray A) :=
  if length (ravel a) =? n1 * n2
  then Ok (Arr2 n2 (chunks n1 n2 (ravel a)))
  else Raise ValueError.

(** [np.array(l)] for a flat list of scalars. *)
Definition array {A} (l : list A) : ndarray A := Arr1 l.

(** [np.array(ll)] for a list of lists of scalars.  The empty list gives the
    rank-1 array of shape (0,); rows of unequal length are rejected. *)
Definition array2 {A} (ll : list (list A)) : result (ndarray A) :=
  match ll with
  | [] => Ok (Arr1 [])
  | r :: _ =>
      if forallb (fun r' => length r' =? length r) ll
      then Ok (Arr2 (length r) ll)
      else Raise ValueError
  end.

(** [a[i, j]] on a rank-2 array. *)
Definition get2 {A} (a : ndarray A) (i j : nat) : option A :=
  match a with
  | Arr1 _ => None
  | Arr2 _ rows =>
      match nth_error rows i with
      | Some r => nth_error r j
      | None => None
      end
  end.

(** [len(a)]: the extent of the first axis. *)
Definition len {A} (a : ndarray A) : nat :=
  match a with
  | Arr1 d => length d
  | Arr2 _ rows => length rows
  end.

(** [zip_with f l1 l2]: element-wise [f], as numpy broadcasting a row against
    per-column vectors of the same width does. *)
Fixpoint zip_with {A B C} (f : A -> B -> C) (l1 : list A) (l2 : list B)
    : list C :=
  match l1, l2 with
  | a :: l1', b :: l2' => f a b :: zip_with f l1' l2'
  | _, _ => []
  end.

(** [l[idx]] for a boolean mask [idx]: "boolean index did not match indexed
    array" is an IndexError. *)
Definition mask_select {A} (idx : list bool) (l : list A) : result (list A) :=
  if length idx =? length l
  then Ok (map snd (filter fst (combine idx l)))
  else Raise IndexError.

End Np.

(** ** scikit-learn: MinMaxScaler *)

Module MinMaxScaler.

Local Open Scope R_scope.

(** The fitted attributes [scale_] and [min_], one entry per column. *)
Record t : Type := mk { scale_ : list R; min_ : list R }.

(** [np.min(X, axis=0)] and [np.max(X, axis=0)] for [f := Rmin], [Rmax]. *)
Definition col_reduce (f : R -> R -> R) (X : list (list R)) : list R :=
  match X with
  | [] => []
  | r :: rs => fold_left (fun acc row => Np.zip_with f acc row) rs r
  end.

(** [np.finfo(np.float64).eps]: 2 ^ -52. *)
Definition eps : R := / 4503599627370496.

(** [_handle_zeros_in_scale] on an array of column ranges: a range below
    [10 * eps] counts as constant and is replaced by 1. *)
Definition handle_zeros_in_scale (s : R) : R :=
  if Rlt_dec s (10 * eps) then 1 else s.

(** [MinMaxScaler(feature_range).fit(X)].  An array without samples or
    without features is a ValueError.  (The check that the range is not
    empty is left out: both notebooks pass [(0, 2 * PI)].) *)
Definition fit (feature_range : R * R) (X : list (list R)) : result t :=
  match X with
  | [] => Raise ValueError
  | r :: _ =>
      if (length r =? 0)%nat then Raise ValueError else
      let data_min := col_reduce Rmin X in
      let data_max := col_reduce Rmax X in
      let data_range := Np.zip_with Rminus data_max data_min in
      let scale :=
        map (fun d => (snd feature_range - fst feature_range)
                      / handle_zeros_in_scale d) data_range in
      let min :=
        Np.zip_with (fun m s => fst feature_range - m * s) data_min scale in
      Ok {| scale_ := scale; min_ := min |}
  end.

(** [scaler.transform(X)]: [X *= scale_; X += min_]. *)
Definition transform (sc : t) (X : list (list R)) : list (list R) :=
  map (fun row =>
         Np.zip_with Rplus (Np.zip_with Rmult row (scale_ sc)) (min_ sc)) X.

End MinMaxScaler.

(** ** Arithmetic: exact, rounded, binary64 *)

Module Fp.

(** The operations and constants the scaler and the loaders compute
    with. *)
Record arith (F : Type) : Type := {
  add : F -> F -> F;
  sub : F -> F -> F;
  mul : F -> F -> F;
  div : F -> F -> F;
  fmin : F -> F -> F;
  fmax : F -> F -> F;
  ltb : F -> F -> bool;
  zero : F;
  one : F;
  two : F;
  tiny : F;
  pi : F
}.

Arguments add {F} _ _ _.
Arguments sub {F} _ _ _.
Arguments mul {F} _ _ _.
Arguments div {F} _ _ _.
Arguments fmin {F} _ _ _.
Arguments fmax {F} _ _ _.
Arguments ltb {F} _ _ _.
Arguments zero {F} _.
Arguments one {F} _.
Arguments two {F} _.
Arguments tiny {F} _.
Arguments pi {F} _.

Section Reals.
Local Open Scope R_scope.

(** Real arithmetic in which the result of every operation is rounded by
    [rnd]: double precision when [rnd] rounds to the nearest double, exact
    arithmetic when [rnd] is the identity.  Minimum, maximum and
    comparison are exact; [tiny] is [10 * eps], itself a double; [pi] is
    [math.pi], the double nearest to [PI]. *)
Definition rounded (rnd : R -> R) : arith R :=
  {| add := fun x y => rnd (x + y);
     sub := fun x y => rnd (x - y);
     mul := fun x y => rnd (x * y);
     div := fun x y => rnd (x / y);
     fmin := Rmin;
     fmax := Rmax;
     ltb := fun x y => if Rlt_dec x y then true else false;
     zero := 0;
     one := 1;
     two := 2;
     tiny := 10 * MinMaxScaler.eps;
     pi := rnd PI |}.

Definition exact : arith R := rounded (fun x => x).

(** What IEEE 754 guarantees of rounding to nearest, overflow aside: it
    keeps the order, leaves 0 and every rounded number as they are, and
    commutes with negation. *)
Record rounding (rnd : R -> R) : Prop := {
  rnd_monotone : forall x y, x <= y -> rnd x <= rnd y;
  rnd_zero : rnd 0 = 0;
  rnd_idempotent : forall x, rnd (rnd x) = rnd x;
  rnd_opp : forall x, rnd (- x) = - rnd x
}.


End Reals.

Section Binary64.
Import PrimFloat.
Local Open Scope float_scope.


End Binary64.

End Fp.

(** ** scikit-learn: MinMaxScaler, over an arithmetic *)

Module MinMaxScalerFp.

Section WithArith.
Context {F : Type} (A : Fp.arith F).

Record t : Type := mk { scale_ : list F; min_ : list F }.

Definition col_reduce (f : F -> F -> F) (X : list (list F)) : list F :=
  match X with
  | [] => []
  | r :: rs => fold_left (fun acc row => Np.zip_with f acc row) rs r
  end.

(** [scale[scale < 10 * eps] = 1.0]. *)
Definition handle_zeros_in_scale (s : F) : F :=
  if Fp.ltb A s (Fp.tiny A) then Fp.one A else s.

(** [data_range = data_max - data_min];
    [scale_ = (feature_range[1] - feature_range[0])
              / _handle_zeros_in_scale(data_range)];
    [min_ = feature_range[0] - data_min * scale_]. *)
Definition fit (feature_range : F * F) (X : list (list F)) : result t :=
  match X with
  | [] => Raise ValueError
  | r :: _ =>
      if (length r =? 0)%nat then Raise ValueError else
      let data_min := col_reduce (Fp.fmin A) X in
      let data_max := col_reduce (Fp.fmax A) X in
      let data_range := Np.zip_with (Fp.sub A) data_max data_min in
      let scale :=
        map (fun d => Fp.div A
                        (Fp.sub A (snd feature_range) (fst feature_range))
                        (handle_zeros_in_scale d)) data_range in
      let min :=
        Np.zip_with (fun m s => Fp.sub A (fst feature_range) (Fp.mul A m s))
          data_min scale in
      Ok {| scale_ := scale; min_ := min |}
  end.

(** [X *= scale_; X += min_]. *)
Definition transform (sc : t) (X : list (list F)) : list (list F) :=
  map (fun row =>
         Np.zip_with (Fp.add A)
           (Np.zip_with (Fp.mul A) row (scale_ sc)) (min_ sc)) X.

End WithArith.

End MinMaxScalerFp.

(** ** scikit-learn: train_test_split, SVC, confusion_matrix *)

Module Sklearn.

(** [random_state=None] draws from numpy's global generator; an integer
    seeds a generator of its own. *)
Inductive random_state : Type :=
| RS_None
| RS_Int (seed : Z).

(** The index-drawing core of [train_test_split(..., stratify=labels)]:
    [StratifiedShuffleSplit(test_size=n_test, train_size=n_train)], run on a
    generator state, returns the train and test indices and the generator
    state it leaves behind; it raises ValueError on label sets it cannot
    stratify. *)
Record Splitter : Type := {
  rng : Type;
  seed_rng : Z -> rng;
  stratified_shuffle_split :
    rng -> list Z -> nat -> nat -> result (list nat * list nat) * rng
}.

(** [l[idx]] for a list of indices. *)
Fixpoint take {A} (l : list A) (idx : list nat) : result (list A) :=
  match idx with
  | [] => Ok []
  | i :: idx' =>
      a <- getitem l i ;;
      r <- take l idx' ;;
      Ok (a :: r)
  end.

(** [_validate_shuffle_split] for a float [test_size] and no [train_size]:
    [n_test = ceil(test_size * n_samples)], [n_train = n_samples - n_test];
    a [test_size] outside (0, 1) and an empty training part are
    ValueErrors.  The float is taken as the exact ratio it was computed
    from. *)
Definition validate_shuffle_split (n_samples : nat) (test_size : Q)
    : result (nat * nat) :=
  if Qle_bool test_size 0 || Qle_bool 1 test_size then Raise ValueError else
  let n_test :=
    Z.to_nat (Qceiling (test_size * inject_Z (Z.of_nat n_samples))) in
  let n_train := n_samples - n_test in
  if n_train =? 0 then Raise ValueError else Ok (n_train, n_test).

(** [train_test_split(X, y, test_size=..., random_state=..., stratify=...)],
    threading the state [g] of the global generator. *)
Definition train_test_split (sp : Splitter) {A} (X : list A) (y : list Z)
    (test_size : Q) (rs : random_state) (stratify : list Z) (g : rng sp)
    : result (list A * list A * list Z * list Z) * rng sp :=
  if negb ((length X =? length y) && (length X =? length stratify))
  then (Raise ValueError, g) else
  match validate_shuffle_split (length X) test_size with
  | Raise e => (Raise e, g)
  | Ok (n_train, n_test) =>
      let '(r, g') :=
        match rs with
        | RS_None => stratified_shuffle_split sp g stratify n_train n_test
        | RS_Int seed =>
            (fst (stratified_shuffle_split sp (seed_rng sp seed) stratify
                    n_train n_test), g)
        end in
      ('(train, test) <- r ;;
       X_train <- take X train ;;
       X_test <- take X test ;;
       y_train <- take y train ;;
       y_test <- take y test ;;
       Ok (X_train, X_test, y_train, y_test), g')
  end.

(** Number of entries of [l] equal to [c]. *)
Definition count (c : Z) (l : list Z) : nat :=
  length (filter (Z.eqb c) l).

(** The labels at the indices [part]. *)
Definition labels_at (y : list Z) (part : list nat) : list Z :=
  flat_map (fun i => match nth_error y i with Some l => [l] | None => [] end)
    part.

(** Class [c] holds, within one sample, the share of the [n_part] drawn
    samples that it holds of the whole. *)
Definition stratifiedb (y : list Z) (part : list nat) (n_part : nat) (c : Z)
    : bool :=
  (Z.abs (Z.of_nat (count c (labels_at y part)) * Z.of_nat (length y)
          - Z.of_nat n_part * Z.of_nat (count c y))
   <? Z.of_nat (length y))%Z.

Fixpoint nodupb (l : list nat) : bool :=
  match l with
  | [] => true
  | a :: l' => negb (existsb (Nat.eqb a) l') && nodupb l'
  end.

(** What scikit-learn documents of a stratified split: the requested sizes,
    indices in range, no index drawn twice, every class represented in
    proportion. *)
Definition split_okb (y : list Z) (n_train n_test : nat)
    (train test : list nat) : bool :=
  (length train =? n_train) && (length test =? n_test)
  && nodupb (train ++ test)
  && forallb (fun i => i <? length y) (train ++ test)
  && forallb (fun c => stratifiedb y train n_train c
                       && stratifiedb y test n_test c) y.

Definition split_contract (sp : Splitter) : Prop :=
  forall g y n_train n_test train test g',
    stratified_shuffle_split sp g y n_train n_test = (Ok (train, test), g') ->
    split_okb y n_train n_test train test = true.

(** [SVC()]: [fit] on a feature array and labels, [predict] on a feature
    array. *)
Record SVC : Type := {
  svc_model : Type;
  svc_fit : Np.ndarray R -> list Z -> result svc_model;
  svc_predict : svc_model -> Np.ndarray R -> result (list Z)
}.

(** A fitted classifier predicts one label per row, among the labels it was
    fitted on. *)
Definition svc_contract (svc : SVC) : Prop :=
  forall K_train y_train m K_test y_pred,
    svc_fit svc K_train y_train = Ok m ->
    svc_predict svc m K_test = Ok y_pred ->
    length y_pred = Np.len K_test /\
    Forall (fun l => In l y_train) y_pred.

(** [np.unique]: the distinct values in ascending order. *)
Fixpoint insert_unique (z : Z) (l : list Z) : list Z :=
  match l with
  | [] => [z]
  | h :: t =>
      if (z <? h)%Z then z :: l
      else if (z =? h)%Z then l
      else h :: insert_unique z t
  end.

Definition unique (l : list Z) : list Z := fold_right insert_unique [] l.

(** [confusion_matrix(y_true, y_pred)] with [labels=None]: rows and columns
    are indexed by the sorted distinct labels of both vectors; entry (i, j)
    counts the samples of true label i predicted as j. *)
Definition confusion_matrix (y_true y_pred : list Z)
    : result (Np.ndarray nat) :=
  if negb (length y_true =? length y_pred) then Raise ValueError else
  let labels := unique (y_true ++ y_pred) in
  Ok (Np.Arr2 (length labels)
        (map (fun a =>
                map (fun b =>
                       length (filter (fun p => (fst p =? a)%Z
                                                && (snd p =? b)%Z)
                                 (combine y_true y_pred)))
                  labels)
           labels)).

End Sklearn.

(** ** The wine data *)

(** What [load_wine(return_X_y=True)] returns: the feature rows and the
    integer class label of every sample. *)
Definition dataset : Type := (list (list R) * list Z)%type.


(** ** PennyLane: two wires, the embedding templates, expectation values *)

Module Qml.

Local Open Scope R_scope.

(** Complex amplitudes. *)
Record C : Type := mkC { Cre : R; Cim : R }.

Definition C0 : C := mkC 0 0.
Definition C1 : C := mkC 1 0.
Definition Creal (r : R) : C := mkC r 0.
Definition Cadd (a b : C) : C := mkC (Cre a + Cre b) (Cim a + Cim b).
Definition Cmul (a b : C) : C :=
  mkC (Cre a * Cre b - Cim a * Cim b) (Cre a * Cim b + Cim a * Cre b).
Definition Cconj (a : C) : C := mkC (Cre a) (- Cim a).
Definition Copp (a : C) : C := mkC (- Cre a) (- Cim a).
Definition Cnorm2 (a : C) : R := Cre a * Cre a + Cim a * Cim a.

(** [wires=range(2)]. *)
Inductive wire : Set := W0 | W1.
Definition wires : list wire := [W0; W1].

(** The state of the two wires: the amplitudes of |00>, |01>, |10>, |11>,
    wire 0 being the left bit. *)
Record state : Type := mkState { a00 : C; a01 : C; a10 : C; a11 : C }.

Definition zero_state : state := mkState C1 C0 C0 C0.

Record mat2 : Type := mkMat { m00 : C; m01 : C; m10 : C; m11 : C }.

(** A one-wire gate acting on wire [w] of the register. *)
Definition apply1 (U : mat2) (w : wire) (s : state) : state :=
  match w with
  | W0 =>
      mkState (Cadd (Cmul (m00 U) (a00 s)) (Cmul (m01 U) (a10 s)))
              (Cadd (Cmul (m00 U) (a01 s)) (Cmul (m01 U) (a11 s)))
              (Cadd (Cmul (m10 U) (a00 s)) (Cmul (m11 U) (a10 s)))
              (Cadd (Cmul (m10 U) (a01 s)) (Cmul (m11 U) (a11 s)))
  | W1 =>
      mkState (Cadd (Cmul (m00 U) (a00 s)) (Cmul (m01 U) (a01 s)))
              (Cadd (Cmul (m10 U) (a00 s)) (Cmul (m11 U) (a01 s)))
              (Cadd (Cmul (m00 U) (a10 s)) (Cmul (m01 U) (a11 s)))
              (Cadd (Cmul (m10 U) (a10 s)) (Cmul (m11 U) (a11 s)))
  end.

(** The operations the two templates decompose into. *)
Inductive op : Type :=
| RX (theta : R) (w : wire)
| RY (theta : R) (w : wire)
| Hadamard (w : wire)
| MultiRZ (theta : R).

(** [RX(theta)] is [[c, -i s], [-i s, c]] and [RY(theta)] is
    [[c, -s], [s, c]], for [c = cos(theta/2)] and [s = sin(theta/2)]. *)
Definition RX_matrix (theta : R) : mat2 :=
  mkMat (Creal (cos (theta / 2))) (mkC 0 (- sin (theta / 2)))
        (mkC 0 (- sin (theta / 2))) (Creal (cos (theta / 2))).

Definition RY_matrix (theta : R) : mat2 :=
  mkMat (Creal (cos (theta / 2))) (Creal (- sin (theta / 2)))
        (Creal (sin (theta / 2))) (Creal (cos (theta / 2))).

Definition Hadamard_matrix : mat2 :=
  mkMat (Creal (/ sqrt 2)) (Creal (/ sqrt 2))
        (Creal (/ sqrt 2)) (Creal (- / sqrt 2)).

(** [MultiRZ(theta)] on both wires is [exp(-i theta/2 Z(x)Z)]: the phase
    [exp(-i theta/2)] on |00> and |11>, [exp(i theta/2)] on |01> and |10>. *)
Definition apply_op (o : op) (s : state) : state :=
  match o with
  | RX theta w => apply1 (RX_matrix theta) w s
  | RY theta w => apply1 (RY_matrix theta) w s
  | Hadamard w => apply1 Hadamard_matrix w s
  | MultiRZ theta =>
      let p := mkC (cos (theta / 2)) (- sin (theta / 2)) in
      let q := mkC (cos (theta / 2)) (sin (theta / 2)) in
      mkState (Cmul p (a00 s)) (Cmul q (a01 s))
              (Cmul q (a10 s)) (Cmul p (a11 s))
  end.

(** The operations of a tape, applied in order. *)
Definition run (ops : list op) (s : state) : state :=
  fold_left (fun s o => apply_op o s) ops s.

(** [qml.adjoint]: the operations in reverse order, each one inverted. *)
Definition adjoint_op (o : op) : op :=
  match o with
  | RX theta w => RX (- theta) w
  | RY theta w => RY (- theta) w
  | Hadamard w => Hadamard w
  | MultiRZ theta => MultiRZ (- theta)
  end.

Definition adjoint (ops : list op) : list op := rev (map adjoint_op ops).

(** [qml.AngleEmbedding(features, wires=range(2))], rotation 'X': one
    [RX(features[i])] on wire [i]; more features than wires is a
    ValueError. *)
Definition AngleEmbedding (features : list R) : result (list op) :=
  if (length wires <? length features)%nat then Raise ValueError
  else Ok (Np.zip_with RX features wires).

(** The feature-encoding layer of the QAOA embedding: [RX(features[i])] on
    wire [i], a Hadamard on every wire left over. *)
Definition feature_encoding (features : list R) : list op :=
  Np.zip_with RX features wires
  ++ map Hadamard (skipn (length features) wires).

(** [qml.QAOAEmbedding(features, weights, wires=range(2))], local field
    'Y': per layer the feature encoding, [MultiRZ(weights[l][0])] on both
    wires, [RY(weights[l][1])] and [RY(weights[l][2])] on wires 0 and 1;
    then the feature encoding once more.  [weights] has shape
    (layers, 3). *)
Definition QAOAEmbedding (features : list R) (weights : list (R * R * R))
    : result (list op) :=
  if (length wires <? length features)%nat then Raise ValueError
  else Ok (flat_map (fun w =>
                       let '(w0, w1, w2) := w in
                       feature_encoding features
                       ++ [MultiRZ w0; RY w1 W0; RY w2 W1]) weights
           ++ feature_encoding features).

Definition mat_mul (U V : mat2) : mat2 :=
  mkMat (Cadd (Cmul (m00 U) (m00 V)) (Cmul (m01 U) (m10 V)))
        (Cadd (Cmul (m00 U) (m01 V)) (Cmul (m01 U) (m11 V)))
        (Cadd (Cmul (m10 U) (m00 V)) (Cmul (m11 U) (m10 V)))
        (Cadd (Cmul (m10 U) (m01 V)) (Cmul (m11 U) (m11 V))).

Definition mat_I : mat2 := mkMat C1 C0 C0 C1.

(** Conjugate transpose. *)
Definition dagger (U : mat2) : mat2 :=
  mkMat (Cconj (m00 U)) (Cconj (m10 U)) (Cconj (m01 U)) (Cconj (m11 U)).

(** <phi|psi>. *)
Definition inner (phi psi : state) : C :=
  Cadd (Cadd (Cmul (Cconj (a00 phi)) (a00 psi))
             (Cmul (Cconj (a01 phi)) (a01 psi)))
       (Cadd (Cmul (Cconj (a10 phi)) (a10 psi))
             (Cmul (Cconj (a11 phi)) (a11 psi))).

(** The squared norm of a state. *)
Definition state_norm2 (s : state) : R :=
  Cnorm2 (a00 s) + Cnorm2 (a01 s) + Cnorm2 (a10 s) + Cnorm2 (a11 s).

Definition amplitudes (s : state) : list C := [a00 s; a01 s; a10 s; a11 s].

Definition Csum (l : list C) : C := fold_right Cadd C0 l.

(** [qml.expval(qml.Hermitian(O, wires=range(2)))], analytically: the real
    number <s|O|s>. *)
Definition expval (O : list (list R)) (s : state) : R :=
  Cre (Csum (Np.zip_with
               (fun ai row =>
                  Cmul (Cconj ai)
                    (Csum (Np.zip_with (fun o aj => Cmul (Creal o) aj)
                             row (amplitudes s))))
               (amplitudes s) O)).

(** What one shot measures: a basis state of the two wires. *)
Definition outcome : Type := (bool * bool)%type.

Definition amplitude (s : state) (o : outcome) : C :=
  match o with
  | (false, false) => a00 s
  | (false, true) => a01 s
  | (true, false) => a10 s
  | (true, true) => a11 s
  end.

Definition probability (s : state) (o : outcome) : R :=
  Cnorm2 (amplitude s o).

Definition basis_index (o : outcome) : nat :=
  match o with
  | (false, false) => 0
  | (false, true) => 1
  | (true, false) => 2
  | (true, true) => 3
  end.

(** The eigenvalue a shot contributes for an observable that is diagonal in
    the measured basis: its diagonal entry at the observed state. *)
Definition shot_value (O : list (list R)) (o : outcome) : R :=
  nth (basis_index o) (nth (basis_index o) O []) 0.

(** The estimate of the expectation value from a finite list of shots. *)
Definition sample_mean (O : list (list R)) (outcomes : list outcome) : R :=
  fold_right Rplus 0 (map (shot_value O) outcomes) / INR (length outcomes).

(** A device: the number of shots per execution and, for a state of its
    own generator and the prepared state, the outcomes it reports. *)
Record Device : Type := {
  dev_rng : Type;
  shots : nat;
  sample : dev_rng -> state -> list outcome
}.

(** A noiseless device reports, for a normalised state, [shots] outcomes,
    each of them one the state gives a non-zero probability. *)
Definition noiseless (dev : Device) : Prop :=
  (0 < shots dev)%nat /\
  forall g s,
    state_norm2 s = 1 ->
    length (sample dev g s) = shots dev /\
    Forall (fun o => probability s o <> 0) (sample dev g s).

(** The sampling tolerance of a device for an observable: for every
    generator state and every normalised state it is asked to measure, the
    mean of the shots it reports lies within [tol] of the expectation
    value. *)
Definition estimates_within (dev : Device) (O : list (list R)) (tol : R)
    : Prop :=
  forall g s,
    state_norm2 s = 1 ->
    Rabs (sample_mean O (sample dev g s) - expval O s) <= tol.

(** A QNode run: the tape is applied to |00> and the observable estimated
    from the device's shots. *)
Definition execute (dev : Device) (g : dev_rng dev) (O : list (list R))
    (ops : list op) : R :=
  sample_mean O (sample dev g (run ops zero_state)).

End Qml.

(** [OPERATOR]: the projector onto |00>. *)
Definition OPERATOR : list (list R) :=
  [[1; 0; 0; 0]; [0; 0; 0; 0]; [0; 0; 0; 0]; [0; 0; 0; 0]]%R.

(** ** What the notebooks call outside themselves *)

(** The wine data, scikit-learn's splitter and classifier, and the value the
    quantum device hands back for a pair of samples. *)
Record Externals : Type := {
  load_wine : dataset;
  splitter : Sklearn.Splitter;
  svc : Sklearn.SVC;
  device_kernel : list R -> list R -> R
}.

(** The local variables of [workflow] once it has run to its end. *)
Record Run : Type := {
  X_train : list (list R);
  X_test : list (list R);
  y_train : list Z;
  y_test : list Z;
  K_matrix_train : Np.ndarray R;
  K_matrix_test : Np.ndarray R;
  y_pred : list Z;
  M_conf : Np.ndarray nat
}.

(** [train_qsvm(K_matrix_train, y_train)]:
    [svc = SVC(); svc.fit(K_matrix_train, y_train); return svc]. *)
Definition train_qsvm (svc : Sklearn.SVC) (K_matrix_train : Np.ndarray R)
    (y_train : list Z) : result (Sklearn.svc_model svc) :=
  Sklearn.svc_fit svc K_matrix_train y_train.

(** [get_metrics(trained_svc, K_matrix_test, y_test)]:
    [y_pred = trained_svc.predict(K_matrix_test);
     return y_pred, confusion_matrix(y_test, y_pred)]. *)
Definition get_metrics (svc : Sklearn.SVC)
    (trained_svc : Sklearn.svc_model svc) (K_matrix_test : Np.ndarray R)
    (y_test : list Z) : result (list Z * Np.ndarray nat) :=
  y_pred <- Sklearn.svc_predict svc trained_svc K_matrix_test ;;
  M <- Sklearn.confusion_matrix y_test y_pred ;;
  Ok (y_pred, M).

(** ** The challenge notebook *)

Module Challenge.

Definition N_TEST : nat := 2.
Definition N_TRAIN : nat := 6.
Definition N_TOT : nat := N_TEST + N_TRAIN.
Definition RANDOM_SEED : Z := 2022.

(** [get_data()]: columns 9 and 10 of the wine features, the third class
    dropped, every column rescaled by [MinMaxScaler((0, 2 * PI))]. *)
Definition get_data (load_wine : dataset)
    : result (list (list R) * list Z) :=
  let '(features, labels) := load_wine in
  let X := map (fun row => firstn 2 (skipn 9 row)) features in
  let y := labels in
  let idx := map (fun l => (l <? 2)%Z) y in
  y <- Np.mask_select idx y ;;
  X <- Np.mask_select idx X ;;
  scaler <- MinMaxScaler.fit (0, 2 * PI)%R X ;;
  Ok (MinMaxScaler.transform scaler X, y).

(** [get_data()] over an arithmetic. *)
Definition get_data_fp {F} (A : Fp.arith F)
    (load_wine : list (list F) * list Z) : result (list (list F) * list Z) :=
  let '(features, labels) := load_wine in
  let X := map (fun row => firstn 2 (skipn 9 row)) features in
  let y := labels in
  let idx := map (fun l => (l <? 2)%Z) y in
  y <- Np.mask_select idx y ;;
  X <- Np.mask_select idx X ;;
  scaler <- MinMaxScalerFp.fit A
              (Fp.zero A, Fp.mul A (Fp.two A) (Fp.pi A)) X ;;
  Ok (MinMaxScalerFp.transform A scaler X, y).

(** [construct_K_matrix(K_values, X1, X2)]:
    [n1 = len(X1); n2 = len(X2); np.array(K_values).reshape((n1, n2))]. *)
Definition construct_K_matrix {A B C} (K_values : list A)
    (X1 : list B) (X2 : list C) : result (Np.ndarray A) :=
  let n1 := length X1 in
  let n2 := length X2 in
  Np.reshape (Np.array K_values) n1 n2.

(** The accumulation loops of [workflow]:
    [K = []; for i in range(n1): for j in range(n2):
       K.append(qkernel_circuit(X1[i], X2[j]))]. *)
Definition kernel_values {S A} (k : S -> S -> A) (n1 n2 : nat)
    (X1 X2 : list S) : result (list A) :=
  for_range n1 (fun i K =>
    for_range n2 (fun j K =>
      x1 <- getitem X1 i ;;
      x2 <- getitem X2 j ;;
      Ok (K ++ [k x1 x2])) K) [].

(** The fragment of [workflow] that builds one kernel matrix: the two loops
    over [range(n1)] and [range(n2)] followed by
    [construct_K_matrix(K_values, X1, X2)].  [workflow] runs it with
    [(N_TRAIN, N_TRAIN)] and with [(N_TEST, N_TRAIN)]. *)
Definition workflow_K_matrix {S A} (k : S -> S -> A) (n1 n2 : nat)
    (X1 X2 : list S) : result (Np.ndarray A) :=
  K_values <- kernel_values k n1 n2 X1 X2 ;;
  construct_K_matrix K_values X1 X2.

(** The tape of [qkernel_circuit(x1, x2)]: the angle embedding of [x1]
    followed by the adjoint of the angle embedding of [x2]. *)
Definition qkernel_tape (x1 x2 : list R) : result (list Qml.op) :=
  o1 <- Qml.AngleEmbedding x1 ;;
  o2 <- Qml.AngleEmbedding x2 ;;
  Ok (o1 ++ Qml.adjoint o2).

(** The expectation value of [OPERATOR] that [qkernel_circuit] estimates. *)
Definition qkernel_expval (x1 x2 : list R) : result R :=
  tape <- qkernel_tape x1 x2 ;;
  Ok (Qml.expval OPERATOR (Qml.run tape Qml.zero_state)).

(** [qkernel_circuit(x1, x2)] on a device with finitely many shots: the
    simulator of the challenge notebook, or whichever IBM backend the
    solution notebook draws. *)
Definition qkernel_circuit (dev : Qml.Device) (g : Qml.dev_rng dev)
    (x1 x2 : list R) : result R :=
  tape <- qkernel_tape x1 x2 ;;
  Ok (Qml.execute dev g OPERATOR tape).

(** [partition_data(X, y)]: a stratified draw of [N_TOT] samples, split
    again into [N_TRAIN] and [N_TEST]; both draws seeded with
    [RANDOM_SEED]. *)
Definition partition_data (sp : Sklearn.Splitter) {A} (X : list A)
    (y : list Z) (g : Sklearn.rng sp)
    : result (list A * list A * list Z * list Z) * Sklearn.rng sp :=
  if length X =? 0 then (Raise ZeroDivisionError, g) else
  let '(r0, g0) :=
    Sklearn.train_test_split sp X y
      (Z.of_nat N_TOT # Pos.of_nat (length X))
      (Sklearn.RS_Int RANDOM_SEED) y g in
  match r0 with
  | Raise e => (Raise e, g0)
  | Ok (_, X0, _, y0) =>
      Sklearn.train_test_split sp X0 y0
        (Z.of_nat N_TEST # Pos.of_nat N_TOT)
        (Sklearn.RS_Int RANDOM_SEED) y0 g0
  end.

(** [workflow()], keeping every local variable. *)
Definition workflow_run (E : Externals) (g : Sklearn.rng (splitter E))
    : result Run :=
  '(X, y) <- get_data (load_wine E) ;;
  '(X_train, X_test, y_train, y_test) <-
     fst (partition_data (splitter E) X y g) ;;
  K_train_values <-
     kernel_values (device_kernel E) N_TRAIN N_TRAIN X_train X_train ;;
  K_test_values <-
     kernel_values (device_kernel E) N_TEST N_TRAIN X_test X_train ;;
  K_matrix_train <- construct_K_matrix K_train_values X_train X_train ;;
  K_matrix_test <- construct_K_matrix K_test_values X_test X_train ;;
  trained_svc <- train_qsvm (svc E) K_matrix_train y_train ;;
  '(y_pred, M_conf) <-
     get_metrics (svc E) trained_svc K_matrix_test y_test ;;
  Ok {| X_train := X_train; X_test := X_test;
        y_train := y_train; y_test := y_test;
        K_matrix_train := K_matrix_train; K_matrix_test := K_matrix_test;
        y_pred := y_pred; M_conf := M_conf |}.

(** [workflow()]: [(X_train, X_test, y_train, y_test), y_pred, M_conf]. *)
Definition workflow (E : Externals) (g : Sklearn.rng (splitter E))
    : result ((list (list R) * list (list R) * list Z * list Z)
              * list Z * Np.ndarray nat) :=
  r <- workflow_run E g ;;
  Ok ((X_train r, X_test r, y_train r, y_test r), y_pred r, M_conf r).

End Challenge.

(** ** The tutorial notebook *)

Module Tutorial.

Definition RANDOM_SEED : Z := 2022.

(** [get_data()]: columns 9 and 10 of the wine features of all three
    classes, every column rescaled by [MinMaxScaler((0, 2 * PI))]. *)
Definition get_data (load_wine : dataset)
    : result (list (list R) * list Z) :=
  let '(features, labels) := load_wine in
  let X := map (fun row => firstn 2 (skipn 9 row)) features in
  let y := labels in
  scaler <- MinMaxScaler.fit (0, 2 * PI)%R X ;;
  Ok (MinMaxScaler.transform scaler X, y).

(** [get_data()] over an arithmetic. *)
Definition get_data_fp {F} (A : Fp.arith F)
    (load_wine : list (list F) * list Z) : result (list (list F) * list Z) :=
  let '(features, labels) := load_wine in
  let X := map (fun row => firstn 2 (skipn 9 row)) features in
  let y := labels in
  scaler <- MinMaxScalerFp.fit A
              (Fp.zero A, Fp.mul A (Fp.two A) (Fp.pi A)) X ;;
  Ok (MinMaxScalerFp.transform A scaler X, y).

(** [qkernel_matrix(X1, X2)]:
    [np.array([[qkernel_circuit(x1, x2) for x2 in X2] for x1 in X1])]. *)
Definition qkernel_matrix {S A} (k : S -> S -> A) (X1 X2 : list S)
    : result (Np.ndarray A) :=
  Np.array2 (map (fun x1 => map (k x1) X2) X1).

(** The tape of [qkernel_circuit(x1, x2)]: the QAOA embedding of [x1]
    followed by the adjoint of the QAOA embedding of [x2], both with the
    weights [CIRCUIT_PARAMS], of shape (1, 3). *)
Definition qkernel_tape (CIRCUIT_PARAMS : R * R * R) (x1 x2 : list R)
    : result (list Qml.op) :=
  o1 <- Qml.QAOAEmbedding x1 [CIRCUIT_PARAMS] ;;
  o2 <- Qml.QAOAEmbedding x2 [CIRCUIT_PARAMS] ;;
  Ok (o1 ++ Qml.adjoint o2).

(** The expectation value of [OPERATOR] that [qkernel_circuit] estimates. *)
Definition qkernel_expval (CIRCUIT_PARAMS : R * R * R) (x1 x2 : list R)
    : result R :=
  tape <- qkernel_tape CIRCUIT_PARAMS x1 x2 ;;
  Ok (Qml.expval OPERATOR (Qml.run tape Qml.zero_state)).

(** [qkernel_circuit(x1, x2)] on [DEVICE], which takes 1000 shots. *)
Definition qkernel_circuit (dev : Qml.Device) (g : Qml.dev_rng dev)
    (CIRCUIT_PARAMS : R * R * R) (x1 x2 : list R) : result R :=
  tape <- qkernel_tape CIRCUIT_PARAMS x1 x2 ;;
  Ok (Qml.execute dev g OPERATOR tape).

(** [partition_data(X, y)]: one stratified split, a quarter of the samples
    for testing, seeded with [RANDOM_SEED]. *)
Definition partition_data (sp : Sklearn.Splitter) {A} (X : list A)
    (y : list Z) (g : Sklearn.rng sp)
    : result (list A * list A * list Z * list Z) * Sklearn.rng sp :=
  Sklearn.train_test_split sp X y (1 # 4) (Sklearn.RS_Int RANDOM_SEED) y g.

(** [workflow()], keeping every local variable. *)
Definition workflow_run (E : Externals) (g : Sklearn.rng (splitter E))
    : result Run :=
  '(X, y) <- get_data (load_wine E) ;;
  '(X_train, X_test, y_train, y_test) <-
     fst (partition_data (splitter E) X y g) ;;
  K_matrix_train <- qkernel_matrix (device_kernel E) X_train X_train ;;
  K_matrix_test <- qkernel_matrix (device_kernel E) X_test X_train ;;
  trained_svc <- train_qsvm (svc E) K_matrix_train y_train ;;
  '(y_pred, M_conf) <-
     get_metrics (svc E) trained_svc K_matrix_test y_test ;;
  Ok {| X_train := X_train; X_test := X_test;
        y_train := y_train; y_test := y_test;
        K_matrix_train := K_matrix_train; K_matrix_test := K_matrix_test;
        y_pred := y_pred; M_conf := M_conf |}.

(** [workflow()]: [(X_train, X_test, y_train, y_test), y_pred, M_conf]. *)
Definition workflow (E : Externals) (g : Sklearn.rng (splitter E))
    : result ((list (list R) * list (list R) * list Z * list Z)
              * list Z * Np.ndarray nat) :=
  r <- workflow_run E g ;;
  Ok ((X_train r, X_test r, y_train r, y_test r), y_pred r, M_conf r).

End Tutorial.

(** ** Vocabulary of the properties *)

(** A computation on the global generator is seed-deterministic when its
    result is the same from every generator state and it leaves the state
    as it found it: calling it again returns the same result. *)
Definition seed_deterministic {G A : Type} (f : G -> result A * G) : Prop :=
  forall g1 g2, fst (f g1) = fst (f g2) /\ snd (f g1) = g1.

(** The four arrays returned by a split are the rows and labels at the
    index lists [train] and [test]. *)
Definition is_split {A} (X : list A) (y : list Z) (train test : list nat)
    (out : list A * list A * list Z * list Z) : Prop :=
  let '(X_train, X_test, y_train, y_test) := out in
  Sklearn.take X train = Ok X_train /\ Sklearn.take X test = Ok X_test /\
  Sklearn.take y train = Ok y_train /\ Sklearn.take y test = Ok y_test.

(** Class shares of a part of a labelled sample: class [c] holds, within
    [k] samples, the share of the part that it holds of the whole. *)
Definition share_within (k : Z) (y part : list Z) : Prop :=
  forall c : Z,
    (Z.abs (Z.of_nat (Sklearn.count c part) * Z.of_nat (length y)
            - Z.of_nat (length part) * Z.of_nat (Sklearn.count c y))
     < k * Z.of_nat (length y))%Z.

(** The same with a bound of [num / den] samples. *)
Definition share_within_q (num den : Z) (y part : list Z) : Prop :=
  forall c : Z,
    (den * Z.abs (Z.of_nat (Sklearn.count c part) * Z.of_nat (length y)
                  - Z.of_nat (length part) * Z.of_nat (Sklearn.count c y))
     < num * Z.of_nat (length y))%Z.

(** ** Worked data and stand-ins for the libraries *)

(** A splitter whose generator state is a number and whose draw starts at
    that number. *)
Definition counting_splitter : Sklearn.Splitter :=
  {| Sklearn.rng := nat;
     Sklearn.seed_rng := fun seed => Z.to_nat seed;
     Sklearn.stratified_shuffle_split := fun g _ n_train n_test =>
       (Ok (seq g n_train, seq (g + n_train) n_test), S g) |}.

(** A splitter for worked examples: it deals the first [n_train] samples to
    the training part and the next [n_test] to the test part, and refuses
    the labels for which that deal is not a stratified one. *)
Definition checked_splitter : Sklearn.Splitter :=
  {| Sklearn.rng := unit;
     Sklearn.seed_rng := fun _ => tt;
     Sklearn.stratified_shuffle_split := fun g y n_train n_test =>
       let train := seq 0 n_train in
       let test := seq n_train n_test in
       (if Sklearn.split_okb y n_train n_test train test
        then Ok (train, test) else Raise ValueError, g) |}.

(** A classifier that answers the first label it was fitted on. *)
Definition first_label_svc : Sklearn.SVC :=
  {| Sklearn.svc_model := Z;
     Sklearn.svc_fit := fun _ y =>
       match y with
       | [] => Raise ValueError
       | l :: _ => Ok l
       end;
     Sklearn.svc_predict := fun m K => Ok (repeat m (Np.len K)) |}.

(** Twenty-four wines, the three classes in turn, all thirteen features of
    a wine at 0, 1 or 5 according to its class. *)
Definition cycle_wines : dataset :=
  (flat_map (fun _ => [repeat 0%R 13; repeat 1%R 13; repeat 5%R 13]) (seq 0 8),
   flat_map (fun _ => [0; 1; 2]%Z) (seq 0 8)).

(** A run on [cycle_wines] in which the device answers 1 for every pair. *)
Definition worked_externals : Externals :=
  {| load_wine := cycle_wines;
     splitter := checked_splitter;
     svc := first_label_svc;
     device_kernel := fun _ _ => 1%R |}.




Section RealData.
Local Open Scope R_scope.

(** One entry of a transformed row, in terms of its column's extremes. *)
Definition scaled (lo hi mi mx x : R) : R :=
  x * ((hi - lo) / MinMaxScaler.handle_zeros_in_scale (mx - mi))
  + (lo - mi * ((hi - lo) / MinMaxScaler.handle_zeros_in_scale (mx - mi))).

(** Three wines, one of each class, all thirteen features at 0, 1 and 5. *)
Definition three_wines : dataset :=
  ([repeat 0 13; repeat 1 13; repeat 5 13], [0%Z; 1%Z; 2%Z]).

(** A device that reports, on every shot, the first basis state to which
    the prepared state gives a non-zero probability. *)
Definition first_possible (s : Qml.state) : Qml.outcome :=
  if Req_dec_T (Qml.probability s (false, false)) 0 then
    if Req_dec_T (Qml.probability s (false, true)) 0 then
      if Req_dec_T (Qml.probability s (true, false)) 0 then (true, true)
      else (true, false)
    else (false, true)
  else (false, false).

Definition steady_device : Qml.Device :=
  {| Qml.dev_rng := unit;
     Qml.shots := 1000%nat;
     Qml.sample := fun _ s => repeat (first_possible s) 1000%nat |}.

(** The first basis state other than |00> to which the prepared state gives
    a non-zero probability, |11> if there is none. *)
Definition first_other (s : Qml.state) : Qml.outcome :=
  if Req_dec_T (Qml.probability s (false, true)) 0 then
    if Req_dec_T (Qml.probability s (true, false)) 0 then (true, true)
    else (true, false)
  else (false, true).

(** A device of 1000 shots that reports |00> as often as its probability
    asks for, rounded down to a whole number of shots, and [first_other] on
    the remaining shots. *)
Definition frequency_device : Qml.Device :=
  {| Qml.dev_rng := unit;
     Qml.shots := 1000%nat;
     Qml.sample := fun _ s =>
       let k := Z.to_nat (Int_part (Qml.probability s (false, false) * 1000)) in
       repeat (false, false) (Nat.min k 1000)
       ++ repeat (first_other s) (1000 - k) |}.

End RealData.

(** ** The cell that processes and displays the results *)

Module Display.

(** numpy's broadcasting of two rank-1 operands: operands of equal length
    are combined entry by entry, an operand of length 1 is stretched, and any
    other pair "could not be broadcast together", a ValueError. *)
Definition broadcast2 {A B C} (f : A -> B -> C) (a : list A) (b : list B)
    : result (list C) :=
  if length a =? length b then Ok (Np.zip_with f a b) else
  match a, b with
  | [x], _ => Ok (map (f x) b)
  | _, [z] => Ok (map (fun x => f x z) a)
  | _, _ => Raise ValueError
  end.

(** [np.equal(a, b)]. *)
Definition equal (a b : list Z) : result (list bool) := broadcast2 Z.eqb a b.

(** [np.logical_and(a, b)]. *)
Definition logical_and (a b : list bool) : result (list bool) :=
  broadcast2 andb a b.

(** [~idx]. *)
Definition invert (idx : list bool) : list bool := map negb idx.

(** [y == i] for a label vector [y] and the loop index [i]. *)
Definition eq_scalar (y : list Z) (i : nat) : list bool :=
  map (fun l => (l =? Z.of_nat i)%Z) y.

(** [X[:, c]] on the rows of a rank-2 array. *)
Fixpoint column (X : list (list R)) (c : nat) : result (list R) :=
  match X with
  | [] => Ok []
  | row :: X' =>
      x <- getitem row c ;;
      r <- column X' c ;;
      Ok (x :: r)
  end.

(** The markers of the three kinds of [plt.scatter] calls: the default disc
    for training samples, ['^'] for test samples predicted as labelled,
    ['x'] for the others. *)
Inductive marker : Type := Disc | Triangle | Cross.

(** One [plt.scatter] call: its marker, the index into [colors] and the
    coordinates. *)
Record collection : Type := {
  mark : marker;
  colour : nat;
  xs : list R;
  ys : list R
}.

(** [plt.scatter(x, y, ...)] adds a collection to the figure; "x and y must
    be the same size" is a ValueError. *)
Definition scatter (mk : marker) (c : nat) (x y : list R)
    (fig : list collection) : result (list collection) :=
  if length x =? length y
  then Ok (fig ++ [{| mark := mk; colour := c; xs := x; ys := y |}])
  else Raise ValueError.

(** The scatter plot of the cell, for [n] classes: [range(2)] in the
    challenge, [range(3)] in the tutorial, where [colors] and [names] hold
    one entry per class.  A collection records the index [i] of its
    colour. *)
Definition display (n : nat)
    (data : list (list R) * list (list R) * list Z * list Z)
    (y_pred : list Z) : result (list collection) :=
  let '(X_train, X_test, y_train, y_test) := data in
  fig <- for_range n (fun i fig =>
           c0 <- column X_train 0 ;;
           x <- Np.mask_select (eq_scalar y_train i) c0 ;;
           c1 <- column X_train 1 ;;
           y <- Np.mask_select (eq_scalar y_train i) c1 ;;
           scatter Disc i x y fig) [] ;;
  idx <- equal y_pred y_test ;;
  for_range n (fun i fig =>
    c0 <- column X_test 0 ;;
    m <- logical_and (eq_scalar y_test i) idx ;;
    x <- Np.mask_select m c0 ;;
    c1 <- column X_test 1 ;;
    m <- logical_and (eq_scalar y_test i) idx ;;
    y <- Np.mask_select m c1 ;;
    fig <- scatter Triangle i x y fig ;;
    c0 <- column X_test 0 ;;
    m <- logical_and (eq_scalar y_test i) (invert idx) ;;
    x <- Np.mask_select m c0 ;;
    c1 <- column X_test 1 ;;
    m <- logical_and (eq_scalar y_test i) (invert idx) ;;
    y <- Np.mask_select m c1 ;;
    scatter Cross i x y fig) fig.

End Display.

(** The rows of [X] whose tag in [tags] satisfies [p], in order.  The tag
    of a training sample is its label, that of a test sample its label and
    its prediction. *)
Definition rows_where {T} (p : T -> bool) (X : list (list R))
    (tags : list T) : list (list R) :=
  map fst (filter (fun t => p (snd t)) (combine X tags)).

(** The collection drawn from the rows [rows]. *)
Definition drawn (mk : Display.marker) (c : nat) (rows : list (list R))
    : Display.collection :=
  {| Display.mark := mk; Display.colour := c;
     Display.xs := map (fun row => nth 0 row 0%R) rows;
     Display.ys := map (fun row => nth 1 row 0%R) rows |}.

Definition marker_eqb (a b : Display.marker) : bool :=
  match a, b with
  | Display.Disc, Display.Disc => true
  | Display.Triangle, Display.Triangle => true
  | Display.Cross, Display.Cross => true
  | _, _ => false
  end.

(** The number of points a figure shows with marker [mk]. *)
Definition points_marked (mk : Display.marker)
    (fig : list Display.collection) : nat :=
  list_sum (map (fun c => length (Display.xs c))
              (filter (fun c => marker_eqb (Display.mark c) mk) fig)).

(** The figure of the cell, collection by collection. *)
Definition figure_of (n : nat) (X_train X_test : list (list R))
    (y_train y_test y_pred : list Z) : list Display.collection :=
  flat_map (fun i =>
      [drawn Display.Disc i
         (rows_where (fun l => (l =? Z.of_nat i)%Z) X_train y_train)])
    (seq 0 n)
  ++ flat_map (fun i =>
      [drawn Display.Triangle i
         (rows_where (fun t => (fst t =? Z.of_nat i)%Z
                               && (snd t =? fst t)%Z)
            X_test (combine y_test y_pred));
       drawn Display.Cross i
         (rows_where (fun t => (fst t =? Z.of_nat i)%Z
                               && negb (snd t =? fst t)%Z)
            X_test (combine y_test y_pred))])
    (seq 0 n).

Section FloatData.
Import PrimFloat.
Local Open Scope float_scope.



End FloatData.

(** ** More vocabulary *)




(** The state with every amplitude negated: the same state up to a global
    phase. *)
Definition state_neg (s : Qml.state) : Qml.state :=
  Qml.mkState (Qml.Copp (Qml.a00 s)) (Qml.Copp (Qml.a01 s))
              (Qml.Copp (Qml.a10 s)) (Qml.Copp (Qml.a11 s)).

(** [np.sum(a)] of an array of counts. *)
Definition array_sum (a : Np.ndarray nat) : nat := list_sum (Np.ravel a).

(** [np.trace(a)] of a rank-2 array of counts: the sum of the entries
    [a[i, i]]. *)
Definition array_trace (a : Np.ndarray nat) : nat :=
  list_sum (map (fun i => match Np.get2 a i i with
                          | Some v => v
                          | None => 0
                          end) (seq 0 (Np.len a))).

(** The number of test samples predicted as labelled. *)
Definition correct_predictions (y_true y_pred : list Z) : nat :=
  length (filter (fun p => (fst p =? snd p)%Z) (combine y_true y_pred)).

(** * Properties *)

(** ** The library models on the libraries' documented examples *)

(** [np.arange(6).reshape((2, 3))]. *)
Example reshape_arange :
  Np.reshape (Np.array [0; 1; 2; 3; 4; 5]) 2 3
  = Ok (Np.Arr2 3 [[0; 1; 2]; [3; 4; 5]]).
Proof. reflexivity. Qed.

(** [np.arange(6).reshape((4, 2))] raises ValueError. *)
Example reshape_wrong_size :
  Np.reshape (Np.array [0; 1; 2; 3; 4; 5]) 4 2 = Raise ValueError.
Proof. reflexivity. Qed.

(** [confusion_matrix([2, 0, 2, 2, 0, 1], [0, 0, 2, 2, 0, 2])]. *)
Example confusion_matrix_three_classes :
  Sklearn.confusion_matrix [2; 0; 2; 2; 0; 1]%Z [0; 0; 2; 2; 0; 2]%Z
  = Ok (Np.Arr2 3 [[2; 0; 0]; [0; 0; 1]; [1; 0; 2]]).
Proof. reflexivity. Qed.

(** The split sizes of the two notebooks on the wine data: 8 of the 130
    samples of the first two classes, then 6 and 2 of those 8; 133 and 45
    of all 178 samples. *)
Example split_sizes :
  Sklearn.validate_shuffle_split 130
    (Z.of_nat Challenge.N_TOT # Pos.of_nat 130) = Ok (122, 8) /\
  Sklearn.validate_shuffle_split 8
    (Z.of_nat Challenge.N_TEST # Pos.of_nat Challenge.N_TOT) = Ok (6, 2) /\
  Sklearn.validate_shuffle_split 178 (1 # 4) = Ok (133, 45).
Proof. repeat split; reflexivity. Qed.

(** [MinMaxScaler().fit_transform([[-1, 2], [-0.5, 6], [0, 10], [1, 18]])]. *)
Example minmax_scaler_unit_range :
  (sc <- MinMaxScaler.fit (0, 1)%R
           [[-1; 2]; [-1 / 2; 6]; [0; 10]; [1; 18]]%R ;;
   Ok (MinMaxScaler.transform sc
         [[-1; 2]; [-1 / 2; 6]; [0; 10]; [1; 18]]%R))
  = Ok [[0; 0]; [1 / 4; 1 / 4]; [1 / 2; 1 / 2]; [1; 1]]%R.
Proof.
  cbv [MinMaxScaler.fit MinMaxScaler.transform MinMaxScaler.col_reduce].
  cbn -[Rmin Rmax Rminus Rmult Rplus Rdiv Ropp IZR
        MinMaxScaler.handle_zeros_in_scale].
  repeat match goal with
    | |- context [Rmin ?a ?b] =>
        first [rewrite (Rmin_left a b) by lra
              |rewrite (Rmin_right a b) by lra]
    | |- context [Rmax ?a ?b] =>
        first [rewrite (Rmax_left a b) by lra
              |rewrite (Rmax_right a b) by lra]
    end.
  unfold MinMaxScaler.handle_zeros_in_scale, MinMaxScaler.eps.
  destruct (Rlt_dec (1 - -1) _); [lra|].
  destruct (Rlt_dec (18 - 2) _); [lra|].
  repeat (f_equal; try (field; lra)).
Qed.

(** ** Row-major reshape *)

Section Reshape.
Context {A : Type}.

Lemma chunks_length (n1 n2 : nat) (l : list A) :
  length (Np.chunks n1 n2 l) = n1.
Proof.
  revert l; induction n1 as [|k IH]; intros l; simpl; [reflexivity|].
  now rewrite IH.
Qed.

Lemma chunks_rows (n1 n2 : nat) (l : list A) :
  length l = n1 * n2 ->
  Forall (fun r => length r = n2) (Np.chunks n1 n2 l).
Proof.
  revert l; induction n1 as [|k IH]; intros l Hl; simpl; constructor.
  - rewrite length_firstn. simpl in Hl. lia.
  - apply IH. rewrite length_skipn. simpl in Hl. lia.
Qed.

Lemma chunks_nth (n1 n2 : nat) (l : list A) (i j : nat) :
  i < n1 -> j < n2 ->
  match nth_error (Np.chunks n1 n2 l) i with
  | Some r => nth_error r j
  | None => None
  end = nth_error l (i * n2 + j).
Proof.
  revert l i; induction n1 as [|k IH]; intros l i Hi Hj; [lia|].
  destruct i as [|i]; simpl.
  - now rewrite nth_error_firstn, (proj2 (Nat.ltb_lt j n2) Hj).
  - rewrite IH by lia. rewrite nth_error_skipn. f_equal. lia.
Qed.

Lemma chunks_concat (n1 n2 : nat) (l : list A) :
  length l = n1 * n2 -> concat (Np.chunks n1 n2 l) = l.
Proof.
  revert l; induction n1 as [|k IH]; intros l Hl; simpl in *.
  - now destruct l.
  - rewrite IH by (rewrite length_skipn; lia). apply firstn_skipn.
Qed.

End Reshape.

(** C1.  When the flat sequence holds [len(X1) * len(X2)] values,
    [construct_K_matrix] returns an array of shape [(len(X1), len(X2))]
    whose entry [(i, j)] is the value at flat index [i * len(X2) + j]. *)
Theorem construct_K_matrix_row_major :
  forall (A B C : Type) (K_values : list A) (X1 : list B) (X2 : list C),
    length K_values = length X1 * length X2 ->
    exists M,
      Challenge.construct_K_matrix K_values X1 X2 = Ok M /\
      Np.shape M = [length X1; length X2] /\
      Np.wf M /\
      forall i j, i < length X1 -> j < length X2 ->
        Np.get2 M i j = nth_error K_values (i * length X2 + j) /\
        Np.get2 M i j <> None.
Proof.
  intros A B C K X1 X2 HK.
  unfold Challenge.construct_K_matrix, Np.reshape, Np.array; simpl.
  rewrite (proj2 (Nat.eqb_eq _ _) HK).
  eexists; split; [reflexivity|]; simpl.
  rewrite chunks_length.
  repeat split.
  - now apply chunks_rows.
  - now apply chunks_nth.
  - rewrite chunks_nth by assumption.
    apply nth_error_Some. nia.
Qed.

Lemma construct_K_matrix_row_major_witness :
  exists M,
    Challenge.construct_K_matrix [10; 11; 12; 20; 21; 22] [true; false]
      [tt; tt; tt] = Ok M /\
    Np.shape M = [2; 3] /\
    Np.wf M /\
    forall i j, i < 2 -> j < 3 ->
      Np.get2 M i j = nth_error [10; 11; 12; 20; 21; 22] (i * 3 + j) /\
      Np.get2 M i j <> None.
Proof.
  apply (construct_K_matrix_row_major nat bool unit
           [10; 11; 12; 20; 21; 22] [true; false] [tt; tt; tt]).
  reflexivity.
Defined.

(** ** The accumulation loops *)

Lemma for_range_S {S : Type} (n : nat) (body : nat -> S -> result S) (s : S) :
  for_range (Datatypes.S n) body s = bind (for_range n body s) (body n).
Proof.
  unfold for_range. rewrite seq_S, fold_left_app. reflexivity.
Qed.

Lemma firstn_snoc {A : Type} (l : list A) (n : nat) (x : A) :
  nth_error l n = Some x -> firstn (S n) l = firstn n l ++ [x].
Proof.
  revert n; induction l as [|a l IH]; intros [|n] H; simpl in *;
    try discriminate.
  - now inversion H.
  - f_equal. now apply IH.
Qed.

Section Loops.
Context {T A : Type} (k : T -> T -> A).

Lemma inner_loop_values (X1 X2 : list T) (i : nat) (x1 : T) (n2 : nat)
    (K : list A) :
  nth_error X1 i = Some x1 ->
  n2 <= length X2 ->
  for_range n2 (fun j K =>
      x1 <- getitem X1 i ;;
      x2 <- getitem X2 j ;;
      Ok (K ++ [k x1 x2])) K
  = Ok (K ++ map (k x1) (firstn n2 X2)).
Proof.
  intros Hi. induction n2 as [|n IH]; intros Hn.
  - simpl. now rewrite app_nil_r.
  - rewrite for_range_S, IH by lia.
    destruct (nth_error X2 n) as [x2|] eqn:Hx2.
    + rewrite (firstn_snoc _ _ _ Hx2), map_app, app_assoc.
      unfold getitem. rewrite Hi, Hx2. reflexivity.
    + apply nth_error_None in Hx2. lia.
Qed.

Lemma kernel_values_prefix (X1 X2 : list T) (n1 : nat) :
  n1 <= length X1 ->
  Challenge.kernel_values k n1 (length X2) X1 X2
  = Ok (concat (map (fun x1 => map (k x1) X2) (firstn n1 X1))).
Proof.
  unfold Challenge.kernel_values.
  induction n1 as [|n IH]; intros Hn; [reflexivity|].
  rewrite for_range_S, IH by lia.
  destruct (nth_error X1 n) as [x1|] eqn:Hx1.
  - rewrite (firstn_snoc _ _ _ Hx1), map_app, concat_app.
    cbn [bind map concat].
    rewrite (inner_loop_values X1 X2 _ _ _ _ Hx1) by lia.
    now rewrite firstn_all, app_nil_r.
  - apply nth_error_None in Hx1. lia.
Qed.

(** Run over the whole of both sets, the loops list [k x1 x2] in row-major
    order. *)
Lemma kernel_values_row_major (X1 X2 : list T) :
  Challenge.kernel_values k (length X1) (length X2) X1 X2
  = Ok (concat (map (fun x1 => map (k x1) X2) X1)).
Proof.
  rewrite kernel_values_prefix by lia. now rewrite firstn_all.
Qed.

End Loops.

Lemma chunks_of_concat {A : Type} (n2 : nat) (rows : list (list A)) :
  Forall (fun r => length r = n2) rows ->
  Np.chunks (length rows) n2 (concat rows) = rows.
Proof.
  induction 1 as [|r rows Hr _ IH]; simpl; [reflexivity|].
  rewrite firstn_app, skipn_app, Hr, Nat.sub_diag, firstn_all2, skipn_all2
    by lia.
  simpl. rewrite app_nil_r. now rewrite IH.
Qed.

Lemma length_concat_rect {A : Type} (n2 : nat) (rows : list (list A)) :
  Forall (fun r => length r = n2) rows ->
  length (concat rows) = length rows * n2.
Proof.
  induction 1 as [|r rows Hr _ IH]; simpl; [reflexivity|].
  rewrite length_app. lia.
Qed.

(** ** What the assembler checks and what it does not *)

(** C5, as stated, fails: a sequence whose length is not [len(X1) * len(X2)]
    is rejected by [reshape] with a ValueError; no matrix is returned. *)
Lemma construct_K_matrix_length_mismatch_raises :
  length [1; 2; 3] <> length [tt; tt] * length [tt; tt] /\
  Challenge.construct_K_matrix [1; 2; 3] [tt; tt] [tt; tt] = Raise ValueError /\
  ~ (exists M,
       Challenge.construct_K_matrix [1; 2; 3] [tt; tt] [tt; tt] = Ok M).
Proof.
  split; [simpl; lia|]. split; [reflexivity|].
  intros [M H]. discriminate H.
Qed.

(** C5, amended.  [construct_K_matrix] checks the length of the flat sequence
    and nothing else: a length other than [len(X1) * len(X2)] raises
    ValueError, and any reordering [K'] of a sequence [K] of the right length
    is accepted, laid out by flat index, so that every position where [K']
    departs from [K] shows up as a departing matrix entry. *)
Theorem construct_K_matrix_checks_length_only :
  forall (A B C : Type) (X1 : list B) (X2 : list C),
    (forall K' : list A,
        length K' <> length X1 * length X2 ->
        Challenge.construct_K_matrix K' X1 X2 = Raise ValueError) /\
    (forall K K' : list A,
        length K = length X1 * length X2 ->
        Permutation K K' ->
        exists M',
          Challenge.construct_K_matrix K' X1 X2 = Ok M' /\
          Np.shape M' = [length X1; length X2] /\
          Np.ravel M' = K' /\
          forall p, p < length X1 * length X2 ->
            nth_error K' p <> nth_error K p ->
            Np.get2 M' (p / length X2) (p mod length X2) = nth_error K' p /\
            Np.get2 M' (p / length X2) (p mod length X2) <> nth_error K p).
Proof.
  intros A B C X1 X2. split.
  - intros K' Hlen.
    unfold Challenge.construct_K_matrix, Np.reshape, Np.array; simpl.
    now rewrite (proj2 (Nat.eqb_neq _ _) Hlen).
  - intros K K' Hlen Hperm.
    assert (Hlen' : length K' = length X1 * length X2)
      by (rewrite <- Hlen; symmetry; now apply Permutation_length).
    unfold Challenge.construct_K_matrix, Np.reshape, Np.array; simpl.
    rewrite (proj2 (Nat.eqb_eq _ _) Hlen').
    eexists; split; [reflexivity|]; simpl.
    rewrite chunks_length, chunks_concat by assumption.
    repeat split.
    + set (n2 := length X2) in *.
      assert (Hn2 : n2 <> 0) by nia.
      rewrite chunks_nth.
      * f_equal. rewrite (Nat.div_mod_eq p n2) at 3. lia.
      * apply Nat.Div0.div_lt_upper_bound. lia.
      * now apply Nat.mod_upper_bound.
    + set (n2 := length X2) in *.
      assert (Hn2 : n2 <> 0) by nia.
      rewrite chunks_nth.
      * replace (p / n2 * n2 + p mod n2) with p
          by (rewrite (Nat.div_mod_eq p n2) at 1; lia).
        assumption.
      * apply Nat.Div0.div_lt_upper_bound. lia.
      * now apply Nat.mod_upper_bound.
Qed.

Lemma construct_K_matrix_checks_length_only_witness :
  exists M',
    Challenge.construct_K_matrix [2; 1; 3; 4] [tt; tt] [tt; tt] = Ok M' /\
    Np.shape M' = [2; 2] /\
    Np.ravel M' = [2; 1; 3; 4] /\
    forall p, p < 2 * 2 ->
      nth_error [2; 1; 3; 4] p <> nth_error [1; 2; 3; 4] p ->
      Np.get2 M' (p / 2) (p mod 2) = nth_error [2; 1; 3; 4] p /\
      Np.get2 M' (p / 2) (p mod 2) <> nth_error [1; 2; 3; 4] p.
Proof.
  apply (proj2 (construct_K_matrix_checks_length_only nat unit unit
                  [tt; tt] [tt; tt])
           [1; 2; 3; 4] [2; 1; 3; 4]).
  - reflexivity.
  - apply perm_swap.
Defined.

(** ** The two kernel-matrix constructions *)

(** C9, as stated, fails on an empty first sample set: the comprehension of
    the tutorial yields [np.array([])], of shape (0,), where the challenge
    reshapes the empty sequence to shape (0, len(X2)). *)
Lemma kernel_matrix_variants_differ_on_empty :
  Tutorial.qkernel_matrix Nat.add [] [7] = Ok (Np.Arr1 []) /\
  Challenge.workflow_K_matrix Nat.add (length (@nil nat)) (length [7]) [] [7]
    = Ok (Np.Arr2 1 []) /\
  Tutorial.qkernel_matrix Nat.add [] [7] <>
  Challenge.workflow_K_matrix Nat.add (length (@nil nat)) (length [7]) [] [7].
Proof.
  repeat split. intros H. discriminate H.
Qed.

(** C9, amended.  For every kernel function and every non-empty first sample
    set, the nested comprehension of the tutorial and the loops followed by
    [construct_K_matrix] of the challenge return the same array, of shape
    [(len(X1), len(X2))], holding [k X1[i] X2[j]] at [(i, j)]. *)
Theorem kernel_matrix_variants_agree :
  forall (T A : Type) (k : T -> T -> A) (X1 X2 : list T),
    X1 <> [] ->
    Tutorial.qkernel_matrix k X1 X2 =
    Challenge.workflow_K_matrix k (length X1) (length X2) X1 X2 /\
    exists M,
      Tutorial.qkernel_matrix k X1 X2 = Ok M /\
      Np.shape M = [length X1; length X2] /\
      forall i j x1 x2,
        nth_error X1 i = Some x1 -> nth_error X2 j = Some x2 ->
        Np.get2 M i j = Some (k x1 x2).
Proof.
  intros T A k X1 X2 Hne.
  set (rows := map (fun x1 => map (k x1) X2) X1).
  assert (Hrows : Forall (fun r => length r = length X2) rows).
  { apply Forall_forall. intros r Hr. apply in_map_iff in Hr.
    destruct Hr as [x1 [<- _]]. apply length_map. }
  assert (Htut : Tutorial.qkernel_matrix k X1 X2
                 = Ok (Np.Arr2 (length X2) rows)).
  { unfold Tutorial.qkernel_matrix, Np.array2. fold rows.
    destruct rows as [|r rows'] eqn:Erows.
    - destruct X1; [contradiction|discriminate].
    - assert (Hr : length r = length X2) by now inversion Hrows.
      rewrite Hr.
      assert (Hall : forallb (fun r' => length r' =? length X2) (r :: rows')
                     = true).
      { apply forallb_forall. intros r' Hr'. apply Nat.eqb_eq.
        rewrite Forall_forall in Hrows. now apply Hrows. }
      now rewrite Hall. }
  split.
  - rewrite Htut. unfold Challenge.workflow_K_matrix.
    rewrite kernel_values_row_major. fold rows. cbn [bind].
    unfold Challenge.construct_K_matrix, Np.reshape, Np.array.
    cbn [Np.ravel].
    assert (Hn1 : length rows = length X1) by apply length_map.
    rewrite (length_concat_rect _ _ Hrows), Hn1, Nat.eqb_refl.
    rewrite <- Hn1, (chunks_of_concat _ _ Hrows). reflexivity.
  - exists (Np.Arr2 (length X2) rows). split; [exact Htut|]. split.
    + simpl. unfold rows. now rewrite length_map.
    + intros i j x1 x2 Hi Hj. simpl. unfold rows.
      rewrite nth_error_map, Hi. simpl.
      now rewrite nth_error_map, Hj.
Qed.

Lemma kernel_matrix_variants_agree_witness :
  Tutorial.qkernel_matrix Nat.mul [1; 2] [3; 4; 5] =
  Challenge.workflow_K_matrix Nat.mul 2 3 [1; 2] [3; 4; 5] /\
  exists M,
    Tutorial.qkernel_matrix Nat.mul [1; 2] [3; 4; 5] = Ok M /\
    Np.shape M = [2; 3] /\
    forall i j x1 x2,
      nth_error [1; 2] i = Some x1 -> nth_error [3; 4; 5] j = Some x2 ->
      Np.get2 M i j = Some (x1 * x2).
Proof.
  apply (kernel_matrix_variants_agree nat nat Nat.mul [1; 2] [3; 4; 5]).
  discriminate.
Defined.

(** ** Column-wise scaling *)


Lemma length_zip_with {A B C} (f : A -> B -> C) (l1 : list A) (l2 : list B) :
  length (Np.zip_with f l1 l2) = Nat.min (length l1) (length l2).
Proof.
  revert l2; induction l1 as [|a l1 IH]; intros [|b l2]; simpl;
    try reflexivity.
  now rewrite IH.
Qed.

Section ColReduce.
Variable f : R -> R -> R.
Variable rel : R -> R -> Prop.
Hypothesis rel_refl : forall a, rel a a.
Hypothesis rel_trans : forall a b c, rel a b -> rel b c -> rel a c.
Hypothesis rel_l : forall a b, rel (f a b) a.
Hypothesis rel_r : forall a b, rel (f a b) b.
Hypothesis f_select : forall a b, f a b = a \/ f a b = b.





Lemma col_reduce_length (X : list (list R)) (c : nat) :
  X <> [] ->
  Forall (fun r => length r = c) X ->
  length (MinMaxScaler.col_reduce f X) = c.
Proof.
  destruct X as [|r rs]; [contradiction|]. intros _ H. simpl.
  pose proof (Forall_inv H) as Hr. pose proof (Forall_inv_tail H) as Hrs.
  simpl in Hr. clear H. revert r Hr. induction Hrs as [|r' rs Hr' _ IH]; intros r Hr; simpl.
  - assumption.
  - apply IH. rewrite length_zip_with, Hr, Hr'. apply Nat.min_id.
Qed.

End ColReduce.

Section Scaling.
Local Open Scope R_scope.
#[local] Arguments MinMaxScaler.col_reduce : simpl never.



Lemma scaled_min (lo hi mi mx : R) : scaled lo hi mi mx mi = lo.
Proof. unfold scaled. ring. Qed.



Lemma fit_transform_shape (lo hi : R) (X : list (list R))
    (sc : MinMaxScaler.t) (c : nat) :
  MinMaxScaler.fit (lo, hi) X = Ok sc ->
  Forall (fun r => length r = c) X ->
  length (MinMaxScaler.transform sc X) = length X /\
  Forall (fun r => length r = c) (MinMaxScaler.transform sc X).
Proof.
  intros Hfit Hrect. split; [apply length_map|].
  unfold MinMaxScaler.fit in Hfit. destruct X as [|r rs]; [discriminate|].
  destruct (length r =? 0)%nat; [discriminate|].
  inversion Hfit; subst sc; clear Hfit.
  assert (Hne : r :: rs <> []) by discriminate.
  pose proof (@col_reduce_length Rmin (r :: rs) c Hne Hrect) as Lmin.
  pose proof (@col_reduce_length Rmax (r :: rs) c Hne Hrect) as Lmax.
  apply Forall_forall. intros row' Hrow'.
  apply in_map_iff in Hrow'. destruct Hrow' as [row [<- Hrow]].
  rewrite Forall_forall in Hrect. pose proof (Hrect _ Hrow) as Lrow.
  cbn [MinMaxScaler.scale_ MinMaxScaler.min_].
  rewrite !length_zip_with, length_map, !length_zip_with, Lmin, Lmax, Lrow.
  lia.
Qed.

End Scaling.

(** ** Boolean masks *)

Lemma mask_length {A} (idx : list bool) (l : list A) :
  length idx = length l ->
  length (map snd (filter fst (combine idx l)))
  = length (filter (fun b : bool => b) idx).
Proof.
  revert l; induction idx as [|b idx IH]; intros [|a l] H; simpl in *;
    try discriminate; [reflexivity|].
  destruct b; simpl; rewrite IH by lia; reflexivity.
Qed.

Lemma mask_In {A} (idx : list bool) (l : list A) (x : A) :
  In x (map snd (filter fst (combine idx l))) -> In x l.
Proof.
  intros H. apply in_map_iff in H. destruct H as [[b a] [<- H]].
  apply filter_In in H. destruct H as [H _].
  now apply in_combine_r in H.
Qed.

Lemma mask_self {A} (p : A -> bool) (l : list A) :
  map snd (filter fst (combine (map p l) l)) = filter p l.
Proof.
  induction l as [|a l IH]; simpl; [reflexivity|].
  destruct (p a); simpl; now rewrite IH.
Qed.

Lemma filter_true_map {A} (p : A -> bool) (l : list A) :
  filter (fun b : bool => b) (map p l) = map p (filter p l).
Proof.
  induction l as [|a l IH]; simpl; [reflexivity|].
  destruct (p a) eqn:E; simpl; rewrite ?E, IH; reflexivity.
Qed.

(** ** The loader *)

Section Loader.
Local Open Scope R_scope.
#[local] Arguments MinMaxScaler.col_reduce : simpl never.





End Loader.

(** ** Seeded splits *)

Lemma train_test_split_seeded (sp : Sklearn.Splitter) {A} (X : list A)
    (y : list Z) (test_size : Q) (seed : Z) (stratify : list Z) :
  seed_deterministic
    (Sklearn.train_test_split sp X y test_size (Sklearn.RS_Int seed)
       stratify).
Proof.
  intros g1 g2. unfold Sklearn.train_test_split.
  destruct (negb _); [now split|].
  destruct (Sklearn.validate_shuffle_split _ _) as [[n_train n_test]|e];
    now split.
Qed.

(** Without a seed the same call reads the global generator: two states of
    it give two different splits. *)
Example unseeded_split_reads_generator :
  fst (Sklearn.train_test_split counting_splitter [10; 11; 12; 13]
         [0; 1; 0; 1]%Z (1 # 4) Sklearn.RS_None [0; 1; 0; 1]%Z 0)
  <> fst (Sklearn.train_test_split counting_splitter [10; 11; 12; 13]
            [0; 1; 0; 1]%Z (1 # 4) Sklearn.RS_None [0; 1; 0; 1]%Z 1).
Proof. vm_compute. discriminate. Qed.

Lemma nodupb_NoDup (l : list nat) : Sklearn.nodupb l = true -> NoDup l.
Proof.
  induction l as [|a l IH]; simpl; intros H; constructor.
  - apply andb_prop in H. destruct H as [H _].
    intros Hin. apply negb_true_iff in H.
    assert (existsb (Nat.eqb a) l = true)
      by (apply existsb_exists; exists a; split;
          [assumption|apply Nat.eqb_refl]).
    congruence.
  - apply IH. apply andb_prop in H. tauto.
Qed.

Lemma stratifiedb_spec (y : list Z) (part : list nat) (n_part : nat) (c : Z) :
  Sklearn.stratifiedb y part n_part c = true ->
  (Z.abs (Z.of_nat (Sklearn.count c (Sklearn.labels_at y part))
          * Z.of_nat (length y)
          - Z.of_nat n_part * Z.of_nat (Sklearn.count c y))
   < Z.of_nat (length y))%Z.
Proof. unfold Sklearn.stratifiedb. apply Z.ltb_lt. Qed.

Lemma split_okb_spec (y : list Z) (n_train n_test : nat)
    (train test : list nat) :
  Sklearn.split_okb y n_train n_test train test = true ->
  length train = n_train /\ length test = n_test /\
  NoDup (train ++ test) /\
  Forall (fun i => i < length y) (train ++ test) /\
  forall c, In c y ->
    Sklearn.stratifiedb y train n_train c = true /\
    Sklearn.stratifiedb y test n_test c = true.
Proof.
  unfold Sklearn.split_okb. intros H.
  repeat (apply andb_prop in H; let H' := fresh "H" in destruct H as [H H']).
  repeat split.
  - now apply Nat.eqb_eq.
  - now apply Nat.eqb_eq.
  - now apply nodupb_NoDup.
  - apply Forall_forall. intros i Hi.
    rewrite forallb_forall in H1. apply Nat.ltb_lt. now apply H1.
  - rewrite forallb_forall in H0. specialize (H0 _ H4).
    apply andb_prop in H0. tauto.
  - rewrite forallb_forall in H0. specialize (H0 _ H4).
    apply andb_prop in H0. tauto.
Qed.

Lemma take_spec {A} (l : list A) (idx : list nat) (r : list A) :
  Sklearn.take l idx = Ok r ->
  Forall2 (fun i a => nth_error l i = Some a) idx r.
Proof.
  revert r; induction idx as [|i idx IH]; intros r H; simpl in H.
  - inversion H. constructor.
  - unfold getitem in H. destruct (nth_error l i) as [a|] eqn:E;
      [|discriminate].
    cbn [bind] in H. destruct (Sklearn.take l idx) as [r'|];
      [|discriminate].
    cbn [bind] in H. inversion H. constructor; [assumption|now apply IH].
Qed.

Lemma take_of_spec {A} (l : list A) (idx : list nat) (r : list A) :
  Forall2 (fun i a => nth_error l i = Some a) idx r ->
  Sklearn.take l idx = Ok r.
Proof.
  induction 1 as [|i a idx r Hi _ IH]; simpl; [reflexivity|].
  unfold getitem. now rewrite Hi, IH.
Qed.

Lemma take_length {A} (l : list A) (idx : list nat) (r : list A) :
  Sklearn.take l idx = Ok r -> length r = length idx.
Proof.
  intros H. apply take_spec in H. symmetry. eapply Forall2_length; eauto.
Qed.


Lemma take_labels_at (y : list Z) (idx : list nat) (r : list Z) :
  Sklearn.take y idx = Ok r -> Sklearn.labels_at y idx = r.
Proof.
  intros H. apply take_spec in H. unfold Sklearn.labels_at.
  induction H as [|i a idx r Hi _ IH]; simpl; [reflexivity|].
  now rewrite Hi, IH.
Qed.

Lemma count_notin (c : Z) (l : list Z) : ~ In c l -> Sklearn.count c l = 0.
Proof.
  unfold Sklearn.count. induction l as [|a l IH]; simpl; intros H;
    [reflexivity|].
  destruct (Z.eqb_spec c a) as [->|_]; [exfalso; apply H; now left|].
  apply IH. intros Hin. apply H. now right.
Qed.

Lemma labels_at_In (y : list Z) (part : list nat) (l : Z) :
  In l (Sklearn.labels_at y part) -> In l y.
Proof.
  unfold Sklearn.labels_at. intros H. apply in_flat_map in H.
  destruct H as [i [_ H]].
  destruct (nth_error y i) as [l'|] eqn:E; [|destruct H].
  destruct H as [<-|[]]. eapply nth_error_In; eauto.
Qed.

Lemma contract_share (y : list Z) (part : list nat) (n_part : nat)
    (r : list Z) :
  0 < length y ->
  length part = n_part ->
  (forall c, In c y -> Sklearn.stratifiedb y part n_part c = true) ->
  Sklearn.take y part = Ok r ->
  share_within 1 y r.
Proof.
  intros Hpos Hlen Hstrat Htake c.
  rewrite (take_length _ _ _ Htake), Hlen.
  rewrite <- (take_labels_at _ _ _ Htake).
  destruct (in_dec Z.eq_dec c y) as [Hin|Hnin].
  - rewrite Z.mul_1_l. apply stratifiedb_spec. now apply Hstrat.
  - rewrite (count_notin c y Hnin), count_notin.
    + change (Z.of_nat 0) with 0%Z. rewrite Z.mul_0_l, Z.mul_0_r.
      change (Z.abs (0 - 0)) with 0%Z. lia.
    + intros Hin. apply Hnin. eapply labels_at_In; eauto.
Qed.

Lemma validate_shuffle_split_inv (n : nat) (test_size : Q)
    (n_train n_test : nat) :
  Sklearn.validate_shuffle_split n test_size = Ok (n_train, n_test) ->
  n_train = n - n_test /\ n_train <> 0.
Proof.
  unfold Sklearn.validate_shuffle_split.
  destruct (_ || _); [discriminate|].
  destruct (Nat.eqb_spec (n - Z.to_nat (Qceiling
              (test_size * inject_Z (Z.of_nat n)))) 0) as [E|E];
    [discriminate|].
  intros H. inversion H; subst. split; [reflexivity|assumption].
Qed.

Lemma train_test_split_inv (sp : Sklearn.Splitter) {A} (X : list A)
    (y : list Z) (test_size : Q) (seed : Z) (g : Sklearn.rng sp)
    (out : list A * list A * list Z * list Z) :
  Sklearn.split_contract sp ->
  fst (Sklearn.train_test_split sp X y test_size (Sklearn.RS_Int seed) y g)
    = Ok out ->
  exists n_train n_test train test,
    Sklearn.validate_shuffle_split (length X) test_size
      = Ok (n_train, n_test) /\
    length X = length y /\
    Sklearn.split_okb y n_train n_test train test = true /\
    is_split X y train test out.
Proof.
  intros Hc. unfold Sklearn.train_test_split.
  destruct (Nat.eqb_spec (length X) (length y)) as [Hlen|Hlen];
    [|simpl; discriminate].
  cbn [andb negb].
  destruct (Sklearn.validate_shuffle_split (length X) test_size)
    as [[n_train n_test]|e] eqn:Ev; [|discriminate].
  destruct (Sklearn.stratified_shuffle_split sp (Sklearn.seed_rng sp seed) y
              n_train n_test) as [[[train test]|e] g'] eqn:Es;
    cbn [fst bind]; [|discriminate].
  destruct (Sklearn.take X train) as [Xtr|] eqn:E1; [|discriminate].
  destruct (Sklearn.take X test) as [Xte|] eqn:E2; [|discriminate].
  destruct (Sklearn.take y train) as [ytr|] eqn:E3; [|discriminate].
  destruct (Sklearn.take y test) as [yte|] eqn:E4; [|discriminate].
  cbn [bind]. intros H. inversion H; subst out; clear H.
  exists n_train, n_test, train, test. repeat split; try assumption.
  eapply Hc; eauto.
Qed.

(** One seeded, stratified split: disjoint index lists, shares within one
    sample. *)
Lemma train_test_split_disjoint_stratified (sp : Sklearn.Splitter) {A}
    (X : list A) (y : list Z) (test_size : Q) (seed : Z)
    (g : Sklearn.rng sp) (X_train X_test : list A) (y_train y_test : list Z) :
  Sklearn.split_contract sp ->
  fst (Sklearn.train_test_split sp X y test_size (Sklearn.RS_Int seed) y g)
    = Ok (X_train, X_test, y_train, y_test) ->
  exists train test,
    NoDup (train ++ test) /\
    is_split X y train test (X_train, X_test, y_train, y_test) /\
    share_within 1 y y_train /\ share_within 1 y y_test.
Proof.
  intros Hc H.
  destruct (train_test_split_inv sp X y test_size seed g _ Hc H)
    as [n_train [n_test [train [test [Hv [Hlen [Hok Hsplit]]]]]]].
  destruct (split_okb_spec _ _ _ _ _ Hok) as [L1 [L2 [Hnd [_ Hs]]]].
  destruct (validate_shuffle_split_inv _ _ _ _ Hv) as [Hn Hn0].
  assert (Hpos : 0 < length y) by lia.
  exists train, test. split; [assumption|]. split; [assumption|].
  destruct Hsplit as [_ [_ [Hy1 Hy2]]]. split.
  - apply (contract_share y train n_train); try assumption.
    intros c Hin. now apply Hs.
  - apply (contract_share y test n_test); try assumption.
    intros c Hin. now apply Hs.
Qed.

(** ** A split of a split *)

Lemma Forall2_nth_error_r {A B} (P : A -> B -> Prop) (l : list A)
    (r : list B) (i : nat) (b : B) :
  Forall2 P l r -> nth_error r i = Some b ->
  exists a, nth_error l i = Some a /\ P a b.
Proof.
  intros H. revert i. induction H as [|a b' l r Hab _ IH]; intros [|i] Hi;
    simpl in *; try discriminate.
  - inversion Hi; subst. eauto.
  - now apply IH.
Qed.

(** Indexing the rows drawn at [idx1] by [idx2] is indexing the original by
    the composed indices. *)
Lemma take_compose {A} (l l0 r : list A) (idx1 idx2 : list nat) :
  Sklearn.take l idx1 = Ok l0 ->
  Sklearn.take l0 idx2 = Ok r ->
  Sklearn.take l (map (fun i => nth i idx1 0) idx2) = Ok r.
Proof.
  intros H1 H2. apply take_spec in H1. apply take_spec in H2.
  apply take_of_spec.
  induction H2 as [|i a idx2 r Hi _ IH]; simpl; constructor; [|assumption].
  destruct (Forall2_nth_error_r _ _ _ _ _ H1 Hi) as [k [Hk Hl]].
  now rewrite (nth_error_nth _ _ 0 Hk).
Qed.

Lemma NoDup_map_nth (l idx : list nat) :
  NoDup l -> NoDup idx -> Forall (fun i => i < length l) idx ->
  NoDup (map (fun i => nth i l 0) idx).
Proof.
  intros Hl Hidx Hr. induction Hidx as [|a idx Ha _ IH]; simpl;
    constructor.
  - intros Hin. apply in_map_iff in Hin. destruct Hin as [i [Hi Hin]].
    rewrite Forall_forall in Hr.
    assert (i = a).
    { apply (proj1 (NoDup_nth l 0) Hl); [apply Hr; now right
                                        |apply Hr; now left|assumption]. }
    subst i. contradiction.
  - apply IH. now inversion Hr.
Qed.

Lemma share_compose (N n0 C c0 t nt : Z) :
  (0 < N -> 0 < n0 -> 0 <= nt <= n0 ->
   Z.abs (c0 * N - n0 * C) < 1 * N ->
   Z.abs (t * n0 - nt * c0) < 1 * n0 ->
   Z.abs (t * N - nt * C) < 2 * N)%Z.
Proof.
  intros HN Hn0 Hnt H1 H2.
  rewrite Z.mul_1_l in H1, H2.
  apply Z.abs_lt in H1. apply Z.abs_lt in H2. apply Z.abs_lt.
  assert (E : ((t * N - nt * C) * n0
               = N * (t * n0 - nt * c0) + nt * (c0 * N - n0 * C))%Z) by ring.
  split; nia.
Qed.

Lemma split_of_split_shares (y y0 part : list Z) :
  0 < length y -> 0 < length y0 -> length part <= length y0 ->
  share_within 1 y y0 -> share_within 1 y0 part -> share_within 2 y part.
Proof.
  intros Hy Hy0 Hle H1 H2 c.
  apply (share_compose _ (Z.of_nat (length y0)) _
           (Z.of_nat (Sklearn.count c y0))); try lia.
  - apply H1.
  - apply H2.
Qed.

(** The challenge's draw of a draw: disjoint index lists into the original
    data, shares within two samples. *)
Lemma challenge_partition_disjoint_stratified (sp : Sklearn.Splitter) {A}
    (X : list A) (y : list Z) (g : Sklearn.rng sp)
    (X_train X_test : list A) (y_train y_test : list Z) :
  Sklearn.split_contract sp ->
  fst (Challenge.partition_data sp X y g)
    = Ok (X_train, X_test, y_train, y_test) ->
  exists train test,
    NoDup (train ++ test) /\
    is_split X y train test (X_train, X_test, y_train, y_test) /\
    share_within 2 y y_train /\ share_within 2 y y_test.
Proof.
  intros Hc. unfold Challenge.partition_data.
  destruct (length X =? 0); [discriminate|].
  destruct (Sklearn.train_test_split sp X y _ _ y g) as [r0 g0] eqn:E0.
  assert (E0' : fst (Sklearn.train_test_split sp X y
                       (Z.of_nat Challenge.N_TOT # Pos.of_nat (length X))
                       (Sklearn.RS_Int Challenge.RANDOM_SEED) y g) = r0)
    by now rewrite E0.
  destruct r0 as [[[[Xr X0] yr] y0]|e]; [|discriminate].
  intros H.
  destruct (train_test_split_inv sp X y _ _ g _ Hc E0')
    as [n_tr1 [n_te1 [tr1 [te1 [Hv1 [Hlen1 [Hok1 Hs1]]]]]]].
  destruct (train_test_split_inv sp X0 y0 _ _ g0 _ Hc H)
    as [n_tr2 [n_te2 [tr2 [te2 [Hv2 [Hlen2 [Hok2 Hs2]]]]]]].
  destruct (split_okb_spec _ _ _ _ _ Hok1) as [_ [L1 [Hnd1 [Hr1 Hst1]]]].
  destruct (split_okb_spec _ _ _ _ _ Hok2) as [L2 [L2' [Hnd2 [Hr2 Hst2]]]].
  destruct (validate_shuffle_split_inv _ _ _ _ Hv1) as [Hn1 Hn1'].
  destruct (validate_shuffle_split_inv _ _ _ _ Hv2) as [Hn2 Hn2'].
  destruct Hs1 as [_ [HX0 [_ Hy0]]].
  destruct Hs2 as [HXtr [HXte [Hytr Hyte]]].
  assert (Hpos : 0 < length y) by lia.
  assert (Hpos0 : 0 < length y0) by lia.
  assert (Ly0 : length y0 = length te1) by (eapply take_length; eauto).
  assert (Sh0 : share_within 1 y y0).
  { apply (contract_share y te1 n_te1); try assumption.
    intros c Hin. now apply Hst1. }
  exists (map (fun i => nth i te1 0) tr2), (map (fun i => nth i te1 0) te2).
  split; [|split; [|split]].
  - rewrite <- map_app. apply NoDup_map_nth.
    + apply NoDup_app_remove_l in Hnd1. assumption.
    + assumption.
    + rewrite <- Ly0. assumption.
  - repeat split; eapply take_compose; eauto.
  - apply (split_of_split_shares y y0); try assumption.
    + rewrite (take_length _ _ _ Hytr). lia.
    + apply (contract_share y0 tr2 n_tr2); try assumption.
      intros c Hin. now apply Hst2.
  - apply (split_of_split_shares y y0); try assumption.
    + rewrite (take_length _ _ _ Hyte). lia.
    + apply (contract_share y0 te2 n_te2); try assumption.
      intros c Hin. now apply Hst2.
Qed.

Lemma checked_splitter_contract : Sklearn.split_contract checked_splitter.
Proof.
  intros g y n_train n_test train test g' H. simpl in H.
  destruct (Sklearn.split_okb y n_train n_test (seq 0 n_train)
              (seq n_train n_test)) eqn:E; [|discriminate].
  inversion H; subst. exact E.
Defined.

(** ** Distinct labels and the confusion matrix *)

Lemma insert_unique_In (z : Z) (l : list Z) (x : Z) :
  In x (Sklearn.insert_unique z l) <-> x = z \/ In x l.
Proof.
  induction l as [|h t IH]; simpl.
  - intuition.
  - destruct (Z.ltb_spec z h); [simpl; intuition|].
    destruct (Z.eqb_spec z h); simpl; [subst; intuition|].
    rewrite IH. intuition.
Qed.

Lemma insert_unique_sorted (z : Z) (l : list Z) :
  StronglySorted Z.lt l -> StronglySorted Z.lt (Sklearn.insert_unique z l).
Proof.
  induction 1 as [|h t Hs IH Hh]; simpl.
  - repeat constructor.
  - destruct (Z.ltb_spec z h) as [Hlt|Hge].
    + constructor; [now constructor|]. constructor; [assumption|].
      eapply Forall_impl; [|exact Hh]. intros a Ha. cbn beta in Ha. lia.
    + destruct (Z.eqb_spec z h) as [->|Hne]; [now constructor|].
      constructor; [assumption|]. apply Forall_forall. intros a Ha.
      apply insert_unique_In in Ha. destruct Ha as [->|Ha]; [lia|].
      rewrite Forall_forall in Hh. now apply Hh.
Qed.

Lemma unique_In (l : list Z) (x : Z) : In x (Sklearn.unique l) <-> In x l.
Proof.
  unfold Sklearn.unique. induction l as [|a l IH]; simpl; [tauto|].
  rewrite insert_unique_In, IH. intuition.
Qed.

Lemma unique_sorted (l : list Z) : StronglySorted Z.lt (Sklearn.unique l).
Proof.
  unfold Sklearn.unique. induction l as [|a l IH]; simpl; [constructor|].
  now apply insert_unique_sorted.
Qed.

Lemma sorted_NoDup (l : list Z) : StronglySorted Z.lt l -> NoDup l.
Proof.
  induction 1 as [|h t _ IH Hh]; constructor; [|assumption].
  intros Hin. rewrite Forall_forall in Hh. specialize (Hh _ Hin). lia.
Qed.

(** The number of distinct labels of [l], when they are exactly the
    members of the duplicate-free list [classes]. *)
Lemma unique_length (l classes : list Z) :
  NoDup classes -> (forall x, In x l <-> In x classes) ->
  length (Sklearn.unique l) = length classes.
Proof.
  intros Hnd Hiff. apply Permutation_length.
  apply NoDup_Permutation; [apply sorted_NoDup, unique_sorted|assumption|].
  intros x. rewrite unique_In. apply Hiff.
Qed.


(** ** The loops and the split, as far as shapes go *)






Lemma qkernel_matrix_nonempty {T A} (k : T -> T -> A) (X1 X2 : list T) :
  X1 <> [] ->
  Tutorial.qkernel_matrix k X1 X2
  = Ok (Np.Arr2 (length X2) (map (fun x1 => map (k x1) X2) X1)).
Proof.
  intros Hne. unfold Tutorial.qkernel_matrix, Np.array2.
  destruct X1 as [|x X1]; [contradiction|]. cbn [map].
  rewrite length_map.
  assert (Hall : forallb (fun r' => length r' =? length X2)
                   (map (k x) X2 :: map (fun x1 => map (k x1) X2) X1)
                 = true).
  { apply forallb_forall. intros r' Hr'. apply Nat.eqb_eq.
    change (In r' (map (fun x1 => map (k x1) X2) (x :: X1))) in Hr'.
    apply in_map_iff in Hr'. destruct Hr' as [x1 [<- _]]. apply length_map. }
  now rewrite Hall.
Qed.




(** ** End to end *)

Tactic Notation "bind_inv" hyp(H) "as" simple_intropattern(p) ident(E) :=
  match type of H with
  | bind ?r _ = Ok _ =>
      destruct r as [p|] eqn:E; [cbn [bind] in H|discriminate H]
  end.





(** ** A worked run *)

Lemma first_label_svc_contract : Sklearn.svc_contract first_label_svc.
Proof.
  intros K_train y_train m K_test y_pred Hfit Hpred. simpl in *.
  destruct y_train as [|l y_train]; [discriminate|].
  inversion Hfit; subst m. inversion Hpred; subst y_pred. split.
  - apply repeat_length.
  - apply Forall_forall. intros x Hx. apply repeat_spec in Hx. subst x.
    now left.
Defined.


Ltac run_workflow :=
  cbv -[Rplus Rmult Rminus Rdiv Rinv Ropp Rmin Rmax PI IZR
        MinMaxScaler.handle_zeros_in_scale].


(** ** The kernel circuit *)

Section Circuit.
Local Open Scope R_scope.
Import Qml.

Lemma C_eq (a b : C) : Cre a = Cre b -> Cim a = Cim b -> a = b.
Proof. destruct a, b; simpl; intros -> ->; reflexivity. Qed.

Lemma state_eq (s t : state) :
  a00 s = a00 t -> a01 s = a01 t -> a10 s = a10 t -> a11 s = a11 t -> s = t.
Proof. destruct s, t; simpl; intros -> -> -> ->; reflexivity. Qed.

Lemma mat_eq (U V : mat2) :
  m00 U = m00 V -> m01 U = m01 V -> m10 U = m10 V -> m11 U = m11 V -> U = V.
Proof. destruct U, V; simpl; intros -> -> -> ->; reflexivity. Qed.

Ltac C_ring := apply C_eq; cbn; ring.
Ltac state_ring := apply state_eq; C_ring.

Lemma apply1_mul (U V : mat2) (w : wire) (s : state) :
  apply1 (mat_mul U V) w s = apply1 U w (apply1 V w s).
Proof. destruct w; state_ring. Qed.

Lemma apply1_I (w : wire) (s : state) : apply1 mat_I w s = s.
Proof. destruct s as [[] [] [] []]; destruct w; state_ring. Qed.

Lemma inner_apply1_dagger (U : mat2) (w : wire) (phi psi : state) :
  inner phi (apply1 (dagger U) w psi) = inner (apply1 U w phi) psi.
Proof. destruct w; C_ring. Qed.

Lemma half_neg (theta : R) : - theta / 2 = - (theta / 2).
Proof. field. Qed.

Lemma cos2_sin2_half (theta : R) :
  cos (theta / 2) * cos (theta / 2) + sin (theta / 2) * sin (theta / 2) = 1.
Proof.
  pose proof (sin2_cos2 (theta / 2)) as H. unfold Rsqr in H. lra.
Qed.

Lemma inv_sqrt2_sq : / sqrt 2 * / sqrt 2 = / 2.
Proof.
  rewrite <- Rinv_mult, sqrt_sqrt by lra. reflexivity.
Qed.

Lemma dagger_RX (theta : R) : dagger (RX_matrix theta) = RX_matrix (- theta).
Proof.
  unfold RX_matrix. rewrite half_neg, cos_neg, sin_neg.
  apply mat_eq; C_ring.
Qed.

Lemma dagger_RY (theta : R) : dagger (RY_matrix theta) = RY_matrix (- theta).
Proof.
  unfold RY_matrix. rewrite half_neg, cos_neg, sin_neg.
  apply mat_eq; C_ring.
Qed.

Lemma dagger_Hadamard : dagger Hadamard_matrix = Hadamard_matrix.
Proof. apply mat_eq; C_ring. Qed.

Lemma RX_unitary (theta : R) :
  mat_mul (dagger (RX_matrix theta)) (RX_matrix theta) = mat_I.
Proof.
  pose proof (cos2_sin2_half theta) as H.
  apply mat_eq; apply C_eq; cbn; nra.
Qed.

Lemma RY_unitary (theta : R) :
  mat_mul (dagger (RY_matrix theta)) (RY_matrix theta) = mat_I.
Proof.
  pose proof (cos2_sin2_half theta) as H.
  apply mat_eq; apply C_eq; cbn; nra.
Qed.

Lemma Hadamard_unitary :
  mat_mul (dagger Hadamard_matrix) Hadamard_matrix = mat_I.
Proof.
  pose proof inv_sqrt2_sq as H.
  apply mat_eq; apply C_eq; cbn; nra.
Qed.

Lemma Cmul_assoc (a b c : C) : Cmul a (Cmul b c) = Cmul (Cmul a b) c.
Proof. C_ring. Qed.

Lemma Cmul_1_l (a : C) : Cmul C1 a = a.
Proof. destruct a. C_ring. Qed.

Lemma phase_cancel_l (theta : R) :
  Cmul (mkC (cos (theta / 2)) (sin (theta / 2)))
       (mkC (cos (theta / 2)) (- sin (theta / 2))) = C1.
Proof.
  pose proof (cos2_sin2_half theta) as H. apply C_eq; cbn; nra.
Qed.

Lemma phase_cancel_r (theta : R) :
  Cmul (mkC (cos (theta / 2)) (- sin (theta / 2)))
       (mkC (cos (theta / 2)) (sin (theta / 2))) = C1.
Proof.
  pose proof (cos2_sin2_half theta) as H. apply C_eq; cbn; nra.
Qed.

(** Every operation is undone by its adjoint. *)
Lemma adjoint_op_undoes (o : op) (s : state) :
  apply_op (adjoint_op o) (apply_op o s) = s.
Proof.
  destruct o as [theta w|theta w|w|theta]; cbn [adjoint_op apply_op].
  - now rewrite <- dagger_RX, <- apply1_mul, RX_unitary, apply1_I.
  - now rewrite <- dagger_RY, <- apply1_mul, RY_unitary, apply1_I.
  - now rewrite <- dagger_Hadamard at 1;
      rewrite <- apply1_mul, Hadamard_unitary, apply1_I.
  - rewrite half_neg, cos_neg, sin_neg, Ropp_involutive.
    cbn [a00 a01 a10 a11].
    rewrite !Cmul_assoc, phase_cancel_l, phase_cancel_r, !Cmul_1_l.
    now destruct s.
Qed.

(** The adjoint operation is the Hermitian adjoint. *)
Lemma inner_adjoint_op (o : op) (phi psi : state) :
  inner phi (apply_op (adjoint_op o) psi) = inner (apply_op o phi) psi.
Proof.
  destruct o as [theta w|theta w|w|theta]; cbn [adjoint_op apply_op].
  - rewrite <- dagger_RX. apply inner_apply1_dagger.
  - rewrite <- dagger_RY. apply inner_apply1_dagger.
  - rewrite <- dagger_Hadamard at 1. apply inner_apply1_dagger.
  - rewrite half_neg, cos_neg, sin_neg. C_ring.
Qed.

End Circuit.

Section Kernel.
Local Open Scope R_scope.
Import Qml.

Ltac C_ring := apply C_eq; cbn; ring.

Lemma run_app (l1 l2 : list op) (s : state) :
  run (l1 ++ l2) s = run l2 (run l1 s).
Proof. apply fold_left_app. Qed.

Lemma adjoint_cons (o : op) (ops : list op) :
  adjoint (o :: ops) = adjoint ops ++ [adjoint_op o].
Proof. reflexivity. Qed.

(** A tape followed by its adjoint leaves the register as it was. *)
Lemma run_adjoint_undoes (ops : list op) (s : state) :
  run (adjoint ops) (run ops s) = s.
Proof.
  revert s; induction ops as [|o ops IH]; intros s; [reflexivity|].
  rewrite adjoint_cons, run_app. cbn [run fold_left].
  fold (run ops (apply_op o s)). fold (run (adjoint ops) (run ops (apply_op o s))).
  rewrite IH. apply adjoint_op_undoes.
Qed.

Lemma inner_run_adjoint (ops : list op) (phi psi : state) :
  inner phi (run (adjoint ops) psi) = inner (run ops phi) psi.
Proof.
  revert phi; induction ops as [|o ops IH]; intros phi; [reflexivity|].
  rewrite adjoint_cons, run_app. cbn [run fold_left].
  fold (run (adjoint ops) psi). fold (run ops (apply_op o phi)).
  rewrite inner_adjoint_op. apply IH.
Qed.

Lemma inner_zero_state (s : state) : inner zero_state s = a00 s.
Proof. destruct s as [[] ? ? ?]. C_ring. Qed.

Lemma inner_conj (phi psi : state) : inner phi psi = Cconj (inner psi phi).
Proof. C_ring. Qed.

Lemma Cnorm2_conj (a : C) : Cnorm2 (Cconj a) = Cnorm2 a.
Proof. unfold Cnorm2. cbn. ring. Qed.

(** The expectation value of the projector is the probability of |00>. *)
Lemma expval_OPERATOR (s : state) :
  expval OPERATOR s = probability s (false, false).
Proof.
  unfold expval, OPERATOR, probability, Cnorm2. cbn. ring.
Qed.

Lemma state_norm2_inner (s : state) : state_norm2 s = Cre (inner s s).
Proof. unfold state_norm2, Cnorm2. cbn. ring. Qed.

(** Operations, and so tapes, preserve the norm. *)
Lemma apply_op_norm (o : op) (s : state) :
  state_norm2 (apply_op o s) = state_norm2 s.
Proof.
  rewrite !state_norm2_inner, <- inner_adjoint_op, adjoint_op_undoes.
  reflexivity.
Qed.

Lemma run_norm (ops : list op) (s : state) :
  state_norm2 (run ops s) = state_norm2 s.
Proof.
  revert s; induction ops as [|o ops IH]; intros s; [reflexivity|].
  cbn [run fold_left]. fold (run ops (apply_op o s)).
  now rewrite IH, apply_op_norm.
Qed.

Lemma zero_state_norm : state_norm2 zero_state = 1.
Proof. unfold state_norm2, Cnorm2. cbn. ring. Qed.

(** The amplitude of |00> after [o1 ++ adjoint o2] is the overlap of the
    two embedded states. *)
Lemma overlap_amplitude (o1 o2 : list op) :
  a00 (run (o1 ++ adjoint o2) zero_state)
  = inner (run o2 zero_state) (run o1 zero_state).
Proof.
  rewrite run_app, <- inner_zero_state. apply inner_run_adjoint.
Qed.

Lemma overlap_symmetric (o1 o2 : list op) :
  probability (run (o1 ++ adjoint o2) zero_state) (false, false)
  = probability (run (o2 ++ adjoint o1) zero_state) (false, false).
Proof.
  unfold probability. cbn [amplitude].
  rewrite !overlap_amplitude, (inner_conj (run o2 zero_state)).
  apply Cnorm2_conj.
Qed.

(** The analytic kernel value lies between 0 and 1. *)
Lemma probability_range (ops : list op) (o : outcome) :
  0 <= probability (run ops zero_state) o <= 1.
Proof.
  pose proof (run_norm ops zero_state) as H. rewrite zero_state_norm in H.
  unfold state_norm2 in H. unfold probability.
  assert (N : forall a, 0 <= Cnorm2 a) by (intros a; unfold Cnorm2; nra).
  pose proof (N (a00 (run ops zero_state))).
  pose proof (N (a01 (run ops zero_state))).
  pose proof (N (a10 (run ops zero_state))).
  pose proof (N (a11 (run ops zero_state))).
  destruct o as [[|] [|]]; cbn [amplitude]; lra.
Qed.

(** Shots and their mean. *)
Lemma shot_value_OPERATOR (o : outcome) :
  shot_value OPERATOR o = if (fst o || snd o)%bool then 0 else 1.
Proof. destruct o as [[|] [|]]; reflexivity. Qed.

Lemma sum_shots_certain (outcomes : list outcome) :
  Forall (fun o => o = (false, false)) outcomes ->
  fold_right Rplus 0 (map (shot_value OPERATOR) outcomes)
  = INR (length outcomes).
Proof.
  induction 1 as [|o outcomes Ho _ IH]; [reflexivity|].
  cbn [map fold_right length]. rewrite IH, S_INR, Ho. cbn. ring.
Qed.

(** When the prepared state gives every outcome other than 00 probability
    zero, a noiseless device reports 00 on every shot and the estimate is
    exactly 1. *)
Lemma execute_certain (dev : Device) (g : dev_rng dev) (ops : list op) :
  noiseless dev ->
  (forall o, o <> (false, false) ->
             probability (run ops zero_state) o = 0) ->
  execute dev g OPERATOR ops = 1.
Proof.
  intros [Hshots Hdev] Hzero. unfold execute, sample_mean.
  assert (Hn : state_norm2 (run ops zero_state) = 1)
    by (rewrite run_norm; apply zero_state_norm).
  destruct (Hdev g _ Hn) as [Hlen Hsupp].
  rewrite sum_shots_certain.
  - rewrite Hlen. field. apply not_0_INR. lia.
  - eapply Forall_impl; [|exact Hsupp]. intros o Ho. cbn beta in Ho.
    destruct o as [[|] [|]]; try reflexivity;
      exfalso; apply Ho; apply Hzero; discriminate.
Qed.

(** The other outcomes have probability zero once 00 has probability 1. *)
Lemma certain_of_probability_one (ops : list op) :
  probability (run ops zero_state) (false, false) = 1 ->
  forall o, o <> (false, false) -> probability (run ops zero_state) o = 0.
Proof.
  intros H1 o Ho.
  pose proof (run_norm ops zero_state) as H. rewrite zero_state_norm in H.
  unfold state_norm2 in H. unfold probability in *. cbn [amplitude] in H1.
  assert (N : forall a, 0 <= Cnorm2 a) by (intros a; unfold Cnorm2; nra).
  pose proof (N (a01 (run ops zero_state))).
  pose proof (N (a10 (run ops zero_state))).
  pose proof (N (a11 (run ops zero_state))).
  destruct o as [[|] [|]]; cbn [amplitude]; try lra. now contradiction Ho.
Qed.

End Kernel.

(** ** The kernel's documented sanity checks *)

Section SanityChecks.
Local Open Scope R_scope.
Import Qml.

Ltac C_ring := apply C_eq; cbn; ring.

Lemma steady_device_noiseless : noiseless steady_device.
Proof.
  split; [cbn; lia|]. intros g s Hn. split; [apply repeat_length|].
  apply Forall_forall. intros o Ho. apply repeat_spec in Ho. subst o.
  unfold first_possible.
  destruct (Req_dec_T (probability s (false, false)) 0) as [E0|]; [|easy].
  destruct (Req_dec_T (probability s (false, true)) 0) as [E1|]; [|easy].
  destruct (Req_dec_T (probability s (true, false)) 0) as [E2|]; [|easy].
  unfold state_norm2, probability in *. cbn [amplitude] in *. lra.
Defined.

Lemma AngleEmbedding_ok (x : list R) :
  (length x <= 2)%nat -> AngleEmbedding x = Ok (Np.zip_with RX x wires).
Proof.
  intros H. unfold AngleEmbedding.
  now rewrite (proj2 (Nat.ltb_ge (length wires) (length x)) H).
Qed.

Lemma QAOAEmbedding_ok (x : list R) (w : R * R * R) :
  (length x <= 2)%nat ->
  exists ops, QAOAEmbedding x [w] = Ok ops.
Proof.
  intros H. unfold QAOAEmbedding.
  rewrite (proj2 (Nat.ltb_ge (length wires) (length x)) H). eauto.
Qed.

Lemma self_overlap (ops : list op) :
  run (ops ++ adjoint ops) zero_state = zero_state.
Proof. rewrite run_app. apply run_adjoint_undoes. Qed.

Lemma zero_state_certain :
  probability zero_state (false, false) = 1.
Proof. unfold probability, Cnorm2. cbn. ring. Qed.

Lemma challenge_self_tape (x : list R) :
  (length x <= 2)%nat ->
  exists ops, Challenge.qkernel_tape x x = Ok (ops ++ adjoint ops).
Proof.
  intros Hx. exists (Np.zip_with RX x wires).
  unfold Challenge.qkernel_tape. now rewrite (AngleEmbedding_ok x Hx).
Qed.

Lemma tutorial_self_tape (w : R * R * R) (x : list R) :
  (length x <= 2)%nat ->
  exists ops, Tutorial.qkernel_tape w x x = Ok (ops ++ adjoint ops).
Proof.
  intros Hx. destruct (QAOAEmbedding_ok x w Hx) as [ops Hops].
  exists ops. unfold Tutorial.qkernel_tape. now rewrite Hops.
Qed.

Lemma challenge_self_expval (x : list R) :
  (length x <= 2)%nat -> Challenge.qkernel_expval x x = Ok 1.
Proof.
  intros Hx. destruct (challenge_self_tape x Hx) as [ops Hops].
  unfold Challenge.qkernel_expval. rewrite Hops. cbn [bind].
  now rewrite self_overlap, expval_OPERATOR, zero_state_certain.
Qed.

Lemma tutorial_self_expval (w : R * R * R) (x : list R) :
  (length x <= 2)%nat -> Tutorial.qkernel_expval w x x = Ok 1.
Proof.
  intros Hx. destruct (tutorial_self_tape w x Hx) as [ops Hops].
  unfold Tutorial.qkernel_expval. rewrite Hops. cbn [bind].
  now rewrite self_overlap, expval_OPERATOR, zero_state_certain.
Qed.

Lemma challenge_self_circuit (dev : Device) (g : dev_rng dev) (x : list R) :
  noiseless dev -> (length x <= 2)%nat ->
  Challenge.qkernel_circuit dev g x x = Ok 1.
Proof.
  intros Hdev Hx. destruct (challenge_self_tape x Hx) as [ops Hops].
  unfold Challenge.qkernel_circuit. rewrite Hops. cbn [bind]. f_equal.
  apply execute_certain; [assumption|].
  apply certain_of_probability_one.
  rewrite self_overlap. apply zero_state_certain.
Qed.

Lemma tutorial_self_circuit (dev : Device) (g : dev_rng dev)
    (w : R * R * R) (x : list R) :
  noiseless dev -> (length x <= 2)%nat ->
  Tutorial.qkernel_circuit dev g w x x = Ok 1.
Proof.
  intros Hdev Hx. destruct (tutorial_self_tape w x Hx) as [ops Hops].
  unfold Tutorial.qkernel_circuit. rewrite Hops. cbn [bind]. f_equal.
  apply execute_certain; [assumption|].
  apply certain_of_probability_one.
  rewrite self_overlap. apply zero_state_certain.
Qed.

(** C7.  For every sample of at most two features, the expectation value
    that [qkernel_circuit(x, x)] estimates is exactly 1 in both notebooks,
    and on a noiseless device every shot reports |00>, so that the value
    returned is 1 whatever the number of shots. *)
Theorem qkernel_self_similarity :
  forall x : list R,
    (length x <= 2)%nat ->
    Challenge.qkernel_expval x x = Ok 1 /\
    (forall w, Tutorial.qkernel_expval w x x = Ok 1) /\
    (forall dev g,
        noiseless dev ->
        Challenge.qkernel_circuit dev g x x = Ok 1 /\
        forall w, Tutorial.qkernel_circuit dev g w x x = Ok 1).
Proof.
  intros x Hx. split; [|split].
  - now apply challenge_self_expval.
  - intros w. now apply tutorial_self_expval.
  - intros dev g Hdev. split.
    + now apply challenge_self_circuit.
    + intros w. now apply tutorial_self_circuit.
Qed.

Lemma qkernel_self_similarity_witness :
  Challenge.qkernel_expval [1; 2] [1; 2] = Ok 1 /\
  (forall w, Tutorial.qkernel_expval w [1; 2] [1; 2] = Ok 1) /\
  Challenge.qkernel_circuit steady_device tt [1; 2] [1; 2] = Ok 1 /\
  (forall w, Tutorial.qkernel_circuit steady_device tt w [1; 2] [1; 2]
             = Ok 1).
Proof.
  assert (L : (length [1; 2] <= 2)%nat) by (cbn; lia).
  destruct (qkernel_self_similarity [1; 2] L) as [H1 [H2 H3]].
  split; [exact H1|]. split; [exact H2|].
  exact (H3 steady_device tt steady_device_noiseless).
Defined.

Lemma challenge_expval_symmetric (x1 x2 : list R) :
  Challenge.qkernel_expval x1 x2 = Challenge.qkernel_expval x2 x1.
Proof.
  unfold Challenge.qkernel_expval, Challenge.qkernel_tape, AngleEmbedding.
  destruct (length wires <? length x1)%nat,
           (length wires <? length x2)%nat; cbn [bind]; try reflexivity.
  f_equal. rewrite !expval_OPERATOR. apply overlap_symmetric.
Qed.

Lemma tutorial_expval_symmetric (w : R * R * R) (x1 x2 : list R) :
  Tutorial.qkernel_expval w x1 x2 = Tutorial.qkernel_expval w x2 x1.
Proof.
  unfold Tutorial.qkernel_expval, Tutorial.qkernel_tape, QAOAEmbedding.
  destruct (length wires <? length x1)%nat,
           (length wires <? length x2)%nat; cbn [bind]; try reflexivity.
  f_equal. rewrite !expval_OPERATOR. apply overlap_symmetric.
Qed.

Lemma estimates_agree (p k k' eps : R) :
  Rabs (k - p) <= eps -> Rabs (k' - p) <= eps -> Rabs (k - k') <= 2 * eps.
Proof.
  intros H H'. apply Rabs_le.
  unfold Rabs in H, H'.
  destruct (Rcase_abs (k - p)), (Rcase_abs (k' - p)); lra.
Qed.

Lemma sum_shots_repeat (O : list (list R)) (o : outcome) (n : nat) :
  fold_right Rplus 0 (map (shot_value O) (repeat o n))
  = INR n * shot_value O o.
Proof.
  induction n as [|n IH]; [cbn; ring|].
  cbn [repeat map fold_right]. rewrite IH, S_INR. ring.
Qed.

Lemma first_other_value (s : state) :
  shot_value OPERATOR (first_other s) = 0.
Proof.
  rewrite shot_value_OPERATOR. unfold first_other.
  destruct (Req_dec_T (probability s (false, true)) 0);
    [destruct (Req_dec_T (probability s (true, false)) 0)|]; reflexivity.
Qed.

Lemma probability_le_norm (s : state) (o : outcome) :
  0 <= probability s o <= state_norm2 s.
Proof.
  assert (Hn : forall c : C, 0 <= Cnorm2 c)
    by (intros c; unfold Cnorm2; nra).
  pose proof (Hn (a00 s)). pose proof (Hn (a01 s)).
  pose proof (Hn (a10 s)). pose proof (Hn (a11 s)).
  unfold probability, state_norm2.
  destruct o as [[|] [|]]; cbn [amplitude]; lra.
Qed.

(** [frequency_device] estimates the probability of |00> within one shot
    in a thousand. *)
Lemma frequency_device_estimates :
  estimates_within frequency_device OPERATOR (1 / 1000).
Proof.
  intros g s Hn. rewrite expval_OPERATOR.
  pose proof (probability_le_norm s (false, false)) as [Hp0 Hp1].
  rewrite Hn in Hp1.
  set (p := probability s (false, false)) in *.
  cbn [sample frequency_device]. fold p.
  destruct (base_Int_part (p * 1000)) as [Hlo Hhi].
  set (ip := Int_part (p * 1000)) in *.
  assert (Hip0 : (0 <= ip)%Z).
  { apply Z.lt_succ_r. apply lt_IZR. rewrite succ_IZR. lra. }
  assert (Hip1 : (ip <= 1000)%Z) by (apply le_IZR; lra).
  assert (Hk : (Z.to_nat ip <= 1000)%nat) by lia.
  unfold sample_mean.
  rewrite map_app, fold_right_app.
  rewrite sum_shots_repeat, first_other_value, Rmult_0_r.
  rewrite sum_shots_repeat.
  rewrite length_app, !repeat_length, Nat.min_l by assumption.
  replace (Z.to_nat ip + (1000 - Z.to_nat ip))%nat with 1000%nat by lia.
  assert (E : shot_value OPERATOR (false, false) = 1) by reflexivity.
  rewrite E, Rmult_1_r.
  rewrite (INR_IZR_INZ (Z.to_nat ip)), Z2Nat.id by assumption.
  rewrite (INR_IZR_INZ 1000). change (Z.of_nat 1000) with 1000%Z.
  apply Rabs_le. split.
  - apply Rmult_le_reg_r with 1000; [lra|]. field_simplify; lra.
  - apply Rmult_le_reg_r with 1000; [lra|]. field_simplify; lra.
Qed.

(** Both tapes prepare |00> with the same probability. *)
Lemma swapped_tapes_expval (o1 o2 : list op) :
  expval OPERATOR (run (o1 ++ adjoint o2) zero_state)
  = expval OPERATOR (run (o2 ++ adjoint o1) zero_state).
Proof. rewrite !expval_OPERATOR. apply overlap_symmetric. Qed.

(** On a device of tolerance [tol], the runs of a tape and of the swapped
    tape differ by at most [2 * tol]. *)
Lemma execute_swapped (dev : Device) (tol : R) (g g' : dev_rng dev)
    (o1 o2 : list op) :
  estimates_within dev OPERATOR tol ->
  Rabs (execute dev g OPERATOR (o1 ++ adjoint o2)
        - execute dev g' OPERATOR (o2 ++ adjoint o1)) <= 2 * tol.
Proof.
  intros Hdev. unfold execute.
  apply (estimates_agree
           (expval OPERATOR (run (o1 ++ adjoint o2) zero_state))).
  - apply Hdev. rewrite run_norm. apply zero_state_norm.
  - rewrite (swapped_tapes_expval o1 o2).
    apply Hdev. rewrite run_norm. apply zero_state_norm.
Qed.

(** C8.  Swapping the operands leaves the expectation value that
    [qkernel_circuit] estimates unchanged, in both notebooks.  On a device
    whose estimates lie within a sampling tolerance [tol] of the expectation
    value, [qkernel_circuit(x1, x2)] and [qkernel_circuit(x2, x1)], run
    from any two states of the device's generator, either both raise the
    same exception or both return, and then the two values differ by at
    most [2 * tol]. *)
Theorem qkernel_symmetric :
  forall x1 x2 : list R,
    Challenge.qkernel_expval x1 x2 = Challenge.qkernel_expval x2 x1 /\
    (forall w,
        Tutorial.qkernel_expval w x1 x2 = Tutorial.qkernel_expval w x2 x1) /\
    (forall dev tol,
        estimates_within dev OPERATOR tol ->
        forall g g',
          match Challenge.qkernel_circuit dev g x1 x2,
                Challenge.qkernel_circuit dev g' x2 x1 with
          | Ok k, Ok k' => Rabs (k - k') <= 2 * tol
          | Raise e, Raise e' => e = e'
          | _, _ => False
          end) /\
    (forall dev tol,
        estimates_within dev OPERATOR tol ->
        forall g g' w,
          match Tutorial.qkernel_circuit dev g w x1 x2,
                Tutorial.qkernel_circuit dev g' w x2 x1 with
          | Ok k, Ok k' => Rabs (k - k') <= 2 * tol
          | Raise e, Raise e' => e = e'
          | _, _ => False
          end).
Proof.
  intros x1 x2. split; [apply challenge_expval_symmetric|].
  split; [intros w; apply tutorial_expval_symmetric|]. split.
  - intros dev tol Hdev g g'.
    unfold Challenge.qkernel_circuit, Challenge.qkernel_tape,
      AngleEmbedding.
    destruct (length wires <? length x1)%nat,
             (length wires <? length x2)%nat; cbn [bind];
      try reflexivity.
    now apply execute_swapped.
  - intros dev tol Hdev g g' w.
    unfold Tutorial.qkernel_circuit, Tutorial.qkernel_tape, QAOAEmbedding.
    destruct (length wires <? length x1)%nat,
             (length wires <? length x2)%nat; cbn [bind];
      try reflexivity.
    now apply execute_swapped.
Qed.

Lemma qkernel_symmetric_witness :
  exists k k',
    Challenge.qkernel_circuit frequency_device tt [1; 2] [3; 4] = Ok k /\
    Challenge.qkernel_circuit frequency_device tt [3; 4] [1; 2] = Ok k' /\
    Rabs (k - k') <= 2 * (1 / 1000).
Proof.
  pose proof (proj1 (proj2 (proj2 (qkernel_symmetric [1; 2] [3; 4])))
                frequency_device (1 / 1000) frequency_device_estimates
                tt tt) as H.
  do 2 eexists. split; [reflexivity|]. split; [reflexivity|]. exact H.
Defined.

Lemma get_data_three_wines :
  Challenge.get_data three_wines
  = Ok ([[0; 0]; [2 * PI; 2 * PI]], [0; 1]%Z).
Proof.
  cbv [three_wines Challenge.get_data].
  cbn -[Rmin Rmax Rminus Rmult Rplus Rdiv PI IZR
        MinMaxScaler.handle_zeros_in_scale].
  rewrite Rmin_left, Rmax_right by lra.
  unfold MinMaxScaler.handle_zeros_in_scale, MinMaxScaler.eps.
  destruct (Rlt_dec (1 - 0) _); [lra|].
  assert (E0 : 0 * ((2 * PI - 0) / (1 - 0))
               + (0 - 0 * ((2 * PI - 0) / (1 - 0))) = 0) by field.
  assert (E1 : 1 * ((2 * PI - 0) / (1 - 0))
               + (0 - 0 * ((2 * PI - 0) / (1 - 0))) = 2 * PI) by field.
  now rewrite E0, E1.
Qed.

Lemma RX_two_pi (w : wire) (s : state) :
  apply_op (RX (2 * PI) w) s
  = mkState (Copp (a00 s)) (Copp (a01 s)) (Copp (a10 s)) (Copp (a11 s)).
Proof.
  cbn [apply_op]. unfold RX_matrix.
  replace (2 * PI / 2) with PI by field. rewrite cos_PI, sin_PI.
  destruct w; apply state_eq; C_ring.
Qed.

Lemma RX_zero (w : wire) (s : state) : apply_op (RX 0 w) s = s.
Proof.
  cbn [apply_op]. unfold RX_matrix.
  replace (0 / 2) with 0 by field. rewrite cos_0, sin_0.
  destruct s as [[] [] [] []]. destruct w; apply state_eq; C_ring.
Qed.

Lemma angles_two_pi (s : state) :
  run [RX (2 * PI) W0; RX (2 * PI) W1] s = s.
Proof.
  cbn [run fold_left]. rewrite !RX_two_pi.
  destruct s as [[] [] [] []]. apply state_eq; C_ring.
Qed.

Lemma angles_zero (s : state) : run [RX 0 W0; RX 0 W1] s = s.
Proof. cbn [run fold_left]. now rewrite !RX_zero. Qed.

Lemma same_state_overlap (o1 o2 : list op) :
  run o1 zero_state = run o2 zero_state ->
  run (o1 ++ adjoint o2) zero_state = zero_state.
Proof. intros H. rewrite run_app, H. apply run_adjoint_undoes. Qed.

Lemma challenge_tape_two_pi :
  exists tape,
    Challenge.qkernel_tape [2 * PI; 2 * PI] [0; 0] = Ok tape /\
    run tape zero_state = zero_state.
Proof.
  eexists. split; [reflexivity|].
  apply same_state_overlap.
  change (run [RX (2 * PI) W0; RX (2 * PI) W1] zero_state
          = run [RX 0 W0; RX 0 W1] zero_state).
  now rewrite angles_two_pi, angles_zero.
Qed.

Lemma tutorial_tape_two_pi (w : R * R * R) :
  exists tape,
    Tutorial.qkernel_tape w [2 * PI; 2 * PI] [0; 0] = Ok tape /\
    run tape zero_state = zero_state.
Proof.
  destruct w as [[w0 w1] w2].
  eexists. split; [reflexivity|].
  apply same_state_overlap.
  change (run ([RX (2 * PI) W0; RX (2 * PI) W1]
               ++ [MultiRZ w0; RY w1 W0; RY w2 W1]
               ++ [RX (2 * PI) W0; RX (2 * PI) W1]) zero_state
          = run ([RX 0 W0; RX 0 W1]
                 ++ [MultiRZ w0; RY w1 W0; RY w2 W1]
                 ++ [RX 0 W0; RX 0 W1]) zero_state).
  now rewrite !run_app, !angles_two_pi, !angles_zero.
Qed.

(** C6 fails at two samples the loader itself returns: the smallest and
    the largest value of a column are scaled to 0 and to [2 * PI], a full
    turn apart, and the embeddings cannot tell them apart.  For the
    distinct samples [2 * PI; 2 * PI] and [0; 0] the expectation value is
    1 in both notebooks, and a noiseless device returns 1. *)
Theorem qkernel_distinct_samples_reach_one :
  Challenge.get_data three_wines
    = Ok ([[0; 0]; [2 * PI; 2 * PI]], [0; 1]%Z) /\
  [2 * PI; 2 * PI] <> [0; 0] /\
  Challenge.qkernel_expval [2 * PI; 2 * PI] [0; 0] = Ok 1 /\
  (forall w, Tutorial.qkernel_expval w [2 * PI; 2 * PI] [0; 0] = Ok 1) /\
  (forall dev g,
      noiseless dev ->
      Challenge.qkernel_circuit dev g [2 * PI; 2 * PI] [0; 0] = Ok 1 /\
      forall w,
        Tutorial.qkernel_circuit dev g w [2 * PI; 2 * PI] [0; 0] = Ok 1).
Proof.
  split; [exact get_data_three_wines|].
  split; [intros H; injection H as H _; pose proof PI_RGT_0; lra|].
  destruct challenge_tape_two_pi as [tc [Htc Hsc]].
  split; [|split].
  - unfold Challenge.qkernel_expval. rewrite Htc. cbn [bind].
    now rewrite Hsc, expval_OPERATOR, zero_state_certain.
  - intros w. destruct (tutorial_tape_two_pi w) as [tt' [Htt Hst]].
    unfold Tutorial.qkernel_expval. rewrite Htt. cbn [bind].
    now rewrite Hst, expval_OPERATOR, zero_state_certain.
  - intros dev g Hdev. split.
    + unfold Challenge.qkernel_circuit. rewrite Htc. cbn [bind]. f_equal.
      apply execute_certain; [assumption|].
      apply certain_of_probability_one.
      rewrite Hsc. apply zero_state_certain.
    + intros w. destruct (tutorial_tape_two_pi w) as [tt' [Htt Hst]].
      unfold Tutorial.qkernel_circuit. rewrite Htt. cbn [bind]. f_equal.
      apply execute_certain; [assumption|].
      apply certain_of_probability_one.
      rewrite Hst. apply zero_state_certain.
Qed.

Lemma qkernel_distinct_samples_reach_one_witness :
  Challenge.qkernel_circuit steady_device tt [2 * PI; 2 * PI] [0; 0] = Ok 1 /\
  (forall w,
      Tutorial.qkernel_circuit steady_device tt w [2 * PI; 2 * PI] [0; 0]
      = Ok 1).
Proof.
  exact (proj2 (proj2 (proj2 (proj2 qkernel_distinct_samples_reach_one)))
           steady_device tt steady_device_noiseless).
Defined.

(** The analytic kernel value and its estimate both lie between 0 and 1. *)
Lemma qkernel_expval_range (x1 x2 : list R) (v : R) :
  Challenge.qkernel_expval x1 x2 = Ok v -> 0 <= v <= 1.
Proof.
  unfold Challenge.qkernel_expval.
  destruct (Challenge.qkernel_tape x1 x2) as [tape|]; [|discriminate].
  cbn [bind]. intros H. inversion H. rewrite expval_OPERATOR.
  apply probability_range.
Qed.

Lemma tutorial_qkernel_expval_range (w : R * R * R) (x1 x2 : list R)
    (v : R) :
  Tutorial.qkernel_expval w x1 x2 = Ok v -> 0 <= v <= 1.
Proof.
  unfold Tutorial.qkernel_expval.
  destruct (Tutorial.qkernel_tape w x1 x2) as [tape|]; [|discriminate].
  cbn [bind]. intros H. inversion H. rewrite expval_OPERATOR.
  apply probability_range.
Qed.

Lemma sum_shots_range (outcomes : list outcome) :
  0 <= fold_right Rplus 0 (map (shot_value OPERATOR) outcomes)
    <= INR (length outcomes).
Proof.
  induction outcomes as [|o outcomes IH]; [cbn; lra|].
  cbn [map fold_right length]. rewrite S_INR, shot_value_OPERATOR.
  destruct (fst o || snd o)%bool; lra.
Qed.

Lemma sample_mean_range (outcomes : list outcome) :
  outcomes <> [] -> 0 <= sample_mean OPERATOR outcomes <= 1.
Proof.
  intros Hne. unfold sample_mean.
  pose proof (sum_shots_range outcomes) as [H0 H1].
  assert (Hn : 0 < INR (length outcomes)).
  { apply lt_0_INR. destruct outcomes; [contradiction|cbn; lia]. }
  split.
  - apply Rmult_le_pos; [assumption|left; now apply Rinv_0_lt_compat].
  - apply Rmult_le_reg_r with (INR (length outcomes)); [assumption|].
    replace (fold_right Rplus 0 (map (shot_value OPERATOR) outcomes)
             / INR (length outcomes) * INR (length outcomes))
      with (fold_right Rplus 0 (map (shot_value OPERATOR) outcomes))
      by (field; lra).
    lra.
Qed.

End SanityChecks.

(** * Further properties of the notebooks' code *)

(** ** The loops' bounds *)

Lemma for_range_raise_mono {S : Type} (body : nat -> S -> result S) (s : S)
    (e : exn) (m n : nat) :
  for_range m body s = Raise e -> m <= n -> for_range n body s = Raise e.
Proof.
  intros H Hle. induction Hle as [|n Hle IH]; [assumption|].
  now rewrite for_range_S, IH.
Qed.

Section LoopBounds.
Context {T A : Type} (k : T -> T -> A).

(** One pass of the outer loop. *)
Let inner (X1 X2 : list T) (n2 i : nat) (K : list A) : result (list A) :=
  for_range n2 (fun j K =>
      x1 <- getitem X1 i ;;
      x2 <- getitem X2 j ;;
      Ok (K ++ [k x1 x2])) K.

Lemma inner_raises_row (X1 X2 : list T) (n2 i : nat) (K : list A) :
  length X1 <= i -> 0 < n2 -> inner X1 X2 n2 i K = Raise IndexError.
Proof.
  intros Hi Hn. unfold inner.
  apply (for_range_raise_mono _ _ _ 1); [|lia].
  cbn. unfold getitem.
  now rewrite (proj2 (nth_error_None X1 i) Hi).
Qed.

Lemma inner_raises_column (X1 X2 : list T) (n2 i : nat) (K : list A) :
  length X2 < n2 -> inner X1 X2 n2 i K = Raise IndexError.
Proof.
  intros Hn. unfold inner.
  destruct (nth_error X1 i) as [x1|] eqn:Hx1.
  - apply (for_range_raise_mono _ _ _ (S (length X2))); [|lia].
    rewrite for_range_S, (inner_loop_values k X1 X2 i x1) by (assumption || lia).
    cbn [bind]. unfold getitem. rewrite Hx1. cbn [bind].
    now rewrite (proj2 (nth_error_None X2 (length X2)) (Nat.le_refl _)).
  - apply (for_range_raise_mono _ _ _ 1); [|lia].
    cbn. unfold getitem. now rewrite Hx1.
Qed.

Lemma kernel_values_within (X1 X2 : list T) (n1 n2 : nat) :
  n1 <= length X1 -> n2 <= length X2 ->
  Challenge.kernel_values k n1 n2 X1 X2
  = Ok (concat (map (fun x1 => map (k x1) (firstn n2 X2)) (firstn n1 X1))).
Proof.
  intros H1 H2. unfold Challenge.kernel_values.
  induction n1 as [|n IH]; [reflexivity|].
  rewrite for_range_S, IH by lia.
  destruct (nth_error X1 n) as [x1|] eqn:Hx1.
  - rewrite (firstn_snoc _ _ _ Hx1), map_app, concat_app.
    cbn [bind map concat].
    rewrite (inner_loop_values k X1 X2 _ _ _ _ Hx1) by lia.
    now rewrite app_nil_r.
  - apply nth_error_None in Hx1. lia.
Qed.

Lemma kernel_values_no_columns (X1 X2 : list T) (n1 : nat) :
  Challenge.kernel_values k n1 0 X1 X2 = Ok [].
Proof.
  unfold Challenge.kernel_values.
  induction n1 as [|n IH]; [reflexivity|].
  now rewrite for_range_S, IH.
Qed.

Lemma kernel_values_beyond (X1 X2 : list T) (n1 n2 : nat) :
  0 < n1 -> 0 < n2 -> length X1 < n1 \/ length X2 < n2 ->
  Challenge.kernel_values k n1 n2 X1 X2 = Raise IndexError.
Proof.
  intros H1 H2 Hout. unfold Challenge.kernel_values.
  destruct (Nat.le_gt_cases n2 (length X2)) as [Hcol|Hcol].
  - assert (Hrow : length X1 < n1) by (destruct Hout; [assumption|lia]).
    apply (for_range_raise_mono _ _ _ (S (length X1))); [|lia].
    rewrite for_range_S.
    pose proof (kernel_values_within X1 X2 (length X1) n2 (Nat.le_refl _) Hcol)
      as Hin.
    unfold Challenge.kernel_values in Hin. rewrite Hin. cbn [bind].
    now apply (inner_raises_row X1 X2 n2).
  - apply (for_range_raise_mono _ _ _ 1); [|lia].
    rewrite for_range_S. cbn [for_range seq fold_left bind].
    now apply (inner_raises_column X1 X2 n2).
Qed.

End LoopBounds.

(** X1.  The accumulation loops of [workflow] raise IndexError exactly when
    both bounds are positive and one of them exceeds its sample set; in
    every other case they return the kernel values of the first [n1]
    samples of [X1] against the first [n2] samples of [X2], in row-major
    order. *)
Theorem kernel_values_bounds :
  forall (T A : Type) (k : T -> T -> A) (n1 n2 : nat) (X1 X2 : list T),
    (0 < n1 /\ 0 < n2 /\ (length X1 < n1 \/ length X2 < n2) ->
     Challenge.kernel_values k n1 n2 X1 X2 = Raise IndexError) /\
    (~ (0 < n1 /\ 0 < n2 /\ (length X1 < n1 \/ length X2 < n2)) ->
     Challenge.kernel_values k n1 n2 X1 X2
     = Ok (concat (map (fun x1 => map (k x1) (firstn n2 X2))
                     (firstn n1 X1)))).
Proof.
  intros T A k n1 n2 X1 X2. split.
  - intros [H1 [H2 H]]. now apply kernel_values_beyond.
  - intros H. destruct n2 as [|n2].
    + rewrite kernel_values_no_columns. symmetry.
      induction (firstn n1 X1) as [|x l IH]; [reflexivity|exact IH].
    + destruct n1 as [|n1]; [reflexivity|].
      apply kernel_values_within; lia.
Qed.

Lemma kernel_values_bounds_witness :
  Challenge.kernel_values Nat.add 3 1 [10; 20] [1; 2] = Raise IndexError /\
  Challenge.kernel_values Nat.add 2 1 [10; 20] [1; 2] = Ok [11; 21].
Proof.
  split.
  - apply (proj1 (kernel_values_bounds nat nat Nat.add 3 1 [10; 20] [1; 2])).
    cbn. lia.
  - apply (proj2 (kernel_values_bounds nat nat Nat.add 2 1 [10; 20] [1; 2])).
    cbn. lia.
Defined.

(** ** The assembled matrix *)

Lemma kernel_rows_rect {T A} (k : T -> T -> A) (X1 X2 : list T) :
  Forall (fun r => length r = length X2)
    (map (fun x1 => map (k x1) X2) X1).
Proof.
  apply Forall_forall. intros r Hr. apply in_map_iff in Hr.
  destruct Hr as [x1 [<- _]]. apply length_map.
Qed.

Lemma workflow_K_matrix_full {T A} (k : T -> T -> A) (X1 X2 : list T) :
  Challenge.workflow_K_matrix k (length X1) (length X2) X1 X2
  = Ok (Np.Arr2 (length X2) (map (fun x1 => map (k x1) X2) X1)).
Proof.
  unfold Challenge.workflow_K_matrix.
  rewrite kernel_values_row_major. cbn [bind].
  unfold Challenge.construct_K_matrix, Np.reshape, Np.array.
  cbn [Np.ravel].
  pose proof (kernel_rows_rect k X1 X2) as Hrect.
  assert (Hn1 : length (map (fun x1 => map (k x1) X2) X1) = length X1)
    by apply length_map.
  rewrite (length_concat_rect _ _ Hrect), Hn1, Nat.eqb_refl.
  rewrite <- Hn1, (chunks_of_concat _ _ Hrect). reflexivity.
Qed.

(** X2.  With positive loop bounds, the fragment of [workflow] that builds
    a kernel matrix returns the matrix of all pairs when the bounds are the
    sizes of the two sample sets; it raises IndexError when a set is
    smaller than its bound, and ValueError (from [reshape]) when no set is
    smaller and one is larger. *)
Theorem workflow_K_matrix_bounds :
  forall (T A : Type) (k : T -> T -> A) (n1 n2 : nat) (X1 X2 : list T),
    0 < n1 -> 0 < n2 ->
    (length X1 = n1 /\ length X2 = n2 ->
     Challenge.workflow_K_matrix k n1 n2 X1 X2
     = Ok (Np.Arr2 n2 (map (fun x1 => map (k x1) X2) X1))) /\
    (length X1 < n1 \/ length X2 < n2 ->
     Challenge.workflow_K_matrix k n1 n2 X1 X2 = Raise IndexError) /\
    (n1 <= length X1 /\ n2 <= length X2 /\
     (n1 < length X1 \/ n2 < length X2) ->
     Challenge.workflow_K_matrix k n1 n2 X1 X2 = Raise ValueError).
Proof.
  intros T A k n1 n2 X1 X2 H1 H2. split; [|split].
  - intros [<- <-]. apply workflow_K_matrix_full.
  - intros Hout. unfold Challenge.workflow_K_matrix.
    now rewrite (kernel_values_beyond k X1 X2 n1 n2 H1 H2 Hout).
  - intros [L1 [L2 Hmore]]. unfold Challenge.workflow_K_matrix.
    rewrite (kernel_values_within k X1 X2 n1 n2 L1 L2). cbn [bind].
    unfold Challenge.construct_K_matrix, Np.reshape, Np.array.
    cbn [Np.ravel].
    assert (Hrect : Forall (fun r => length r = n2)
                      (map (fun x1 => map (k x1) (firstn n2 X2))
                         (firstn n1 X1))).
    { apply Forall_forall. intros r Hr. apply in_map_iff in Hr.
      destruct Hr as [x1 [<- _]].
      rewrite length_map, length_firstn. lia. }
    rewrite (length_concat_rect _ _ Hrect), length_map, length_firstn.
    replace (Nat.min n1 (length X1)) with n1 by lia.
    destruct (Nat.eqb_spec (n1 * n2) (length X1 * length X2)) as [E|E];
      [nia|reflexivity].
Qed.

Lemma workflow_K_matrix_bounds_witness :
  Challenge.workflow_K_matrix Nat.mul 2 1 [1; 2] [3]
    = Ok (Np.Arr2 1 [[3]; [6]]) /\
  Challenge.workflow_K_matrix Nat.mul 2 1 [1] [3] = Raise IndexError /\
  Challenge.workflow_K_matrix Nat.mul 2 1 [1; 2; 4] [3] = Raise ValueError.
Proof.
  split; [|split].
  - apply (proj1 (workflow_K_matrix_bounds nat nat Nat.mul 2 1 [1; 2] [3]
                    ltac:(lia) ltac:(lia))).
    split; reflexivity.
  - apply (proj1 (proj2 (workflow_K_matrix_bounds nat nat Nat.mul 2 1 [1] [3]
                           ltac:(lia) ltac:(lia)))).
    left. cbn. lia.
  - apply (proj2 (proj2 (workflow_K_matrix_bounds nat nat Nat.mul 2 1
                           [1; 2; 4] [3] ltac:(lia) ltac:(lia)))).
    cbn. lia.
Defined.

(** X3.  A symmetric kernel gives a symmetric matrix: built over one sample
    set against itself, by the loops and [construct_K_matrix] or by
    [qkernel_matrix], the matrix has equal entries at (i, j) and (j, i),
    and the kernel's value on a sample with itself along its diagonal. *)
Theorem gram_matrix_symmetric :
  forall (T A : Type) (k : T -> T -> A) (X : list T),
    (forall a b, In a X -> In b X -> k a b = k b a) ->
    exists M,
      Challenge.workflow_K_matrix k (length X) (length X) X X = Ok M /\
      (X <> [] -> Tutorial.qkernel_matrix k X X = Ok M) /\
      (forall i j, Np.get2 M i j = Np.get2 M j i) /\
      (forall i x, nth_error X i = Some x -> Np.get2 M i i = Some (k x x)).
Proof.
  intros T A k X Hsym.
  exists (Np.Arr2 (length X) (map (fun x1 => map (k x1) X) X)).
  split; [apply workflow_K_matrix_full|].
  split; [apply qkernel_matrix_nonempty|].
  assert (Hget : forall i j,
             Np.get2 (Np.Arr2 (length X) (map (fun x1 => map (k x1) X) X)) i j
             = match nth_error X i, nth_error X j with
               | Some a, Some b => Some (k a b)
               | _, _ => None
               end).
  { intros i j. cbn [Np.get2]. rewrite nth_error_map.
    destruct (nth_error X i) as [a|]; [|reflexivity]. cbn [option_map].
    rewrite nth_error_map. now destruct (nth_error X j). }
  split.
  - intros i j. rewrite !Hget.
    destruct (nth_error X i) as [a|] eqn:Ea, (nth_error X j) as [b|] eqn:Eb;
      try reflexivity.
    f_equal. apply Hsym; eapply nth_error_In; eauto.
  - intros i x Hx. now rewrite Hget, Hx.
Qed.

Lemma gram_matrix_symmetric_witness :
  exists M,
    Challenge.workflow_K_matrix Nat.add 2 2 [1; 5] [1; 5] = Ok M /\
    ([1; 5] <> [] -> Tutorial.qkernel_matrix Nat.add [1; 5] [1; 5] = Ok M) /\
    (forall i j, Np.get2 M i j = Np.get2 M j i) /\
    (forall i x, nth_error [1; 5] i = Some x -> Np.get2 M i i = Some (x + x)).
Proof.
  apply (gram_matrix_symmetric nat nat Nat.add [1; 5]).
  intros a b _ _. apply Nat.add_comm.
Defined.

(** X4.  Assembling and flattening are inverse to each other:
    [construct_K_matrix] of the C-order buffer of a rank-2 array of shape
    [(len(X1), len(X2))] returns that array, and the buffer of whatever
    [construct_K_matrix] returns is the sequence it was given. *)
Theorem construct_K_matrix_ravel :
  forall (A B C : Type) (X1 : list B) (X2 : list C),
    (forall (n2 : nat) (rows : list (list A)),
        Np.wf (Np.Arr2 n2 rows) ->
        Np.shape (Np.Arr2 n2 rows) = [length X1; length X2] ->
        Challenge.construct_K_matrix (Np.ravel (Np.Arr2 n2 rows)) X1 X2
        = Ok (Np.Arr2 n2 rows)) /\
    (forall (K : list A) (M : Np.ndarray A),
        Challenge.construct_K_matrix K X1 X2 = Ok M -> Np.ravel M = K).
Proof.
  intros A B C X1 X2. split.
  - intros n2 rows Hwf Hshape. cbn in Hwf, Hshape.
    injection Hshape as Hn1 Hn2. subst n2.
    unfold Challenge.construct_K_matrix, Np.reshape, Np.array.
    cbn [Np.ravel].
    rewrite (length_concat_rect _ _ Hwf), Hn1, Nat.eqb_refl.
    now rewrite <- Hn1, (chunks_of_concat _ _ Hwf).
  - intros K M. unfold Challenge.construct_K_matrix, Np.reshape, Np.array.
    cbn [Np.ravel].
    destruct (Nat.eqb_spec (length K) (length X1 * length X2)) as [E|E];
      [|discriminate].
    intros H. injection H as <-. cbn [Np.ravel].
    now apply chunks_concat.
Qed.

Lemma construct_K_matrix_ravel_witness :
  Challenge.construct_K_matrix (Np.ravel (Np.Arr2 2 [[1; 2]; [3; 4]; [5; 6]]))
    [tt; tt; tt] [tt; tt]
  = Ok (Np.Arr2 2 [[1; 2]; [3; 4]; [5; 6]]).
Proof.
  apply (proj1 (construct_K_matrix_ravel nat unit unit [tt; tt; tt] [tt; tt])).
  - repeat constructor.
  - reflexivity.
Defined.

(** ** The angle-embedding kernel in closed form *)

Section AngleKernel.
Local Open Scope R_scope.
Import Qml.

Lemma half_minus (a c : R) : (a - c) / 2 = a / 2 - c / 2.
Proof. field. Qed.

Lemma challenge_tape_two_features (a b c d : R) :
  Challenge.qkernel_tape [a; b] [c; d]
  = Ok [RX a W0; RX b W1; RX (- d) W1; RX (- c) W0].
Proof. reflexivity. Qed.

Lemma challenge_expval_closed_form (a b c d : R) :
  Challenge.qkernel_expval [a; b] [c; d]
  = Ok (cos ((a - c) / 2) * cos ((a - c) / 2)
        * (cos ((b - d) / 2) * cos ((b - d) / 2))).
Proof.
  unfold Challenge.qkernel_expval.
  rewrite challenge_tape_two_features. cbn [bind]. f_equal.
  rewrite expval_OPERATOR. unfold probability, Cnorm2.
  cbn [run fold_left apply_op amplitude]. unfold RX_matrix.
  rewrite !half_neg, !cos_neg, !sin_neg, !half_minus, !cos_minus.
  cbn. ring.
Qed.

Lemma cos_sq_le_1 (t : R) : 0 <= cos t * cos t <= 1.
Proof. pose proof (COS_bound t). nra. Qed.

Lemma cos_sq_lt_1 (t : R) : - PI < t < PI -> t <> 0 -> cos t * cos t < 1.
Proof.
  intros [Hlo Hhi] Hne.
  assert (Hpos : forall u, 0 < u < PI -> -1 < cos u < 1).
  { intros u [Hu0 Hu1]. split.
    - rewrite <- cos_PI. apply cos_decreasing_1; lra.
    - rewrite <- cos_0. apply cos_decreasing_1; lra. }
  destruct (Rlt_le_dec 0 t) as [Ht|Ht].
  - pose proof (Hpos t (conj Ht Hhi)). nra.
  - assert (Hu : 0 < - t < PI) by lra.
    pose proof (Hpos (- t) Hu) as H. rewrite cos_neg in H. nra.
Qed.

(** X5.  On two samples of two features the value that the challenge's
    [qkernel_circuit] estimates is the product, over the two features, of
    the squared cosine of half the difference of the feature values. *)
Theorem challenge_qkernel_closed_form :
  forall a b c d : R,
    Challenge.qkernel_expval [a; b] [c; d]
    = Ok (cos ((a - c) / 2) * cos ((a - c) / 2)
          * (cos ((b - d) / 2) * cos ((b - d) / 2))).
Proof. exact challenge_expval_closed_form. Qed.

(** X6.  The notebook's second sanity check holds where no two feature
    values are a full turn apart: for two distinct samples with all four
    feature values at least 0 and strictly below [2 * PI], the value the
    challenge's [qkernel_circuit] estimates is at least 0 and strictly
    below 1. *)
Theorem challenge_qkernel_below_one :
  forall a b c d : R,
    0 <= a < 2 * PI -> 0 <= b < 2 * PI ->
    0 <= c < 2 * PI -> 0 <= d < 2 * PI ->
    [a; b] <> [c; d] ->
    exists v, Challenge.qkernel_expval [a; b] [c; d] = Ok v /\ 0 <= v < 1.
Proof.
  intros a b c d Ha Hb Hc Hd Hne.
  rewrite challenge_expval_closed_form. eexists. split; [reflexivity|].
  pose proof (cos_sq_le_1 ((a - c) / 2)) as B1.
  pose proof (cos_sq_le_1 ((b - d) / 2)) as B2.
  split; [nra|].
  destruct (Req_dec_T a c) as [Eac|Nac].
  - assert (Nbd : b <> d) by (intros ->; apply Hne; now rewrite Eac).
    assert (S2 : cos ((b - d) / 2) * cos ((b - d) / 2) < 1)
      by (apply cos_sq_lt_1; lra).
    nra.
  - assert (S1 : cos ((a - c) / 2) * cos ((a - c) / 2) < 1)
      by (apply cos_sq_lt_1; lra).
    nra.
Qed.

Lemma challenge_qkernel_below_one_witness :
  exists v, Challenge.qkernel_expval [0; 0] [1; 0] = Ok v /\ 0 <= v < 1.
Proof.
  pose proof PI2_1 as HPI.
  apply (challenge_qkernel_below_one 0 0 1 0); try lra.
  intros H. injection H as H. lra.
Defined.

End AngleKernel.

(** ** Full turns, value range and rejected samples *)

Section Turns.
Local Open Scope R_scope.
Import Qml.

Ltac C_ring := apply C_eq; cbn; ring.

Lemma half_turn (theta : R) : (theta + 2 * PI) / 2 = theta / 2 + PI.
Proof. field. Qed.

Lemma RX_full_turn (theta : R) (w : wire) (s : state) :
  apply_op (RX (theta + 2 * PI) w) s = state_neg (apply_op (RX theta w) s).
Proof.
  cbn [apply_op]. unfold RX_matrix, state_neg.
  rewrite half_turn, neg_cos, neg_sin.
  destruct w; apply state_eq; C_ring.
Qed.

Lemma apply_op_neg (o : op) (s : state) :
  apply_op o (state_neg s) = state_neg (apply_op o s).
Proof.
  unfold state_neg.
  destruct o as [theta w|theta w|w|theta]; cbn [apply_op];
    try (destruct w); apply state_eq; C_ring.
Qed.

Lemma run_neg (ops : list op) (s : state) :
  run ops (state_neg s) = state_neg (run ops s).
Proof.
  revert s; induction ops as [|o ops IH]; intros s; [reflexivity|].
  cbn [run fold_left]. fold (run ops (apply_op o (state_neg s))).
  fold (run ops (apply_op o s)). now rewrite apply_op_neg, IH.
Qed.

Lemma state_neg_involutive (s : state) : state_neg (state_neg s) = s.
Proof. destruct s as [[] [] [] []]. unfold state_neg. apply state_eq; C_ring. Qed.

Lemma probability_neg (s : state) (o : outcome) :
  probability (state_neg s) o = probability s o.
Proof.
  unfold probability, Cnorm2, state_neg.
  destruct o as [[|] [|]]; cbn; ring.
Qed.

(** Shifting one angle of an angle embedding by a full turn negates the
    prepared state. *)
Lemma angle_full_turn_0 (a b : R) (s : state) :
  run [RX (a + 2 * PI) W0; RX b W1] s = state_neg (run [RX a W0; RX b W1] s).
Proof.
  cbn [run fold_left]. now rewrite RX_full_turn, apply_op_neg.
Qed.

Lemma angle_full_turn_1 (a b : R) (s : state) :
  run [RX a W0; RX (b + 2 * PI) W1] s = state_neg (run [RX a W0; RX b W1] s).
Proof.
  cbn [run fold_left]. now rewrite RX_full_turn.
Qed.

Lemma challenge_full_turn (a b a' b' : R) (x2 : list R) :
  (forall s, run [RX a' W0; RX b' W1] s
             = state_neg (run [RX a W0; RX b W1] s)) ->
  Challenge.qkernel_expval [a'; b'] x2 = Challenge.qkernel_expval [a; b] x2.
Proof.
  intros Hneg.
  unfold Challenge.qkernel_expval, Challenge.qkernel_tape.
  change (AngleEmbedding [a'; b']) with (Ok [RX a' W0; RX b' W1]).
  change (AngleEmbedding [a; b]) with (Ok [RX a W0; RX b W1]).
  cbn [bind]. destruct (AngleEmbedding x2) as [o2|e]; [|reflexivity].
  cbn [bind]. f_equal.
  now rewrite !expval_OPERATOR, !run_app, Hneg, run_neg, probability_neg.
Qed.

Lemma tutorial_full_turn (w : R * R * R) (a b a' b' : R) (x2 : list R) :
  (forall s, run [RX a' W0; RX b' W1] s
             = state_neg (run [RX a W0; RX b W1] s)) ->
  Tutorial.qkernel_expval w [a'; b'] x2 = Tutorial.qkernel_expval w [a; b] x2.
Proof.
  intros Hneg. destruct w as [[w0 w1] w2].
  unfold Tutorial.qkernel_expval, Tutorial.qkernel_tape.
  change (QAOAEmbedding [a'; b'] [(w0, w1, w2)])
    with (Ok ([RX a' W0; RX b' W1]
              ++ [MultiRZ w0; RY w1 W0; RY w2 W1]
              ++ [RX a' W0; RX b' W1])).
  change (QAOAEmbedding [a; b] [(w0, w1, w2)])
    with (Ok ([RX a W0; RX b W1]
              ++ [MultiRZ w0; RY w1 W0; RY w2 W1]
              ++ [RX a W0; RX b W1])).
  cbn [bind]. destruct (QAOAEmbedding x2 [(w0, w1, w2)]) as [o2|e];
    [|reflexivity].
  cbn [bind]. f_equal. f_equal.
  now rewrite !run_app, !Hneg, !run_neg, state_neg_involutive.
Qed.

(** X7.  Both kernels are periodic: adding [2 * PI] to either feature of
    either sample leaves the value that [qkernel_circuit] estimates
    unchanged, so feature values a full turn apart are not told apart. *)
Theorem qkernel_periodic :
  forall (a b : R) (x : list R),
    (Challenge.qkernel_expval [a + 2 * PI; b] x
       = Challenge.qkernel_expval [a; b] x /\
     Challenge.qkernel_expval [a; b + 2 * PI] x
       = Challenge.qkernel_expval [a; b] x /\
     Challenge.qkernel_expval x [a + 2 * PI; b]
       = Challenge.qkernel_expval x [a; b] /\
     Challenge.qkernel_expval x [a; b + 2 * PI]
       = Challenge.qkernel_expval x [a; b]) /\
    (forall w,
        Tutorial.qkernel_expval w [a + 2 * PI; b] x
          = Tutorial.qkernel_expval w [a; b] x /\
        Tutorial.qkernel_expval w [a; b + 2 * PI] x
          = Tutorial.qkernel_expval w [a; b] x /\
        Tutorial.qkernel_expval w x [a + 2 * PI; b]
          = Tutorial.qkernel_expval w x [a; b] /\
        Tutorial.qkernel_expval w x [a; b + 2 * PI]
          = Tutorial.qkernel_expval w x [a; b]).
Proof.
  intros a b x. split.
  - repeat split.
    + apply challenge_full_turn, angle_full_turn_0.
    + apply challenge_full_turn, angle_full_turn_1.
    + rewrite !(challenge_expval_symmetric x).
      apply challenge_full_turn, angle_full_turn_0.
    + rewrite !(challenge_expval_symmetric x).
      apply challenge_full_turn, angle_full_turn_1.
  - intros w. repeat split.
    + apply tutorial_full_turn, angle_full_turn_0.
    + apply tutorial_full_turn, angle_full_turn_1.
    + rewrite !(tutorial_expval_symmetric w x).
      apply tutorial_full_turn, angle_full_turn_0.
    + rewrite !(tutorial_expval_symmetric w x).
      apply tutorial_full_turn, angle_full_turn_1.
Qed.

(** X8.  [qkernel_circuit] raises ValueError exactly when one of the two
    samples has more than two features; otherwise it returns, and on any
    device that reports at least one shot, noisy or not, the value lies
    between 0 and 1.  The value it estimates lies between 0 and 1 as
    well. *)
Theorem qkernel_circuit_value_range :
  forall (dev : Device) (g : dev_rng dev) (w : R * R * R) (x1 x2 : list R),
    ((2 < length x1 \/ 2 < length x2)%nat ->
     Challenge.qkernel_circuit dev g x1 x2 = Raise ValueError /\
     Tutorial.qkernel_circuit dev g w x1 x2 = Raise ValueError) /\
    ((length x1 <= 2 /\ length x2 <= 2)%nat ->
     (forall s, sample dev g s <> []) ->
     exists vc vt pc pt,
       Challenge.qkernel_circuit dev g x1 x2 = Ok vc /\ 0 <= vc <= 1 /\
       Tutorial.qkernel_circuit dev g w x1 x2 = Ok vt /\ 0 <= vt <= 1 /\
       Challenge.qkernel_expval x1 x2 = Ok pc /\ 0 <= pc <= 1 /\
       Tutorial.qkernel_expval w x1 x2 = Ok pt /\ 0 <= pt <= 1).
Proof.
  intros dev g w x1 x2. split.
  - intros Hlong.
    unfold Challenge.qkernel_circuit, Tutorial.qkernel_circuit,
      Challenge.qkernel_tape, Tutorial.qkernel_tape,
      AngleEmbedding, QAOAEmbedding.
    change (length wires) with 2%nat.
    destruct (Nat.ltb_spec 2 (length x1)), (Nat.ltb_spec 2 (length x2));
      cbn [bind]; try (split; reflexivity).
    lia.
  - intros [L1 L2] Hshots.
    unfold Challenge.qkernel_circuit, Tutorial.qkernel_circuit,
      Challenge.qkernel_expval, Tutorial.qkernel_expval,
      Challenge.qkernel_tape, Tutorial.qkernel_tape,
      AngleEmbedding, QAOAEmbedding.
    change (length wires) with 2%nat.
    rewrite (proj2 (Nat.ltb_ge 2 (length x1)) L1),
            (proj2 (Nat.ltb_ge 2 (length x2)) L2).
    cbn [bind]. do 4 eexists.
    repeat (split; [reflexivity|]).
    repeat split; unfold execute;
      try (apply sample_mean_range, Hshots);
      rewrite expval_OPERATOR; apply probability_range.
Qed.

Lemma qkernel_circuit_value_range_witness :
  (Challenge.qkernel_circuit steady_device tt [1; 2; 3] [1; 2]
     = Raise ValueError /\
   Tutorial.qkernel_circuit steady_device tt (1, 1, 1) [1; 2; 3] [1; 2]
     = Raise ValueError) /\
  exists vc vt pc pt,
    Challenge.qkernel_circuit steady_device tt [1; 2] [3] = Ok vc /\
    0 <= vc <= 1 /\
    Tutorial.qkernel_circuit steady_device tt (1, 1, 1) [1; 2] [3] = Ok vt /\
    0 <= vt <= 1 /\
    Challenge.qkernel_expval [1; 2] [3] = Ok pc /\ 0 <= pc <= 1 /\
    Tutorial.qkernel_expval (1, 1, 1) [1; 2] [3] = Ok pt /\ 0 <= pt <= 1.
Proof.
  split.
  - apply (proj1 (qkernel_circuit_value_range steady_device tt (1, 1, 1)
                    [1; 2; 3] [1; 2])).
    left. cbn. lia.
  - apply (proj2 (qkernel_circuit_value_range steady_device tt (1, 1, 1)
                    [1; 2] [3])).
    + cbn. lia.
    + intros s. cbn. discriminate.
Defined.

End Turns.

(** ** What the loader does to the features *)

Section LoaderAffine.
Local Open Scope R_scope.
#[local] Arguments MinMaxScaler.col_reduce : simpl never.

Lemma mask_map {A B} (f : A -> B) (idx : list bool) (l : list A) :
  map snd (filter fst (combine idx (map f l)))
  = map f (map snd (filter fst (combine idx l))).
Proof.
  revert idx; induction l as [|a l IH]; intros [|b idx]; try reflexivity.
  cbn [map combine filter fst]. destruct b; cbn [map snd]; now rewrite IH.
Qed.

Lemma slice_9_11 (row : list R) :
  length row = 13%nat ->
  firstn 2 (skipn 9 row) = [nth 9 row 0; nth 10 row 0].
Proof.
  intros H. do 13 (destruct row as [|? row]; [discriminate H|]).
  reflexivity.
Qed.








End LoaderAffine.

(** ** Sizes and coverage of the splits *)

Lemma Zpos_of_nat (n : nat) : 0 < n -> Z.pos (Pos.of_nat n) = Z.of_nat n.
Proof.
  intros H. rewrite <- (positive_nat_Z (Pos.of_nat n)).
  now rewrite Nat2Pos.id by lia.
Qed.

(** The first split of the challenge asks for [N_TOT / len(X)] of the
    samples: eight of them, once there are more than eight. *)
Lemma validate_challenge_first (n : nat) :
  8 < n ->
  Sklearn.validate_shuffle_split n (Z.of_nat Challenge.N_TOT # Pos.of_nat n)
  = Ok (n - 8, 8).
Proof.
  intros H. unfold Sklearn.validate_shuffle_split, Challenge.N_TOT,
    Challenge.N_TRAIN, Challenge.N_TEST.
  change (Z.of_nat (2 + 6)) with 8%Z.
  assert (E1 : Qle_bool (8 # Pos.of_nat n) 0 = false).
  { unfold Qle_bool. cbn [Qnum Qden]. apply Z.leb_gt. lia. }
  assert (E2 : Qle_bool 1 (8 # Pos.of_nat n) = false).
  { unfold Qle_bool. cbn [Qnum Qden]. apply Z.leb_gt.
    rewrite Zpos_of_nat by lia. lia. }
  rewrite E1, E2. cbn [orb].
  assert (E3 : Qceiling ((8 # Pos.of_nat n) * inject_Z (Z.of_nat n)) = 8%Z).
  { unfold Qceiling, Qfloor, Qopp, Qmult, inject_Z. cbn [Qnum Qden].
    rewrite Pos.mul_1_r, Zpos_of_nat by lia.
    rewrite <- Z.mul_opp_l, Z.div_mul by lia. reflexivity. }
  rewrite E3. change (Z.to_nat 8) with 8.
  destruct (Nat.eqb_spec (n - 8) 0) as [E|E]; [lia|reflexivity].
Qed.

Lemma validate_challenge_small (n : nat) :
  0 < n <= 8 ->
  Sklearn.validate_shuffle_split n (Z.of_nat Challenge.N_TOT # Pos.of_nat n)
  = Raise ValueError.
Proof.
  intros H. unfold Sklearn.validate_shuffle_split, Challenge.N_TOT,
    Challenge.N_TRAIN, Challenge.N_TEST.
  change (Z.of_nat (2 + 6)) with 8%Z.
  assert (E2 : Qle_bool 1 (8 # Pos.of_nat n) = true).
  { unfold Qle_bool. cbn [Qnum Qden]. apply Z.leb_le.
    rewrite Zpos_of_nat by lia. lia. }
  rewrite E2, orb_true_r. reflexivity.
Qed.

Lemma ceil_quarter (z : Z) :
  (0 <= z)%Z -> Z.of_nat (Z.to_nat (- (- z / 4))) = ((z + 3) / 4)%Z.
Proof.
  intros H.
  pose proof (Z.div_mod (- z) 4 ltac:(lia)).
  pose proof (Z.mod_pos_bound (- z) 4 ltac:(lia)).
  pose proof (Z.div_mod (z + 3) 4 ltac:(lia)).
  pose proof (Z.mod_pos_bound (z + 3) 4 ltac:(lia)).
  lia.
Qed.

(** A quarter of the samples, rounded up, goes to the test part. *)
Lemma validate_quarter (n n_train n_test : nat) :
  Sklearn.validate_shuffle_split n (1 # 4) = Ok (n_train, n_test) ->
  n_test = (n + 3) / 4 /\ n_train = n - (n + 3) / 4 /\ 2 <= n.
Proof.
  unfold Sklearn.validate_shuffle_split.
  change (Qle_bool (1 # 4) 0 || Qle_bool 1 (1 # 4)) with false.
  cbv iota.
  assert (E : Z.to_nat (Qceiling ((1 # 4) * inject_Z (Z.of_nat n)))
              = (n + 3) / 4).
  { unfold Qceiling, Qfloor, Qopp, Qmult, inject_Z. cbn [Qnum Qden].
    change (Z.pos (4 * 1)) with 4%Z. rewrite Z.mul_1_l.
    apply Nat2Z.inj. rewrite Nat2Z.inj_div, Nat2Z.inj_add.
    change (Z.of_nat 3) with 3%Z. change (Z.of_nat 4) with 4%Z.
    apply ceil_quarter. lia. }
  rewrite E.
  destruct (Nat.eqb_spec (n - (n + 3) / 4) 0) as [E0|E0]; [discriminate|].
  intros H. injection H as <- <-.
  split; [reflexivity|]. split; [reflexivity|].
  destruct n as [|[|n]]; [cbn in E0; lia|cbn in E0; lia|lia].
Qed.

Lemma nth_error_combine {A B} (l1 : list A) (l2 : list B) (i : nat)
    (a : A) (b : B) :
  nth_error l1 i = Some a -> nth_error l2 i = Some b ->
  nth_error (combine l1 l2) i = Some (a, b).
Proof.
  revert l2 i; induction l1 as [|x l1 IH]; intros [|z l2] [|i]; cbn;
    try discriminate.
  - now intros [= ->] [= ->].
  - apply IH.
Qed.

(** Taking rows and labels at the same indices keeps every row with its
    label. *)
Lemma take_combine {A B} (l1 : list A) (l2 : list B) (idx : list nat)
    (r1 : list A) (r2 : list B) :
  Sklearn.take l1 idx = Ok r1 -> Sklearn.take l2 idx = Ok r2 ->
  Sklearn.take (combine l1 l2) idx = Ok (combine r1 r2).
Proof.
  intros H1 H2. apply take_spec in H1. apply take_spec in H2.
  apply take_of_spec. revert r2 H2.
  induction H1 as [|i a idx r1 Hi _ IH]; intros r2 H2.
  - inversion H2. constructor.
  - inversion H2 as [|i' b idx' r2' Hb Hrest]; subst.
    cbn [combine]. constructor.
    + now apply nth_error_combine.
    + now apply IH.
Qed.

Lemma take_app {A} (l : list A) (i1 i2 : list nat) (r1 r2 : list A) :
  Sklearn.take l i1 = Ok r1 -> Sklearn.take l i2 = Ok r2 ->
  Sklearn.take l (i1 ++ i2) = Ok (r1 ++ r2).
Proof.
  intros H1 H2. apply take_of_spec. apply Forall2_app; now apply take_spec.
Qed.

Lemma take_all_from {A} (pre l : list A) :
  Forall2 (fun i a => nth_error (pre ++ l) i = Some a)
    (seq (length pre) (length l)) l.
Proof.
  revert pre; induction l as [|a l IH]; intros pre; cbn [length seq].
  - constructor.
  - constructor.
    + rewrite nth_error_app2 by lia. now rewrite Nat.sub_diag.
    + specialize (IH (pre ++ [a])).
      rewrite <- app_assoc, length_app in IH. cbn [length app] in IH.
      now rewrite Nat.add_1_r in IH.
Qed.

(** [l[range(len(l))]] is [l]. *)
Lemma take_all {A} (l : list A) :
  Sklearn.take l (seq 0 (length l)) = Ok l.
Proof. apply take_of_spec. exact (take_all_from [] l). Qed.

(** Indices that are distinct, in range and as many as the samples are all
    the indices. *)
Lemma indices_exhaust (idx : list nat) (n : nat) :
  NoDup idx -> Forall (fun i => i < n) idx -> length idx = n ->
  Permutation idx (seq 0 n).
Proof.
  intros Hnd Hr Hl. apply NoDup_Permutation_bis.
  - assumption.
  - rewrite length_seq. lia.
  - intros i Hi. rewrite Forall_forall in Hr. apply in_seq.
    specialize (Hr i Hi). lia.
Qed.

(** Rows taken at all the indices, in any order, are all the rows. *)
Lemma take_exhaust {A} (l : list A) (idx : list nat) (r : list A) :
  NoDup idx -> Forall (fun i => i < length l) idx ->
  length idx = length l ->
  Sklearn.take l idx = Ok r ->
  Permutation r l.
Proof.
  intros Hnd Hr Hl Ht.
  pose proof (indices_exhaust idx (length l) Hnd Hr Hl) as Hp.
  destruct (Permutation_Forall2 Hp (take_spec _ _ _ Ht)) as [r' [Hp' Hf]].
  apply take_of_spec in Hf. rewrite take_all in Hf.
  injection Hf as <-. exact Hp'.
Qed.

(** A split returned by the challenge [partition_data] has the requested
    sizes. *)
Lemma challenge_partition_lengths (sp : Sklearn.Splitter) {A} (X : list A)
    (y : list Z) (g : Sklearn.rng sp) (Xtr Xte : list A)
    (ytr yte : list Z) :
  Sklearn.split_contract sp ->
  fst (Challenge.partition_data sp X y g) = Ok (Xtr, Xte, ytr, yte) ->
  8 < length X /\ length y = length X /\
  length Xtr = Challenge.N_TRAIN /\ length Xte = Challenge.N_TEST /\
  length ytr = Challenge.N_TRAIN /\ length yte = Challenge.N_TEST.
Proof.
  intros Hc. unfold Challenge.partition_data.
  destruct (Nat.eqb_spec (length X) 0) as [E|Hpos]; [discriminate|].
  destruct (Sklearn.train_test_split sp X y _ _ y g) as [r0 g0] eqn:E0.
  assert (E0' : fst (Sklearn.train_test_split sp X y
                       (Z.of_nat Challenge.N_TOT # Pos.of_nat (length X))
                       (Sklearn.RS_Int Challenge.RANDOM_SEED) y g) = r0)
    by now rewrite E0.
  destruct r0 as [[[[Xr X0] yr] y0]|e]; [|discriminate].
  intros H.
  destruct (train_test_split_inv sp X y _ _ g _ Hc E0')
    as [n_tr1 [n_te1 [tr1 [te1 [Hv1 [Hlen1 [Hok1 Hs1]]]]]]].
  destruct (train_test_split_inv sp X0 y0 _ _ g0 _ Hc H)
    as [n_tr2 [n_te2 [tr2 [te2 [Hv2 [Hlen2 [Hok2 Hs2]]]]]]].
  destruct (split_okb_spec _ _ _ _ _ Hok1) as [_ [L1 _]].
  destruct (split_okb_spec _ _ _ _ _ Hok2) as [L2 [L2' _]].
  destruct Hs1 as [_ [HX0 _]].
  destruct Hs2 as [HXtr [HXte [Hytr Hyte]]].
  assert (Hbig : 8 < length X).
  { destruct (Nat.le_gt_cases (length X) 8) as [Hle|Hgt]; [|assumption].
    rewrite validate_challenge_small in Hv1 by lia. discriminate. }
  rewrite (validate_challenge_first _ Hbig) in Hv1.
  injection Hv1 as <- <-.
  assert (LX0 : length X0 = 8)
    by now rewrite (take_length _ _ _ HX0).
  rewrite LX0 in Hv2. vm_compute in Hv2. injection Hv2 as <- <-.
  rewrite (take_length _ _ _ HXtr), (take_length _ _ _ HXte),
    (take_length _ _ _ Hytr), (take_length _ _ _ Hyte).
  unfold Challenge.N_TRAIN, Challenge.N_TEST. repeat split; lia.
Qed.

(** X10.  The challenge [partition_data] divides by the number of samples:
    on no samples it raises ZeroDivisionError; on one to eight samples the
    requested test share [N_TOT / len(X)] is at least 1 and it raises
    ValueError.  With a splitter that keeps scikit-learn's contract, a
    returned split comes from more than eight samples, as many labels as
    samples, and holds exactly [N_TRAIN = 6] training and [N_TEST = 2] test
    samples with as many labels. *)
Theorem challenge_partition_sizes :
  forall (sp : Sklearn.Splitter) (A : Type) (X : list A) (y : list Z)
         (g : Sklearn.rng sp),
    (length X = 0 ->
     fst (Challenge.partition_data sp X y g) = Raise ZeroDivisionError) /\
    (0 < length X <= 8 ->
     fst (Challenge.partition_data sp X y g) = Raise ValueError) /\
    (Sklearn.split_contract sp ->
     forall X_train X_test y_train y_test,
       fst (Challenge.partition_data sp X y g)
         = Ok (X_train, X_test, y_train, y_test) ->
       8 < length X /\ length y = length X /\
       length X_train = Challenge.N_TRAIN /\
       length X_test = Challenge.N_TEST /\
       length y_train = Challenge.N_TRAIN /\
       length y_test = Challenge.N_TEST).
Proof.
  intros sp A X y g. split; [|split].
  - intros H. unfold Challenge.partition_data. now rewrite H.
  - intros H. unfold Challenge.partition_data.
    destruct (Nat.eqb_spec (length X) 0) as [E|_]; [lia|].
    unfold Sklearn.train_test_split at 1.
    destruct (negb ((length X =? length y) && (length X =? length y)));
      [reflexivity|].
    now rewrite (validate_challenge_small _ H).
  - intros Hc Xtr Xte ytr yte.
    exact (challenge_partition_lengths sp X y g Xtr Xte ytr yte Hc).
Qed.

Lemma challenge_partition_sizes_witness :
  fst (Challenge.partition_data checked_splitter (@nil nat) [] tt)
    = Raise ZeroDivisionError /\
  fst (Challenge.partition_data checked_splitter [1; 2; 3]
         [0; 1; 0]%Z tt) = Raise ValueError /\
  (8 < length (seq 100 16) /\
   length [0; 1; 0; 1; 0; 1; 0; 1; 0; 1; 0; 1; 0; 1; 0; 1]%Z
     = length (seq 100 16) /\
   length [108; 109; 110; 111; 112; 113] = Challenge.N_TRAIN /\
   length [114; 115] = Challenge.N_TEST /\
   length [0; 1; 0; 1; 0; 1]%Z = Challenge.N_TRAIN /\
   length [0; 1]%Z = Challenge.N_TEST).
Proof.
  split; [|split].
  - apply (proj1 (challenge_partition_sizes checked_splitter nat [] [] tt)).
    reflexivity.
  - apply (proj1 (proj2 (challenge_partition_sizes checked_splitter nat
                           [1; 2; 3] [0; 1; 0]%Z tt))).
    cbn. lia.
  - apply (proj2 (proj2 (challenge_partition_sizes checked_splitter nat
                           (seq 100 16)
                           [0; 1; 0; 1; 0; 1; 0; 1; 0; 1; 0; 1; 0; 1; 0; 1]%Z
                           tt)) checked_splitter_contract).
    vm_compute. reflexivity.
Defined.

(** X11.  With a splitter that keeps scikit-learn's contract, the tutorial
    [partition_data] loses and repeats nothing: the training and test
    samples together, each with its label, are a rearrangement of the
    samples it was given with theirs.  The test part holds a quarter of the
    samples, rounded up, and a split is returned only for two samples or
    more. *)
Theorem tutorial_partition_covers :
  forall (sp : Sklearn.Splitter) (A : Type) (X : list A) (y : list Z)
         (g : Sklearn.rng sp) (X_train X_test : list A)
         (y_train y_test : list Z),
    Sklearn.split_contract sp ->
    fst (Tutorial.partition_data sp X y g)
      = Ok (X_train, X_test, y_train, y_test) ->
    Permutation (combine X_train y_train ++ combine X_test y_test)
      (combine X y) /\
    Permutation (X_train ++ X_test) X /\
    Permutation (y_train ++ y_test) y /\
    length X_test = (length X + 3) / 4 /\
    length X_train = length X - (length X + 3) / 4 /\
    2 <= length X.
Proof.
  intros sp A X y g Xtr Xte ytr yte Hc H.
  unfold Tutorial.partition_data in H.
  destruct (train_test_split_inv sp X y _ _ g _ Hc H)
    as [n_tr [n_te [tr [te [Hv [Hlen [Hok Hs]]]]]]].
  destruct (split_okb_spec _ _ _ _ _ Hok) as [Ltr [Lte [Hnd [Hr _]]]].
  destruct (validate_quarter _ _ _ Hv) as [Hte [Htr H2]].
  destruct Hs as [HXtr [HXte [Hytr Hyte]]].
  assert (Hq : (length X + 3) / 4 < length X).
  { destruct (validate_shuffle_split_inv _ _ _ _ Hv) as [E Hne]. lia. }
  assert (Hall : length (tr ++ te) = length X)
    by (rewrite length_app; lia).
  assert (HrX : Forall (fun i => i < length X) (tr ++ te))
    by now rewrite Hlen.
  split; [|split; [|split; [|split; [|split]]]].
  - apply (take_exhaust (combine X y) (tr ++ te)).
    + assumption.
    + rewrite length_combine, <- Hlen, Nat.min_id. assumption.
    + rewrite length_combine, <- Hlen, Nat.min_id. assumption.
    + apply take_app; now apply take_combine.
  - apply (take_exhaust X (tr ++ te)); try assumption.
    now apply take_app.
  - apply (take_exhaust y (tr ++ te)); try assumption.
    + now rewrite <- Hlen.
    + now apply take_app.
  - rewrite (take_length _ _ _ HXte). lia.
  - rewrite (take_length _ _ _ HXtr). lia.
  - assumption.
Qed.

Lemma tutorial_partition_covers_witness :
  Permutation
    (combine (seq 100 12) [0; 1; 0; 1; 0; 1; 0; 1; 0; 1; 0; 1]%Z
     ++ combine (seq 112 4) [0; 1; 0; 1]%Z)
    (combine (seq 100 16)
       [0; 1; 0; 1; 0; 1; 0; 1; 0; 1; 0; 1; 0; 1; 0; 1]%Z) /\
  Permutation (seq 100 12 ++ seq 112 4) (seq 100 16) /\
  Permutation ([0; 1; 0; 1; 0; 1; 0; 1; 0; 1; 0; 1]%Z ++ [0; 1; 0; 1]%Z)
    [0; 1; 0; 1; 0; 1; 0; 1; 0; 1; 0; 1; 0; 1; 0; 1]%Z /\
  length (seq 112 4) = (length (seq 100 16) + 3) / 4 /\
  length (seq 100 12) = length (seq 100 16) - (length (seq 100 16) + 3) / 4 /\
  2 <= length (seq 100 16).
Proof.
  apply (tutorial_partition_covers checked_splitter nat (seq 100 16)
           [0; 1; 0; 1; 0; 1; 0; 1; 0; 1; 0; 1; 0; 1; 0; 1]%Z tt
           (seq 100 12) (seq 112 4)
           [0; 1; 0; 1; 0; 1; 0; 1; 0; 1; 0; 1]%Z [0; 1; 0; 1]%Z
           checked_splitter_contract).
  vm_compute. reflexivity.
Defined.

(** ** The workflows between their external calls *)

(** A split returned by the tutorial [partition_data] has a quarter of the
    samples, rounded up, in its test part, the rest in its training part,
    and neither part is empty. *)
Lemma tutorial_partition_lengths (sp : Sklearn.Splitter) {A} (X : list A)
    (y : list Z) (g : Sklearn.rng sp) (Xtr Xte : list A)
    (ytr yte : list Z) :
  Sklearn.split_contract sp ->
  fst (Tutorial.partition_data sp X y g) = Ok (Xtr, Xte, ytr, yte) ->
  length Xte = (length X + 3) / 4 /\
  length Xtr = length X - (length X + 3) / 4 /\
  length ytr = length Xtr /\ length yte = length Xte /\
  0 < length Xtr /\ 0 < length Xte.
Proof.
  intros Hc H. unfold Tutorial.partition_data in H.
  destruct (train_test_split_inv sp X y _ _ g _ Hc H)
    as [n_tr [n_te [tr [te [Hv [Hlen [Hok Hs]]]]]]].
  destruct (split_okb_spec _ _ _ _ _ Hok) as [Ltr [Lte _]].
  destruct (validate_quarter _ _ _ Hv) as [Hte [Htr H2]].
  destruct (validate_shuffle_split_inv _ _ _ _ Hv) as [_ Hne].
  destruct Hs as [HXtr [HXte [Hytr Hyte]]].
  rewrite (take_length _ _ _ HXtr), (take_length _ _ _ HXte),
    (take_length _ _ _ Hytr), (take_length _ _ _ Hyte).
  assert (Hq : 0 < (length X + 3) / 4).
  { apply Nat.div_str_pos. lia. }
  repeat split; lia.
Qed.

(** The row-major values of all pairs are assembled into the matrix of
    all pairs. *)
Lemma construct_K_matrix_of_rows {T A} (k : T -> T -> A) (X1 X2 : list T) :
  Challenge.construct_K_matrix
    (concat (map (fun x1 => map (k x1) X2) X1)) X1 X2
  = Ok (Np.Arr2 (length X2) (map (fun x1 => map (k x1) X2) X1)).
Proof.
  unfold Challenge.construct_K_matrix, Np.reshape, Np.array.
  cbn [Np.ravel].
  rewrite (length_concat_rect (length X2)) by apply kernel_rows_rect.
  rewrite length_map, Nat.eqb_refl.
  replace (length X1)
    with (length (map (fun x1 => map (k x1) X2) X1)) by apply length_map.
  now rewrite chunks_of_concat by apply kernel_rows_rect.
Qed.

Lemma confusion_matrix_returns (y_true y_pred : list Z) :
  length y_true = length y_pred ->
  exists M, Sklearn.confusion_matrix y_true y_pred = Ok M.
Proof.
  intros H. unfold Sklearn.confusion_matrix.
  rewrite H, Nat.eqb_refl. cbn [negb]. eauto.
Qed.

(** X12.  Between their external calls the workflows raise nothing.  With a
    splitter and a classifier that keep scikit-learn's contracts, once the
    data is loaded, the split is returned and the classifier fits the
    training kernel matrix and predicts from the test kernel matrix, the
    loops over [range(N_TRAIN)] and [range(N_TEST)], both
    [construct_K_matrix] calls and [confusion_matrix] succeed and
    [workflow] returns the split, the predictions and the confusion matrix
    of the test labels and the predictions.  The kernel matrices handed to
    the classifier hold the device's value for every pair of samples. *)
Theorem workflow_completes :
  forall (E : Externals) (g : Sklearn.rng (splitter E))
         (X X_train X_test : list (list R)) (y y_train y_test y_pred : list Z)
         (m : Sklearn.svc_model (svc E)),
    Sklearn.split_contract (splitter E) ->
    Sklearn.svc_contract (svc E) ->
    train_qsvm (svc E)
      (Np.Arr2 (length X_train)
         (map (fun x1 => map (device_kernel E x1) X_train) X_train))
      y_train = Ok m ->
    Sklearn.svc_predict (svc E) m
      (Np.Arr2 (length X_train)
         (map (fun x1 => map (device_kernel E x1) X_train) X_test))
      = Ok y_pred ->
    (Challenge.get_data (load_wine E) = Ok (X, y) ->
     fst (Challenge.partition_data (splitter E) X y g)
       = Ok (X_train, X_test, y_train, y_test) ->
     exists M_conf,
       Sklearn.confusion_matrix y_test y_pred = Ok M_conf /\
       Challenge.workflow E g
       = Ok ((X_train, X_test, y_train, y_test), y_pred, M_conf)) /\
    (Tutorial.get_data (load_wine E) = Ok (X, y) ->
     fst (Tutorial.partition_data (splitter E) X y g)
       = Ok (X_train, X_test, y_train, y_test) ->
     exists M_conf,
       Sklearn.confusion_matrix y_test y_pred = Ok M_conf /\
       Tutorial.workflow E g
       = Ok ((X_train, X_test, y_train, y_test), y_pred, M_conf)).
Proof.
  intros E g X Xtr Xte y ytr yte yp m Hc Hsvc Hfit Hpred.
  destruct (Hsvc _ _ _ _ _ Hfit Hpred) as [Lp _].
  cbn [Np.len] in Lp. rewrite length_map in Lp.
  split; intros Hdata Hpart.
  - destruct (challenge_partition_lengths _ _ _ _ _ _ _ _ Hc Hpart)
      as [_ [_ [Ltr [Lte [Lytr Lyte]]]]].
    destruct (confusion_matrix_returns yte yp) as [M HM]; [congruence|].
    exists M. split; [assumption|].
    unfold Challenge.workflow, Challenge.workflow_run.
    rewrite Hdata. cbn [bind]. rewrite Hpart. cbn [bind].
    rewrite <- Ltr at 1 2. rewrite (kernel_values_row_major (device_kernel E) Xtr Xtr).
    cbn [bind].
    rewrite <- Lte at 1. rewrite <- Ltr at 1.
    rewrite (kernel_values_row_major (device_kernel E) Xte Xtr). cbn [bind].
    rewrite !construct_K_matrix_of_rows. cbn [bind].
    rewrite Hfit. cbn [bind]. unfold get_metrics.
    rewrite Hpred. cbn [bind]. rewrite HM. reflexivity.
  - destruct (tutorial_partition_lengths _ _ _ _ _ _ _ _ Hc Hpart)
      as [_ [_ [Lytr [Lyte [Ptr Pte]]]]].
    destruct (confusion_matrix_returns yte yp) as [M HM]; [congruence|].
    exists M. split; [assumption|].
    unfold Tutorial.workflow, Tutorial.workflow_run.
    rewrite Hdata. cbn [bind]. rewrite Hpart. cbn [bind].
    rewrite !qkernel_matrix_nonempty
      by (intros ->; cbn in Ptr, Pte; lia).
    cbn [bind]. rewrite Hfit. cbn [bind]. unfold get_metrics.
    rewrite Hpred. cbn [bind]. rewrite HM. reflexivity.
Qed.

Lemma workflow_completes_witness :
  exists X_train X_test y_train y_test y_pred, exists M_conf,
    Sklearn.confusion_matrix y_test y_pred = Ok M_conf /\
    Challenge.workflow worked_externals tt
    = Ok ((X_train, X_test, y_train, y_test), y_pred, M_conf).
Proof.
  do 5 eexists.
  eapply (proj1 (workflow_completes worked_externals tt _ _ _ _ _ _ _ _
                   checked_splitter_contract first_label_svc_contract
                   _ _)).
  all: try (run_workflow; reflexivity).
  Unshelve.
  all: try (run_workflow; reflexivity).
Defined.

(** ** What the confusion matrix counts *)

Lemma list_sum_concat (ll : list (list nat)) :
  list_sum (concat ll) = list_sum (map list_sum ll).
Proof.
  induction ll as [|l ll IH]; [reflexivity|].
  cbn [concat map]. rewrite list_sum_app. cbn [list_sum fold_right].
  now rewrite IH.
Qed.

Lemma list_sum_map_add {A} (f g : A -> nat) (l : list A) :
  list_sum (map (fun a => f a + g a) l)
  = list_sum (map f l) + list_sum (map g l).
Proof.
  induction l as [|a l IH]; [reflexivity|].
  change (f a + g a + list_sum (map (fun a => f a + g a) l)
          = f a + list_sum (map f l) + (g a + list_sum (map g l))).
  rewrite IH. lia.
Qed.

Lemma list_sum_map_ext {A} (f g : A -> nat) (l : list A) :
  (forall a, In a l -> f a = g a) ->
  list_sum (map f l) = list_sum (map g l).
Proof. intros H. f_equal. now apply map_ext_in. Qed.

Lemma list_sum_map_zero {A} (l : list A) :
  list_sum (map (fun _ => 0) l) = 0.
Proof. induction l; [reflexivity|assumption]. Qed.

(** Over labels without repetition, a label is met exactly once. *)
Lemma list_sum_indicator (x : Z) (l : list Z) :
  NoDup l -> In x l ->
  list_sum (map (fun a => if (x =? a)%Z then 1 else 0) l) = 1.
Proof.
  induction 1 as [|a l Hnotin Hnd IH]; [intros []|].
  intros Hin. cbn [map list_sum fold_right].
  destruct (Z.eqb_spec x a) as [->|Hne].
  - rewrite (list_sum_map_ext _ (fun _ => 0)).
    + now rewrite list_sum_map_zero.
    + intros b Hb. destruct (Z.eqb_spec a b) as [->|]; [contradiction|].
      reflexivity.
  - destruct Hin as [->|Hin]; [contradiction|].
    change (fold_right Nat.add 0 ?l) with (list_sum l).
    now rewrite IH.
Qed.

Section ConfusionCounts.
Variable labels : list Z.
Hypothesis labels_nodup : NoDup labels.

Let cell (pairs : list (Z * Z)) (a b : Z) : nat :=
  length (filter (fun p => (fst p =? a)%Z && (snd p =? b)%Z) pairs).

Lemma cell_cons (p : Z * Z) (pairs : list (Z * Z)) (a b : Z) :
  cell (p :: pairs) a b
  = (if (fst p =? a)%Z then if (snd p =? b)%Z then 1 else 0 else 0)
    + cell pairs a b.
Proof.
  unfold cell. cbn [filter].
  destruct (fst p =? a)%Z, (snd p =? b)%Z; reflexivity.
Qed.

(** Every pair of labels is counted in exactly one cell. *)
Lemma cells_total (pairs : list (Z * Z)) :
  Forall (fun p => In (fst p) labels /\ In (snd p) labels) pairs ->
  list_sum (map (fun a => list_sum (map (cell pairs a) labels)) labels)
  = length pairs.
Proof.
  induction 1 as [|p pairs [Hf Hs] _ IH].
  - unfold cell. cbn [filter length].
    rewrite (list_sum_map_ext _ (fun _ => 0)); [apply list_sum_map_zero|].
    intros a _. apply list_sum_map_zero.
  - rewrite (list_sum_map_ext _
      (fun a => (if (fst p =? a)%Z then 1 else 0)
                + list_sum (map (cell pairs a) labels))).
    + rewrite list_sum_map_add, IH, list_sum_indicator by assumption.
      reflexivity.
    + intros a _.
      rewrite (list_sum_map_ext _
        (fun b => (if (fst p =? a)%Z
                   then if (snd p =? b)%Z then 1 else 0 else 0)
                  + cell pairs a b)) by (intros; apply cell_cons).
      rewrite list_sum_map_add. f_equal.
      destruct (fst p =? a)%Z.
      * now apply list_sum_indicator.
      * apply list_sum_map_zero.
Qed.

(** The diagonal cells count the pairs of equal labels. *)
Lemma cells_diagonal (pairs : list (Z * Z)) :
  Forall (fun p => In (fst p) labels /\ In (snd p) labels) pairs ->
  list_sum (map (fun a => cell pairs a a) labels)
  = length (filter (fun p => (fst p =? snd p)%Z) pairs).
Proof.
  induction 1 as [|p pairs [Hf Hs] _ IH].
  - unfold cell. cbn [filter length]. apply list_sum_map_zero.
  - rewrite (list_sum_map_ext _
      (fun a => (if (fst p =? a)%Z
                 then if (snd p =? a)%Z then 1 else 0 else 0)
                + cell pairs a a)) by (intros; apply cell_cons).
    rewrite list_sum_map_add, IH. cbn [filter].
    destruct (Z.eqb_spec (fst p) (snd p)) as [E|E].
    + rewrite (list_sum_map_ext _
        (fun a => if (fst p =? a)%Z then 1 else 0)).
      * now rewrite list_sum_indicator.
      * intros a _. rewrite <- E.
        destruct (fst p =? a)%Z; reflexivity.
    + rewrite (list_sum_map_ext _ (fun _ => 0)).
      * now rewrite list_sum_map_zero.
      * intros a _. destruct (Z.eqb_spec (fst p) a) as [<-|]; [|reflexivity].
        destruct (Z.eqb_spec (snd p) (fst p)) as [E'|]; [|reflexivity].
        now elim E.
Qed.

End ConfusionCounts.

Lemma Forall2_map_eq {A B C} (g : A -> C) (h : B -> C) (l1 : list A)
    (l2 : list B) :
  Forall2 (fun i a => g i = h a) l1 l2 -> map g l1 = map h l2.
Proof. induction 1; cbn [map]; congruence. Qed.

(** The diagonal of a table built from one list of labels. *)
Lemma table_diagonal (f : Z -> Z -> nat) (labels : list Z) :
  array_trace (Np.Arr2 (length labels)
                 (map (fun a => map (f a) labels) labels))
  = list_sum (map (fun a => f a a) labels).
Proof.
  unfold array_trace. cbn [Np.len]. rewrite length_map. f_equal.
  apply Forall2_map_eq.
  eapply Forall2_impl; [|exact (take_all_from [] labels)].
  intros i a H. cbn [app] in H. cbn beta. unfold Np.get2.
  rewrite nth_error_map, H. cbn [option_map].
  now rewrite nth_error_map, H.
Qed.

(** A confusion matrix counts every pair of a label and a prediction once,
    the pairs of equal entries on its diagonal. *)
Lemma confusion_matrix_counts (y_true y_pred : list Z) (M : Np.ndarray nat) :
  Sklearn.confusion_matrix y_true y_pred = Ok M ->
  length y_true = length y_pred /\
  array_sum M = length y_true /\
  array_trace M = correct_predictions y_true y_pred.
Proof.
  unfold Sklearn.confusion_matrix.
  destruct (Nat.eqb_spec (length y_true) (length y_pred)) as [Hlen|];
    [|discriminate].
  cbn [negb]. intros H. injection H as <-.
  assert (Hnd : NoDup (Sklearn.unique (y_true ++ y_pred)))
    by (apply sorted_NoDup, unique_sorted).
  assert (Hin : Forall (fun p =>
                          In (fst p) (Sklearn.unique (y_true ++ y_pred))
                          /\ In (snd p) (Sklearn.unique (y_true ++ y_pred)))
                  (combine y_true y_pred)).
  { apply Forall_forall. intros [a b] Hp. cbn [fst snd].
    split; apply unique_In, in_or_app.
    - left. exact (in_combine_l _ _ _ _ Hp).
    - right. exact (in_combine_r _ _ _ _ Hp). }
  split; [assumption|]. split.
  - unfold array_sum. cbn [Np.ravel].
    rewrite list_sum_concat, map_map.
    rewrite (cells_total _ Hnd _ Hin), length_combine. lia.
  - rewrite table_diagonal.
    exact (cells_diagonal _ Hnd _ Hin).
Qed.

(** X13.  [get_metrics] compares the predictions with the test labels
    position by position.  When the classifier hands back as many
    predictions as there are test labels, the confusion matrix counts every
    test sample exactly once, so its entries add up to [len(y_test)], and
    its diagonal adds up to the number of test samples predicted as
    labelled.  When the two lengths differ, [get_metrics] raises
    ValueError. *)
Theorem get_metrics_counts :
  forall (svc : Sklearn.SVC) (m : Sklearn.svc_model svc)
         (K : Np.ndarray R) (y_test y_pred : list Z),
    Sklearn.svc_predict svc m K = Ok y_pred ->
    (length y_pred <> length y_test ->
     get_metrics svc m K y_test = Raise ValueError) /\
    (length y_pred = length y_test ->
     exists M,
       get_metrics svc m K y_test = Ok (y_pred, M) /\
       array_sum M = length y_test /\
       array_trace M = correct_predictions y_test y_pred).
Proof.
  intros svc m K y_test y_pred Hpred.
  unfold get_metrics, Sklearn.confusion_matrix. rewrite Hpred. cbn [bind].
  split; intros Hlen.
  - destruct (Nat.eqb_spec (length y_test) (length y_pred)) as [E|_];
      [now elim Hlen|reflexivity].
  - destruct (confusion_matrix_returns y_test y_pred (eq_sym Hlen))
      as [M HM].
    exists M. unfold Sklearn.confusion_matrix in HM. rewrite HM.
    split; [reflexivity|].
    exact (proj2 (confusion_matrix_counts y_test y_pred M HM)).
Qed.

Lemma get_metrics_counts_witness :
  exists M,
    get_metrics first_label_svc 0%Z (Np.Arr2 1 [[1%R]; [1%R]]) [0; 1]%Z
      = Ok ([0; 0]%Z, M) /\
    array_sum M = length [0; 1]%Z /\
    array_trace M = correct_predictions [0; 1]%Z [0; 0]%Z.
Proof.
  apply (proj2 (get_metrics_counts first_label_svc 0%Z
                  (Np.Arr2 1 [[1%R]; [1%R]]) [0; 1]%Z [0; 0]%Z
                  eq_refl)).
  reflexivity.
Defined.

(** ** What the scatter plot shows *)

Section DisplayCell.
Import Display.

Lemma for_range_append {S : Type} (n : nat)
    (body : nat -> list S -> result (list S)) (g : nat -> list S)
    (init : list S) :
  (forall i fig, i < n -> body i fig = Ok (fig ++ g i)) ->
  for_range n body init = Ok (init ++ flat_map g (seq 0 n)).
Proof.
  induction n as [|n IH]; intros H.
  - cbn. now rewrite app_nil_r.
  - rewrite for_range_S, IH by (intros; apply H; lia).
    cbn [bind]. rewrite H by lia.
    rewrite seq_S, flat_map_app. cbn [flat_map Nat.add].
    now rewrite app_nil_r, app_assoc.
Qed.

Lemma column_rows (X : list (list R)) (c : nat) :
  Forall (fun row => c < length row) X ->
  column X c = Ok (map (fun row => nth c row 0%R) X).
Proof.
  induction 1 as [|row X Hrow _ IH]; [reflexivity|].
  cbn [column map]. unfold getitem.
  destruct (nth_error row c) as [x|] eqn:E.
  - cbn [bind]. rewrite IH. cbn [bind].
    now rewrite (nth_error_nth _ _ _ E).
  - apply nth_error_None in E. lia.
Qed.

Lemma broadcast2_same {A B C} (f : A -> B -> C) (a : list A) (b : list B) :
  length a = length b -> broadcast2 f a b = Ok (Np.zip_with f a b).
Proof. intros H. unfold broadcast2. now rewrite H, Nat.eqb_refl. Qed.

(** A mask computed label by label selects the rows whose labels pass. *)
Lemma mask_pointwise {A T} (p : T -> bool) (X : list A) (ts : list T) :
  length X = length ts ->
  map snd (filter fst (combine (map p ts) X))
  = map fst (filter (fun t => p (snd t)) (combine X ts)).
Proof.
  revert ts; induction X as [|x X IH]; intros [|t ts] H;
    try discriminate; [reflexivity|].
  cbn [map combine filter fst snd]. injection H as H.
  destruct (p t); cbn [map fst snd]; now rewrite IH.
Qed.

Lemma mask_pointwise_map {A B T} (f : A -> B) (p : T -> bool) (X : list A)
    (ts : list T) :
  length X = length ts ->
  map snd (filter fst (combine (map p ts) (map f X)))
  = map f (map fst (filter (fun t => p (snd t)) (combine X ts))).
Proof. intros H. now rewrite mask_map, mask_pointwise. Qed.

(** The mask [np.logical_and(y == i, q(np.equal(y_pred, y)))], label by
    label. *)
Lemma test_mask (q : bool -> bool) (y y_pred : list Z) (i : nat) :
  length y_pred = length y ->
  Np.zip_with andb (eq_scalar y i) (map q (Np.zip_with Z.eqb y_pred y))
  = map (fun t => (fst t =? Z.of_nat i)%Z && q (snd t =? fst t)%Z)
      (combine y y_pred).
Proof.
  unfold eq_scalar. revert y_pred; induction y as [|l y IH];
    intros [|l' y_pred] H; try discriminate; [reflexivity|].
  injection H as H.
  cbn [map Np.zip_with combine fst snd]. now rewrite IH.
Qed.

Lemma length_test_mask (q : bool -> bool) (y y_pred : list Z) (i : nat) :
  length y_pred = length y ->
  length (eq_scalar y i) = length (map q (Np.zip_with Z.eqb y_pred y)).
Proof.
  intros H. unfold eq_scalar.
  rewrite !length_map, length_zip_with. lia.
Qed.

(** One masked scatter call of the second loop. *)
Lemma scatter_masked (q : bool -> bool) (mk : marker) (i : nat)
    (X : list (list R)) (y y_pred : list Z) (qidx : list bool)
    (fig : list collection) {S : Type}
    (k : list collection -> result S) :
  Forall (fun row => 2 <= length row) X ->
  length y = length X -> length y_pred = length y ->
  qidx = map q (Np.zip_with Z.eqb y_pred y) ->
  (c0 <- column X 0 ;;
   m <- logical_and (eq_scalar y i) qidx ;;
   x <- Np.mask_select m c0 ;;
   c1 <- column X 1 ;;
   m <- logical_and (eq_scalar y i) qidx ;;
   y <- Np.mask_select m c1 ;;
   fig <- scatter mk i x y fig ;;
   k fig)
  = k (fig ++ [drawn mk i
                 (rows_where
                    (fun t => (fst t =? Z.of_nat i)%Z
                              && q (snd t =? fst t)%Z)
                    X (combine y y_pred))]).
Proof.
  intros Hrows Hy Hp ->.
  rewrite !column_rows
    by (eapply Forall_impl; [|exact Hrows]; cbn beta; intros; lia).
  cbn [bind]. unfold logical_and.
  rewrite (broadcast2_same andb _ _ (length_test_mask q y y_pred i Hp)).
  cbn [bind]. rewrite (test_mask q y y_pred i Hp).
  unfold Np.mask_select.
  rewrite !length_map, length_combine, Hp, Nat.min_id, Hy, Nat.eqb_refl.
  cbn [bind].
  rewrite !(mask_pointwise_map _
              (fun t => (fst t =? Z.of_nat i)%Z && q (snd t =? fst t)%Z))
    by (rewrite length_combine; lia).
  unfold scatter. rewrite !length_map, Nat.eqb_refl.
  reflexivity.
Qed.

(** One scatter call of the first loop. *)
Lemma scatter_train (i : nat) (X : list (list R)) (y : list Z)
    (fig : list collection) :
  Forall (fun row => 2 <= length row) X ->
  length y = length X ->
  (c0 <- column X 0 ;;
   x <- Np.mask_select (eq_scalar y i) c0 ;;
   c1 <- column X 1 ;;
   y <- Np.mask_select (eq_scalar y i) c1 ;;
   scatter Disc i x y fig)
  = Ok (fig ++ [drawn Disc i
                  (rows_where (fun l => (l =? Z.of_nat i)%Z) X y)]).
Proof.
  intros Hrows Hy.
  rewrite !column_rows
    by (eapply Forall_impl; [|exact Hrows]; cbn beta; intros; lia).
  cbn [bind]. unfold Np.mask_select, eq_scalar.
  rewrite !length_map, Hy, Nat.eqb_refl. cbn [bind].
  rewrite !(mask_pointwise_map _ (fun l => (l =? Z.of_nat i)%Z))
    by lia.
  unfold scatter. rewrite !length_map, Nat.eqb_refl.
  reflexivity.
Qed.

(** With vectors of matching lengths the cell draws, for every class, the
    training samples of that class, the test samples of that class
    predicted as labelled, and the test samples of that class predicted
    otherwise. *)
Lemma display_figure (n : nat) (X_train X_test : list (list R))
    (y_train y_test y_pred : list Z) :
  Forall (fun row => 2 <= length row) (X_train ++ X_test) ->
  length y_train = length X_train ->
  length y_test = length X_test ->
  length y_pred = length y_test ->
  display n (X_train, X_test, y_train, y_test) y_pred
  = Ok (figure_of n X_train X_test y_train y_test y_pred).
Proof.
  intros Hrows Htr Hte Hp. apply Forall_app in Hrows.
  destruct Hrows as [Rtr Rte]. unfold display.
  rewrite (for_range_append n _
             (fun i => [drawn Disc i
                          (rows_where (fun l => (l =? Z.of_nat i)%Z)
                             X_train y_train)]))
    by (intros; now apply scatter_train).
  cbn [bind app]. unfold equal. rewrite broadcast2_same by assumption.
  cbn [bind].
  apply (for_range_append n _
           (fun i =>
              [drawn Triangle i
                 (rows_where (fun t => (fst t =? Z.of_nat i)%Z
                                       && (snd t =? fst t)%Z)
                    X_test (combine y_test y_pred));
               drawn Cross i
                 (rows_where (fun t => (fst t =? Z.of_nat i)%Z
                                       && negb (snd t =? fst t)%Z)
                    X_test (combine y_test y_pred))])).
  intros i fig _.
  rewrite (scatter_masked (fun b => b) Triangle i X_test y_test y_pred
             (Np.zip_with Z.eqb y_pred y_test) fig _ Rte Hte Hp
             (eq_sym (map_id _))).
  match goal with
  | |- _ = Ok (fig ++ [?a; ?b]) =>
      change (fig ++ [a; b]) with (fig ++ ([a] ++ [b]));
      rewrite (app_assoc fig [a] [b])
  end.
  rewrite <- (scatter_masked negb Cross i X_test y_test y_pred
                (invert (Np.zip_with Z.eqb y_pred y_test)) _ Ok Rte Hte Hp
                eq_refl).
  repeat match goal with
         | |- bind ?r _ = bind ?r _ =>
             destruct r; cbn [bind]; [|reflexivity]
         end.
  now destruct (scatter _ _ _ _ _).
Qed.

End DisplayCell.

Section DisplayCounts.
Import Display.

Lemma points_marked_app (mk : marker) (f1 f2 : list collection) :
  points_marked mk (f1 ++ f2) = points_marked mk f1 + points_marked mk f2.
Proof.
  unfold points_marked. now rewrite filter_app, map_app, list_sum_app.
Qed.

Lemma points_marked_flat_map {I} (mk : marker) (g : I -> list collection)
    (l : list I) :
  points_marked mk (flat_map g l)
  = list_sum (map (fun i => points_marked mk (g i)) l).
Proof.
  induction l as [|i l IH]; [reflexivity|].
  cbn [flat_map map]. rewrite points_marked_app, IH. reflexivity.
Qed.

Lemma length_rows_where {T} (p : T -> bool) (X : list (list R))
    (tags : list T) :
  length X = length tags ->
  length (rows_where p X tags) = length (filter p tags).
Proof.
  unfold rows_where. rewrite length_map.
  revert tags; induction X as [|x X IH]; intros [|t tags] H;
    try discriminate; [reflexivity|].
  injection H as H. cbn [combine filter snd].
  destruct (p t); cbn [length]; now rewrite IH.
Qed.

Lemma list_sum_range_indicator (n : nat) (l : Z) :
  (0 <= l < Z.of_nat n)%Z ->
  list_sum (map (fun i => if (l =? Z.of_nat i)%Z then 1 else 0) (seq 0 n))
  = 1.
Proof.
  intros H.
  rewrite <- (map_map Z.of_nat (fun a => if (l =? a)%Z then 1 else 0)).
  apply list_sum_indicator.
  - apply Finite.Injective_map_NoDup; [|apply seq_NoDup].
    intros a b. apply Nat2Z.inj.
  - apply in_map_iff. exists (Z.to_nat l). split; [lia|].
    apply in_seq. lia.
Qed.

(** Tags whose label is a class of the loop are met in exactly one pass. *)
Lemma filter_by_class {T} (n : nat) (lab : T -> Z) (r : T -> bool)
    (tags : list T) :
  Forall (fun t => (0 <= lab t < Z.of_nat n)%Z) tags ->
  list_sum (map (fun i =>
                   length (filter (fun t => (lab t =? Z.of_nat i)%Z && r t)
                             tags))
              (seq 0 n))
  = length (filter r tags).
Proof.
  induction 1 as [|t tags Ht _ IH].
  - cbn [filter length]. apply list_sum_map_zero.
  - rewrite (list_sum_map_ext _
      (fun i => (if (lab t =? Z.of_nat i)%Z
                 then if r t then 1 else 0 else 0)
                + length (filter (fun t => (lab t =? Z.of_nat i)%Z && r t)
                            tags))).
    + rewrite list_sum_map_add, IH. cbn [filter].
      destruct (r t); cbn [length].
      * now rewrite list_sum_range_indicator.
      * rewrite (list_sum_map_ext _ (fun _ => 0)).
        -- now rewrite list_sum_map_zero.
        -- intros i _. now destruct (lab t =? Z.of_nat i)%Z.
    + intros i _. cbn [filter].
      destruct (lab t =? Z.of_nat i)%Z, (r t); reflexivity.
Qed.

Lemma filter_split_length {T} (r : T -> bool) (l : list T) :
  length (filter r l) + length (filter (fun t => negb (r t)) l) = length l.
Proof.
  induction l as [|t l IH]; [reflexivity|].
  cbn [filter]. destruct (r t); cbn [negb length]; lia.
Qed.

Lemma correct_predictions_filter (y_test y_pred : list Z) :
  length (filter (fun t : Z * Z => (snd t =? fst t)%Z)
            (combine y_test y_pred))
  = correct_predictions y_test y_pred.
Proof.
  unfold correct_predictions. f_equal. apply filter_ext.
  intros t. apply Z.eqb_sym.
Qed.

(** The numbers of discs, triangles and crosses of the figure. *)
Lemma figure_counts (n : nat) (X_train X_test : list (list R))
    (y_train y_test y_pred : list Z) :
  length y_train = length X_train ->
  length y_test = length X_test ->
  length y_pred = length y_test ->
  Forall (fun l => (0 <= l < Z.of_nat n)%Z) (y_train ++ y_test) ->
  points_marked Disc (figure_of n X_train X_test y_train y_test y_pred)
    = length y_train /\
  points_marked Triangle (figure_of n X_train X_test y_train y_test y_pred)
    = correct_predictions y_test y_pred /\
  points_marked Cross (figure_of n X_train X_test y_train y_test y_pred)
    = length y_test - correct_predictions y_test y_pred.
Proof.
  intros Htr Hte Hp Hlab. apply Forall_app in Hlab.
  destruct Hlab as [Ltr Lte].
  assert (Ltags : Forall (fun t : Z * Z => (0 <= fst t < Z.of_nat n)%Z)
                    (combine y_test y_pred)).
  { rewrite Forall_forall in Lte. apply Forall_forall.
    intros [a b] Hin. apply Lte. exact (in_combine_l _ _ _ _ Hin). }
  assert (Hc : length X_test = length (combine y_test y_pred))
    by (rewrite length_combine; lia).
  unfold figure_of. rewrite !points_marked_app, !points_marked_flat_map.
  unfold points_marked, drawn.
  cbn [filter mark marker_eqb map xs list_sum fold_right].
  assert (Hzero : forall g : nat -> nat,
             (forall i, g i = 0) -> list_sum (map g (seq 0 n)) = 0).
  { intros g Hg. rewrite (list_sum_map_ext g (fun _ => 0)) by auto.
    apply list_sum_map_zero. }
  repeat split.
  - rewrite <- (Nat.add_0_r (length y_train)).
    apply (f_equal2 Nat.add); [|now apply Hzero].
    rewrite (list_sum_map_ext _
      (fun i => length (filter (fun l => (l =? Z.of_nat i)%Z
                                         && (fun _ => true) l) y_train))).
    + rewrite (filter_by_class n (fun l => l) (fun _ => true) _ Ltr).
      clear. induction y_train; cbn; congruence.
    + intros i _. rewrite Nat.add_0_r, length_map.
      rewrite length_rows_where by lia.
      f_equal. apply filter_ext. intros l. now rewrite andb_true_r.
  - change (correct_predictions y_test y_pred)
      with (0 + correct_predictions y_test y_pred).
    apply (f_equal2 Nat.add); [now apply Hzero|].
    rewrite (list_sum_map_ext _
      (fun i => length (filter (fun t : Z * Z =>
                                  (fst t =? Z.of_nat i)%Z
                                  && (snd t =? fst t)%Z)
                          (combine y_test y_pred)))).
    + rewrite (filter_by_class n fst (fun t => (snd t =? fst t)%Z) _ Ltags).
      apply correct_predictions_filter.
    + intros i _. rewrite Nat.add_0_r, length_map.
      now rewrite length_rows_where.
  - change (length y_test - correct_predictions y_test y_pred)
      with (0 + (length y_test - correct_predictions y_test y_pred)).
    apply (f_equal2 Nat.add); [now apply Hzero|].
    rewrite (list_sum_map_ext _
      (fun i => length (filter (fun t : Z * Z =>
                                  (fst t =? Z.of_nat i)%Z
                                  && negb (snd t =? fst t)%Z)
                          (combine y_test y_pred)))).
    + rewrite (filter_by_class n fst (fun t => negb (snd t =? fst t)%Z)
                 _ Ltags).
      pose proof (filter_split_length
                    (fun t : Z * Z => (snd t =? fst t)%Z)
                    (combine y_test y_pred)) as H.
      rewrite correct_predictions_filter, length_combine in H. lia.
    + intros i _. rewrite Nat.add_0_r, length_map.
      now rewrite length_rows_where.
Qed.

End DisplayCounts.

Section DisplayTheorems.
Import Display.

(** X14.  The display cell, for [n] classes and samples of at least two
    features.  With as many labels as samples and as many predictions as
    test labels it draws, for every class in turn, the training samples of
    that class as discs and then, for every class in turn, the test samples
    of that class predicted as labelled as triangles and those predicted
    otherwise as crosses, all in their class's colour and in the order of
    the data.  With training labels of another length than the training
    samples the first [scatter] call raises IndexError; with predictions
    and test labels of different lengths, neither of length 1, [np.equal]
    raises ValueError. *)
Theorem display_draws :
  forall (n : nat) (X_train X_test : list (list R))
         (y_train y_test y_pred : list Z),
    Forall (fun row => 2 <= length row) (X_train ++ X_test) ->
    (length y_train = length X_train ->
     length y_test = length X_test ->
     length y_pred = length y_test ->
     display n (X_train, X_test, y_train, y_test) y_pred
     = Ok (figure_of n X_train X_test y_train y_test y_pred)) /\
    (0 < n -> length y_train <> length X_train ->
     display n (X_train, X_test, y_train, y_test) y_pred
     = Raise IndexError) /\
    (length y_train = length X_train ->
     length y_pred <> length y_test ->
     length y_pred <> 1 -> length y_test <> 1 ->
     display n (X_train, X_test, y_train, y_test) y_pred
     = Raise ValueError).
Proof.
  intros n X_train X_test y_train y_test y_pred Hrows.
  split; [|split].
  - intros Htr Hte Hp. now apply display_figure.
  - intros Hn Hne. apply Forall_app in Hrows. destruct Hrows as [Rtr _].
    unfold display.
    rewrite (for_range_raise_mono _ [] IndexError 1 n); [reflexivity| |lia].
    rewrite for_range_S. cbn [for_range seq fold_left bind].
    rewrite (column_rows X_train 0)
      by (eapply Forall_impl; [|exact Rtr]; cbn beta; intros; lia).
    cbn [bind]. unfold Np.mask_select, eq_scalar. rewrite !length_map.
    destruct (Nat.eqb_spec (length y_train) (length X_train)) as [E|_];
      [now elim Hne|reflexivity].
  - intros Htr Hne H1 H2. apply Forall_app in Hrows.
    destruct Hrows as [Rtr _]. unfold display.
    rewrite (for_range_append n _
               (fun i => [drawn Disc i
                            (rows_where (fun l => (l =? Z.of_nat i)%Z)
                               X_train y_train)]))
      by (intros; now apply scatter_train).
    cbn [bind]. unfold equal, broadcast2.
    destruct (Nat.eqb_spec (length y_pred) (length y_test)) as [E|_];
      [now elim Hne|].
    destruct y_pred as [|a [|a' y_pred]], y_test as [|b [|b' y_test]];
      cbn [length] in *; try lia; reflexivity.
Qed.

Lemma display_draws_witness :
  display 2 ([[1; 2]; [3; 4]]%R, [[5; 6]; [7; 8]]%R, [0; 1]%Z, [0; 1]%Z)
    [0; 0]%Z
  = Ok (figure_of 2 [[1; 2]; [3; 4]]%R [[5; 6]; [7; 8]]%R
          [0; 1]%Z [0; 1]%Z [0; 0]%Z).
Proof.
  apply (proj1 (display_draws 2 [[1; 2]; [3; 4]]%R [[5; 6]; [7; 8]]%R
                  [0; 1]%Z [0; 1]%Z [0; 0]%Z
                  ltac:(repeat constructor))); reflexivity.
Defined.

(** X15.  The figure and the confusion matrix tell the same story.  When
    every label is one of the [n] classes of the loops, every training
    sample is drawn once as a disc and every test sample once, as a
    triangle or as a cross; the number of triangles is the trace of
    [confusion_matrix(y_test, y_pred)] and triangles and crosses together
    number the sum of its entries. *)
Theorem display_agrees_with_confusion_matrix :
  forall (n : nat) (X_train X_test : list (list R))
         (y_train y_test y_pred : list Z)
         (fig : list collection) (M : Np.ndarray nat),
    Forall (fun row => 2 <= length row) (X_train ++ X_test) ->
    length y_train = length X_train ->
    length y_test = length X_test ->
    Forall (fun l => (0 <= l < Z.of_nat n)%Z) (y_train ++ y_test) ->
    display n (X_train, X_test, y_train, y_test) y_pred = Ok fig ->
    Sklearn.confusion_matrix y_test y_pred = Ok M ->
    points_marked Disc fig = length X_train /\
    points_marked Triangle fig + points_marked Cross fig = length X_test /\
    points_marked Triangle fig = array_trace M /\
    points_marked Triangle fig + points_marked Cross fig = array_sum M.
Proof.
  intros n X_train X_test y_train y_test y_pred fig M Hrows Htr Hte Hlab
    Hfig HM.
  destruct (confusion_matrix_counts _ _ _ HM) as [Hp [Hsum Htrace]].
  symmetry in Hp.
  rewrite (display_figure n _ _ _ _ _ Hrows Htr Hte Hp) in Hfig.
  injection Hfig as <-.
  destruct (figure_counts n X_train X_test y_train y_test y_pred
              Htr Hte Hp Hlab) as [HD [HT HC]].
  assert (Hle : correct_predictions y_test y_pred <= length y_test).
  { unfold correct_predictions.
    etransitivity; [apply filter_length_le|].
    rewrite length_combine. lia. }
  rewrite HD, HT, HC, Hsum, Htrace. repeat split; lia.
Qed.

Lemma display_agrees_with_confusion_matrix_witness :
  points_marked Disc
    (figure_of 2 [[1; 2]; [3; 4]]%R [[5; 6]; [7; 8]]%R
       [0; 1]%Z [0; 1]%Z [0; 0]%Z)
  = length [[1; 2]; [3; 4]]%R /\
  points_marked Triangle
    (figure_of 2 [[1; 2]; [3; 4]]%R [[5; 6]; [7; 8]]%R
       [0; 1]%Z [0; 1]%Z [0; 0]%Z)
  + points_marked Cross
      (figure_of 2 [[1; 2]; [3; 4]]%R [[5; 6]; [7; 8]]%R
         [0; 1]%Z [0; 1]%Z [0; 0]%Z)
  = length [[5; 6]; [7; 8]]%R /\
  points_marked Triangle
    (figure_of 2 [[1; 2]; [3; 4]]%R [[5; 6]; [7; 8]]%R
       [0; 1]%Z [0; 1]%Z [0; 0]%Z)
  = array_trace (Np.Arr2 2 [[1; 0]; [1; 0]]) /\
  points_marked Triangle
    (figure_of 2 [[1; 2]; [3; 4]]%R [[5; 6]; [7; 8]]%R
       [0; 1]%Z [0; 1]%Z [0; 0]%Z)
  + points_marked Cross
      (figure_of 2 [[1; 2]; [3; 4]]%R [[5; 6]; [7; 8]]%R
         [0; 1]%Z [0; 1]%Z [0; 0]%Z)
  = array_sum (Np.Arr2 2 [[1; 0]; [1; 0]]).
Proof.
  apply (display_agrees_with_confusion_matrix 2
           [[1; 2]; [3; 4]]%R [[5; 6]; [7; 8]]%R [0; 1]%Z [0; 1]%Z [0; 0]%Z).
  - repeat constructor.
  - reflexivity.
  - reflexivity.
  - repeat constructor; cbn; lia.
  - reflexivity.
  - reflexivity.
Defined.

End DisplayTheorems.

(** ** When the loaders return *)

Section LoaderOutcomes.
Local Open Scope R_scope.
#[local] Arguments MinMaxScaler.col_reduce : simpl never.

Lemma fit_returns (feature_range : R * R) (X : list (list R)) :
  X <> [] -> Forall (fun r => length r = 2%nat) X ->
  exists sc, MinMaxScaler.fit feature_range X = Ok sc.
Proof.
  intros Hne Hrect. destruct X as [|r rs]; [contradiction|].
  unfold MinMaxScaler.fit. inversion Hrect as [|? ? Hr _]; subst.
  rewrite Hr. cbn [Nat.eqb]. eauto.
Qed.

Lemma transform_length (sc : MinMaxScaler.t) (X : list (list R)) :
  length (MinMaxScaler.transform sc X) = length X.
Proof. unfold MinMaxScaler.transform. apply length_map. Qed.

Lemma slices_two (features : list (list R)) :
  Forall (fun row => length row = 13%nat) features ->
  Forall (fun r => length r = 2%nat)
    (map (fun row => firstn 2 (skipn 9 row)) features).
Proof.
  intros H. apply Forall_forall. intros r Hr. apply in_map_iff in Hr.
  destruct Hr as [row [<- Hrow]]. rewrite Forall_forall in H.
  now rewrite (slice_9_11 row (H _ Hrow)).
Qed.

Lemma filter_none {A} (p : A -> bool) (l : list A) :
  Forall (fun a => p a = false) l -> filter p l = [].
Proof.
  induction 1 as [|a l Ha _ IH]; [reflexivity|].
  cbn [filter]. now rewrite Ha.
Qed.

Lemma mask_none {A} (idx : list bool) (l : list A) :
  Forall (fun b => b = false) idx ->
  map snd (filter fst (combine idx l)) = [].
Proof.
  intros H. revert l. induction H as [|b idx Hb _ IH]; intros [|a l];
    try reflexivity.
  cbn [combine filter fst]. rewrite Hb. apply IH.
Qed.

Lemma mask_some {A} (idx : list bool) (l : list A) :
  length idx = length l -> In true idx ->
  map snd (filter fst (combine idx l)) <> [].
Proof.
  revert l; induction idx as [|b idx IH]; intros [|a l] Hlen Hin;
    try discriminate; [destruct Hin|].
  cbn [combine filter fst]. destruct b; [discriminate|].
  destruct Hin as [Hin|Hin]; [discriminate|].
  injection Hlen as Hlen. now apply IH.
Qed.

(** X16.  When the loaders return, on data with thirteen feature columns.
    The challenge loader raises IndexError when features and labels differ
    in length and ValueError when no wine is of class 0 or 1 (the scaler is
    fitted on no samples); otherwise it returns the labels below 2, in
    order, with one row of two features for each.  The tutorial loader
    raises ValueError on no wines and otherwise returns one row for each
    wine with the labels untouched: it never compares the number of labels
    with the number of wines. *)
Theorem get_data_outcomes :
  forall (features : list (list R)) (labels : list Z),
    Forall (fun row => length row = 13%nat) features ->
    (length labels <> length features ->
     Challenge.get_data (features, labels) = Raise IndexError) /\
    (length labels = length features ->
     Forall (fun l => (2 <= l)%Z) labels ->
     Challenge.get_data (features, labels) = Raise ValueError) /\
    (length labels = length features ->
     Exists (fun l => (l < 2)%Z) labels ->
     exists X,
       Challenge.get_data (features, labels)
       = Ok (X, filter (fun l => (l <? 2)%Z) labels) /\
       length X = length (filter (fun l => (l <? 2)%Z) labels) /\
       Forall (fun r => length r = 2%nat) X) /\
    (features = [] ->
     Tutorial.get_data (features, labels) = Raise ValueError) /\
    (features <> [] ->
     exists X,
       Tutorial.get_data (features, labels) = Ok (X, labels) /\
       length X = length features /\
       Forall (fun r => length r = 2%nat) X).
Proof.
  intros features labels Hcols.
  pose proof (slices_two features Hcols) as Hrect.
  split; [|split; [|split; [|split]]].
  - intros Hne. unfold Challenge.get_data, Np.mask_select.
    rewrite !length_map, Nat.eqb_refl. cbn [bind].
    destruct (Nat.eqb_spec (length labels) (length features)) as [E|_];
      [now elim Hne|reflexivity].
  - intros Hlen Hall. unfold Challenge.get_data, Np.mask_select.
    rewrite !length_map, Nat.eqb_refl, Hlen, Nat.eqb_refl. cbn [bind].
    rewrite (mask_none _ (map _ features)); [reflexivity|].
    apply Forall_forall. intros b Hb. apply in_map_iff in Hb.
    destruct Hb as [l [<- Hl]]. rewrite Forall_forall in Hall.
    apply Z.ltb_ge. now apply Hall.
  - intros Hlen Hex. unfold Challenge.get_data, Np.mask_select.
    rewrite !length_map, Nat.eqb_refl, Hlen, Nat.eqb_refl. cbn [bind].
    rewrite mask_self.
    set (idx := map (fun l => (l <? 2)%Z) labels).
    set (X1 := map snd (filter fst (combine idx _))).
    assert (Hne : X1 <> []).
    { apply mask_some; [unfold idx; now rewrite !length_map|].
      apply Exists_exists in Hex. destruct Hex as [l [Hl Hlt]].
      apply in_map_iff. exists l. split; [|assumption].
      now apply Z.ltb_lt. }
    assert (Hrect1 : Forall (fun r => length r = 2%nat) X1).
    { apply Forall_forall. intros r Hr. apply mask_In in Hr.
      rewrite Forall_forall in Hrect. now apply Hrect. }
    destruct (fit_returns (0, 2 * PI) X1 Hne Hrect1) as [sc Hsc].
    rewrite Hsc. cbn [bind]. eexists. split; [reflexivity|]. split.
    + rewrite transform_length. unfold X1.
      rewrite mask_length by (unfold idx; now rewrite !length_map).
      rewrite <- (mask_self (fun l => (l <? 2)%Z) labels).
      fold idx. now rewrite mask_length by (unfold idx; apply length_map).
    + exact (proj2 (fit_transform_shape _ _ _ _ _ Hsc Hrect1)).
  - intros ->. reflexivity.
  - intros Hne. unfold Tutorial.get_data.
    assert (Hne' : map (fun row : list R => firstn 2 (skipn 9 row)) features
                   <> [])
      by (destruct features; [contradiction|discriminate]).
    destruct (fit_returns (0, 2 * PI) _ Hne' Hrect) as [sc Hsc].
    rewrite Hsc. cbn [bind]. eexists. split; [reflexivity|]. split.
    + now rewrite transform_length, length_map.
    + exact (proj2 (fit_transform_shape _ _ _ _ _ Hsc Hrect)).
Qed.

Lemma get_data_outcomes_witness :
  exists X,
    Challenge.get_data
      ([repeat 0 13; repeat 1 13; repeat 5 13], [0; 1; 2]%Z)
    = Ok (X, filter (fun l => (l <? 2)%Z) [0; 1; 2]%Z) /\
    length X = length (filter (fun l => (l <? 2)%Z) [0; 1; 2]%Z) /\
    Forall (fun r => length r = 2%nat) X.
Proof.
  apply (proj1 (proj2 (proj2
           (get_data_outcomes [repeat 0 13; repeat 1 13; repeat 5 13]
              [0; 1; 2]%Z ltac:(repeat constructor))))).
  - reflexivity.
  - constructor. lia.
Defined.

End LoaderOutcomes.

(** ** Determinism, disjointness and class shares of the splits *)

Lemma count_cons (c x : Z) (l : list Z) :
  Sklearn.count c (x :: l)
  = (if (c =? x)%Z then 1 else 0) + Sklearn.count c l.
Proof. unfold Sklearn.count. cbn [filter]. now destruct (c =? x)%Z. Qed.

Lemma count_app (c : Z) (l1 l2 : list Z) :
  Sklearn.count c (l1 ++ l2) = Sklearn.count c l1 + Sklearn.count c l2.
Proof. unfold Sklearn.count. now rewrite filter_app, length_app. Qed.

Lemma count_perm (c : Z) (l l' : list Z) :
  Permutation l l' -> Sklearn.count c l = Sklearn.count c l'.
Proof.
  induction 1 as [|x l l' _ IH|x x' l|l l' l'' _ IH1 _ IH2].
  - reflexivity.
  - now rewrite !count_cons, IH.
  - rewrite !count_cons. lia.
  - congruence.
Qed.

Lemma count_pos_In (c : Z) (l : list Z) :
  0 < Sklearn.count c l -> In c l.
Proof.
  unfold Sklearn.count. intros H.
  destruct (filter (Z.eqb c) l) as [|x f] eqn:E; [cbn in H; lia|].
  assert (Hx : In x (filter (Z.eqb c) l)) by (rewrite E; now left).
  apply filter_In in Hx. destruct Hx as [Hin Heq].
  apply Z.eqb_eq in Heq. now subst x.
Qed.

(** Shares depend on the labels of a vector, not on their order. *)
Lemma share_within_perm (k : Z) (y y' part : list Z) :
  Permutation y y' -> share_within k y part -> share_within k y' part.
Proof.
  intros Hp H c. specialize (H c).
  now rewrite <- (count_perm c _ _ Hp), <- (Permutation_length Hp).
Qed.

(** A share within one sample of a part of eight, itself within one sample
    of the whole, is a share within [(n_part + 8) / 8] samples of the
    whole. *)
Lemma share_of_eight (N C c0 t nt : Z) :
  (0 < N -> 0 <= nt <= 8 ->
   Z.abs (c0 * N - 8 * C) < 1 * N ->
   Z.abs (t * 8 - nt * c0) < 1 * 8 ->
   8 * Z.abs (t * N - nt * C) < (8 + nt) * N)%Z.
Proof.
  intros HN Hnt H1 H2.
  assert (E : (8 * (t * N - nt * C)
               = N * (t * 8 - nt * c0) + nt * (c0 * N - 8 * C))%Z) by ring.
  assert (Ha : (Z.abs (N * (t * 8 - nt * c0)) <= 7 * N)%Z).
  { rewrite Z.abs_mul, (Z.abs_eq N) by lia. nia. }
  assert (Hb : (Z.abs (nt * (c0 * N - 8 * C)) <= nt * (N - 1))%Z).
  { rewrite Z.abs_mul, (Z.abs_eq nt) by lia. nia. }
  assert (Hs : (8 * Z.abs (t * N - nt * C)
                = Z.abs (8 * (t * N - nt * C)))%Z)
    by (rewrite Z.abs_mul; reflexivity).
  rewrite Hs, E.
  pose proof (Z.abs_triangle (N * (t * 8 - nt * c0))
                (nt * (c0 * N - 8 * C))).
  nia.
Qed.

(** The labels the tutorial split returns are the labels it was given. *)
Lemma tutorial_labels_cover (sp : Sklearn.Splitter) {A} (X : list A)
    (y : list Z) (g : Sklearn.rng sp) (Xtr Xte : list A)
    (ytr yte : list Z) :
  Sklearn.split_contract sp ->
  fst (Tutorial.partition_data sp X y g) = Ok (Xtr, Xte, ytr, yte) ->
  Permutation (ytr ++ yte) y /\
  length y = length X /\
  length yte = (length X + 3) / 4 /\
  length ytr = length X - (length X + 3) / 4 /\
  2 <= length X.
Proof.
  intros Hc H. unfold Tutorial.partition_data in H.
  destruct (train_test_split_inv sp X y _ _ g _ Hc H)
    as [n_tr [n_te [tr [te [Hv [Hlen [Hok Hs]]]]]]].
  destruct (split_okb_spec _ _ _ _ _ Hok) as [Ltr [Lte [Hnd [Hr _]]]].
  destruct (validate_quarter _ _ _ Hv) as [Hte [Htr H2]].
  destruct (validate_shuffle_split_inv _ _ _ _ Hv) as [_ Hne].
  destruct Hs as [HXtr [HXte [Hytr Hyte]]].
  rewrite (take_length _ _ _ Hytr), (take_length _ _ _ Hyte).
  repeat split; try lia.
  apply (take_exhaust y (tr ++ te)); try assumption.
  - rewrite length_app. lia.
  - now apply take_app.
Qed.

(** The challenge split: the eight labels of the first draw keep every
    class within one sample of its share of all labels, and the training
    and test labels, which together are these eight, keep every class
    within one sample of its share of the eight. *)
Lemma challenge_partition_shares (sp : Sklearn.Splitter) {A} (X : list A)
    (y : list Z) (g : Sklearn.rng sp) (Xtr Xte : list A)
    (ytr yte : list Z) :
  Sklearn.split_contract sp ->
  fst (Challenge.partition_data sp X y g) = Ok (Xtr, Xte, ytr, yte) ->
  0 < length y /\
  length ytr = 6 /\ length yte = 2 /\
  share_within 1 y (ytr ++ yte) /\
  share_within 1 (ytr ++ yte) ytr /\
  share_within 1 (ytr ++ yte) yte.
Proof.
  intros Hc Hpart.
  destruct (challenge_partition_lengths _ _ _ _ _ _ _ _ Hc Hpart)
    as [Hbig [Hly [_ [_ [Lytr Lyte]]]]].
  unfold Challenge.N_TRAIN in Lytr. unfold Challenge.N_TEST in Lyte.
  revert Hpart. unfold Challenge.partition_data.
  destruct (length X =? 0); [discriminate|].
  destruct (Sklearn.train_test_split sp X y _ _ y g) as [r0 g0] eqn:E0.
  assert (E0' : fst (Sklearn.train_test_split sp X y
                       (Z.of_nat Challenge.N_TOT # Pos.of_nat (length X))
                       (Sklearn.RS_Int Challenge.RANDOM_SEED) y g) = r0)
    by now rewrite E0.
  destruct r0 as [[[[Xr X0] yr] y0]|e]; [|discriminate].
  intros H.
  destruct (train_test_split_inv sp X y _ _ g _ Hc E0')
    as [n_tr1 [n_te1 [tr1 [te1 [Hv1 [Hlen1 [Hok1 Hs1]]]]]]].
  destruct (train_test_split_inv sp X0 y0 _ _ g0 _ Hc H)
    as [n_tr2 [n_te2 [tr2 [te2 [Hv2 [Hlen2 [Hok2 Hs2]]]]]]].
  destruct (split_okb_spec _ _ _ _ _ Hok1) as [_ [L1 [_ [_ Hst1]]]].
  destruct (split_okb_spec _ _ _ _ _ Hok2) as [L2 [L2' [Hnd2 [Hr2 Hst2]]]].
  destruct Hs1 as [_ [_ [_ Hy0]]].
  destruct Hs2 as [_ [_ [Hytr Hyte]]].
  assert (Hpos : 0 < length y) by lia.
  assert (Ly0 : length y0 = 8).
  { pose proof (take_length _ _ _ Hytr). pose proof (take_length _ _ _ Hyte).
    destruct (validate_shuffle_split_inv _ _ _ _ Hv2) as [Hn2 _].
    lia. }
  assert (Hperm : Permutation (ytr ++ yte) y0).
  { apply (take_exhaust y0 (tr2 ++ te2)); try assumption.
    - rewrite length_app. pose proof (take_length _ _ _ Hytr).
      pose proof (take_length _ _ _ Hyte). lia.
    - now apply take_app. }
  assert (Sh0 : share_within 1 y y0).
  { apply (contract_share y te1 n_te1); try assumption.
    intros c Hin. now apply Hst1. }
  assert (Hperm' : Permutation y0 (ytr ++ yte)) by now symmetry.
  repeat split; try assumption.
  - intros c. specialize (Sh0 c).
    now rewrite (count_perm c _ _ Hperm), (Permutation_length Hperm).
  - apply (share_within_perm 1 y0 _ _ Hperm').
    apply (contract_share y0 tr2 n_tr2); try assumption; [lia|].
    intros c Hin. now apply Hst2.
  - apply (share_within_perm 1 y0 _ _ Hperm').
    apply (contract_share y0 te2 n_te2); try assumption; [lia|].
    intros c Hin. now apply Hst2.
Qed.

(** C3.  With the seed fixed in the call, both [partition_data] return the
    same split from every state of the global generator and leave that
    state untouched, so repeated calls agree.  When the splitter keeps
    scikit-learn's contract, the returned parts sit at disjoint index lists
    of the input.  In the tutorial every class keeps its share within one
    sample in both parts, no label is lost, a class of at least four
    samples reaches the test part and a class of at least two the training
    part.  In the challenge the eight drawn labels keep every class within
    one sample of its share of all labels and the six training and two
    test labels keep it within one sample of its share of the eight; of
    its share of all labels the training part keeps every class within
    7/4 of a sample and the test part within 5/4. *)
Theorem partition_data_deterministic_disjoint_stratified :
  forall (sp : Sklearn.Splitter) (A : Type) (X : list A) (y : list Z),
    seed_deterministic (Tutorial.partition_data sp X y) /\
    seed_deterministic (Challenge.partition_data sp X y) /\
    (Sklearn.split_contract sp ->
     forall g X_train X_test y_train y_test,
       (fst (Tutorial.partition_data sp X y g)
          = Ok (X_train, X_test, y_train, y_test) ->
        (exists train test,
            NoDup (train ++ test) /\
            is_split X y train test (X_train, X_test, y_train, y_test)) /\
        share_within 1 y y_train /\ share_within 1 y y_test /\
        (forall c, Sklearn.count c y_train + Sklearn.count c y_test
                   = Sklearn.count c y) /\
        (forall c, 4 <= Sklearn.count c y -> In c y_test) /\
        (forall c, 2 <= Sklearn.count c y -> In c y_train)) /\
       (fst (Challenge.partition_data sp X y g)
          = Ok (X_train, X_test, y_train, y_test) ->
        (exists train test,
            NoDup (train ++ test) /\
            is_split X y train test (X_train, X_test, y_train, y_test)) /\
        length y_train = 6 /\ length y_test = 2 /\
        share_within 1 y (y_train ++ y_test) /\
        share_within 1 (y_train ++ y_test) y_train /\
        share_within 1 (y_train ++ y_test) y_test /\
        share_within_q 7 4 y y_train /\
        share_within_q 5 4 y y_test)).
Proof.
  intros sp A X y. split; [|split].
  - apply train_test_split_seeded.
  - intros g1 g2. unfold Challenge.partition_data.
    destruct (length X =? 0); [now split|].
    pose proof (train_test_split_seeded sp X y
                  (Z.of_nat Challenge.N_TOT # Pos.of_nat (length X))
                  Challenge.RANDOM_SEED y) as D.
    destruct (D g1 g2) as [D1 D2]. destruct (D g2 g1) as [_ D3].
    destruct (Sklearn.train_test_split sp X y _ _ y g1) as [r1 h1].
    destruct (Sklearn.train_test_split sp X y _ _ y g2) as [r2 h2].
    cbn [fst snd] in D1, D2, D3. subst r2 h1 h2.
    destruct r1 as [[[[Xr X0] yr] y0]|e]; [|now split].
    apply train_test_split_seeded.
  - intros Hc g Xtr Xte ytr yte. split; intros H.
    + destruct (train_test_split_disjoint_stratified sp X y _ _ g
                  _ _ _ _ Hc H) as [tr [te [Hnd [Hs [S1 S2]]]]].
      destruct (tutorial_labels_cover sp X y g _ _ _ _ Hc H)
        as [Hperm [Hly [Lte [Ltr H2]]]].
      split; [now exists tr, te|]. split; [assumption|].
      split; [assumption|]. split; [|split].
      * intros c. rewrite <- count_app. now apply count_perm.
      * intros c Hc4. apply count_pos_In.
        destruct (Nat.eq_dec (Sklearn.count c yte) 0) as [E0|]; [|lia].
        specialize (S2 c). rewrite E0, Lte, Hly in S2.
        assert (Hq : length X <= 4 * ((length X + 3) / 4)).
        { pose proof (Nat.div_mod_eq (length X + 3) 4).
          pose proof (Nat.mod_upper_bound (length X + 3) 4). lia. }
        nia.
      * intros c Hc2. apply count_pos_In.
        destruct (Nat.eq_dec (Sklearn.count c ytr) 0) as [E0|]; [|lia].
        specialize (S1 c). rewrite E0, Ltr, Hly in S1.
        assert (Hq : length X <= 2 * (length X - (length X + 3) / 4)).
        { pose proof (Nat.div_mod_eq (length X + 3) 4).
          pose proof (Nat.mod_upper_bound (length X + 3) 4). lia. }
        nia.
    + destruct (challenge_partition_disjoint_stratified sp X y g
                  _ _ _ _ Hc H) as [tr [te [Hnd [Hs _]]]].
      destruct (challenge_partition_shares sp X y g _ _ _ _ Hc H)
        as [Hpos [Ltr [Lte [S0 [S1 S2]]]]].
      split; [now exists tr, te|]. split; [assumption|].
      split; [assumption|]. split; [assumption|].
      split; [assumption|]. split; [assumption|]. split.
      * intros c. specialize (S0 c). specialize (S1 c).
        rewrite length_app, Ltr, Lte in S0, S1. rewrite Ltr in *.
        change (Z.of_nat (6 + 2)) with 8%Z in S0, S1.
        change (Z.of_nat 6) with 6%Z in *.
        pose proof (share_of_eight (Z.of_nat (length y))
                      (Z.of_nat (Sklearn.count c y))
                      (Z.of_nat (Sklearn.count c (ytr ++ yte)))
                      (Z.of_nat (Sklearn.count c ytr)) 6
                      ltac:(lia) ltac:(lia) S0 S1).
        lia.
      * intros c. specialize (S0 c). specialize (S2 c).
        rewrite length_app, Ltr, Lte in S0, S2. rewrite Lte in *.
        change (Z.of_nat (6 + 2)) with 8%Z in S0, S2.
        change (Z.of_nat 2) with 2%Z in *.
        pose proof (share_of_eight (Z.of_nat (length y))
                      (Z.of_nat (Sklearn.count c y))
                      (Z.of_nat (Sklearn.count c (ytr ++ yte)))
                      (Z.of_nat (Sklearn.count c yte)) 2
                      ltac:(lia) ltac:(lia) S0 S2).
        lia.
Qed.

Lemma partition_data_deterministic_disjoint_stratified_witness :
  ((exists train test,
       NoDup (train ++ test) /\
       is_split (seq 100 16)
         [0; 1; 0; 1; 0; 1; 0; 1; 0; 1; 0; 1; 0; 1; 0; 1]%Z train test
         (seq 100 12, seq 112 4,
          [0; 1; 0; 1; 0; 1; 0; 1; 0; 1; 0; 1]%Z, [0; 1; 0; 1]%Z)) /\
   share_within 1 [0; 1; 0; 1; 0; 1; 0; 1; 0; 1; 0; 1; 0; 1; 0; 1]%Z
     [0; 1; 0; 1; 0; 1; 0; 1; 0; 1; 0; 1]%Z /\
   share_within 1 [0; 1; 0; 1; 0; 1; 0; 1; 0; 1; 0; 1; 0; 1; 0; 1]%Z
     [0; 1; 0; 1]%Z /\
   (forall c,
       Sklearn.count c [0; 1; 0; 1; 0; 1; 0; 1; 0; 1; 0; 1]%Z
       + Sklearn.count c [0; 1; 0; 1]%Z
       = Sklearn.count c
           [0; 1; 0; 1; 0; 1; 0; 1; 0; 1; 0; 1; 0; 1; 0; 1]%Z) /\
   (forall c,
       4 <= Sklearn.count c
              [0; 1; 0; 1; 0; 1; 0; 1; 0; 1; 0; 1; 0; 1; 0; 1]%Z ->
       In c [0; 1; 0; 1]%Z) /\
   (forall c,
       2 <= Sklearn.count c
              [0; 1; 0; 1; 0; 1; 0; 1; 0; 1; 0; 1; 0; 1; 0; 1]%Z ->
       In c [0; 1; 0; 1; 0; 1; 0; 1; 0; 1; 0; 1]%Z)) /\
  ((exists train test,
       NoDup (train ++ test) /\
       is_split (seq 100 16)
         [0; 1; 0; 1; 0; 1; 0; 1; 0; 1; 0; 1; 0; 1; 0; 1]%Z train test
         ([108; 109; 110; 111; 112; 113], [114; 115],
          [0; 1; 0; 1; 0; 1]%Z, [0; 1]%Z)) /\
   length [0; 1; 0; 1; 0; 1]%Z = 6 /\ length [0; 1]%Z = 2 /\
   share_within 1 [0; 1; 0; 1; 0; 1; 0; 1; 0; 1; 0; 1; 0; 1; 0; 1]%Z
     ([0; 1; 0; 1; 0; 1]%Z ++ [0; 1]%Z) /\
   share_within 1 ([0; 1; 0; 1; 0; 1]%Z ++ [0; 1]%Z) [0; 1; 0; 1; 0; 1]%Z /\
   share_within 1 ([0; 1; 0; 1; 0; 1]%Z ++ [0; 1]%Z) [0; 1]%Z /\
   share_within_q 7 4 [0; 1; 0; 1; 0; 1; 0; 1; 0; 1; 0; 1; 0; 1; 0; 1]%Z
     [0; 1; 0; 1; 0; 1]%Z /\
   share_within_q 5 4 [0; 1; 0; 1; 0; 1; 0; 1; 0; 1; 0; 1; 0; 1; 0; 1]%Z
     [0; 1]%Z).
Proof.
  pose proof (proj2 (proj2
                (partition_data_deterministic_disjoint_stratified
                   checked_splitter nat (seq 100 16)
                   [0; 1; 0; 1; 0; 1; 0; 1; 0; 1; 0; 1; 0; 1; 0; 1]%Z))
                checked_splitter_contract tt) as H.
  split.
  - apply (proj1 (H _ _ _ _)). vm_compute. reflexivity.
  - apply (proj2 (H _ _ _ _)). vm_compute. reflexivity.
Defined.

(** ** The range of the loaded features *)

Section LoaderRange.
Local Open Scope R_scope.
#[local] Arguments MinMaxScaler.col_reduce : simpl never.

Lemma rounding_exact : Fp.rounding (fun x => x).
Proof. split; intros; (assumption || reflexivity). Qed.















Section Rounded.
Variable rnd : R -> R.
Hypothesis Hrnd : Fp.rounding rnd.

(** One entry of a row transformed in rounded arithmetic, in terms of its
    column's extremes, for the feature range [(0, hi)]. *)
Let scale (hi mi mx : R) : R :=
  rnd (rnd (hi - 0)
       / MinMaxScalerFp.handle_zeros_in_scale (Fp.rounded rnd)
           (rnd (mx - mi))).








End Rounded.










End LoaderRange.

Section LoaderRangeClaim.
Local Open Scope R_scope.






End LoaderRangeClaim.
